(** * The patcher of [augment_tools_core/patch_manager.py]

    A shallow embedding of [PatchManager] and of the part of its host that
    the class talks to: text files on a small file system, the regular
    expression the insertion point is found with, [pathlib] names and
    [shutil.copy2].

    Conventions.
    - A Python [str] is a list of code points, a file holds a list of
      bytes; both are lists of [N].  Reading a file in text mode decodes
      UTF-8 strictly and applies universal newlines, as
      [open(path, 'r', encoding='utf-8')] does; writing encodes without
      newline translation ([os.linesep] of a POSIX host).
    - A path is the tuple of components [pathlib] parses its argument into
      ([PurePath.parts] below the anchor); [".."] is not resolved.
    - The host is a single non-privileged user on a POSIX file system
      without links: access is decided by the owner bits of an entry the
      user owns and by the "other" bits of an entry it does not own; only
      the owner may [chmod]; a device has a number of free bytes.
    - Operations are functions of the world (file system, free space,
      console) that return a value or raise, and always a new world. *)

From Stdlib Require Import NArith Ascii String List Lia.
From stdpp Require Import base option list strings gmap.

Local Open Scope string_scope.
Local Open Scope list_scope.
Local Open Scope N_scope.

(** ** Text and bytes *)

Abbreviation codepoint := N (only parsing).
Abbreviation text := (list N) (only parsing).
Abbreviation bytes := (list N) (only parsing).

(** An ASCII literal as a list of code points (equally, of bytes). *)
Definition ascii_text (s : string) : text :=
  map N_of_ascii (list_ascii_of_string s).

(** JavaScript literals are written with a backquote where the source has a
    double quote. *)
Definition js (s : string) : text :=
  map (fun c : N => if c =? 96 then 34 else c) (ascii_text s).

Fixpoint startswith (sub s : text) : bool :=
  match sub, s with
  | [], _ => true
  | _ :: _, [] => false
  | a :: sub', b :: s' => (a =? b) && startswith sub' s'
  end.

(** [sub in s] on Python strings. *)
Fixpoint contains (sub s : text) : bool :=
  startswith sub s ||
  match s with
  | [] => false
  | _ :: s' => contains sub s'
  end.

(** ** UTF-8, strict, as the [utf-8] codec *)

Module utf8.

Definition is_cont (b : N) : bool := (128 <=? b) && (b <? 192).

Definition encode_one (c : codepoint) : bytes :=
  if c <? 128 then [c]
  else if c <? 2048 then [192 + c / 64; 128 + c mod 64]
  else if c <? 65536 then
    [224 + c / 4096; 128 + (c / 64) mod 64; 128 + c mod 64]
  else
    [240 + c / 262144; 128 + (c / 4096) mod 64;
     128 + (c / 64) mod 64; 128 + c mod 64].

Definition encode (s : text) : bytes := flat_map encode_one s.

(** A Unicode scalar value: what a [str] read from a file is made of. *)
Definition scalar (c : codepoint) : bool :=
  (c <? 55296) || ((57344 <=? c) && (c <? 1114112)).

(** The value of a two-, three- and four-byte sequence. *)
Definition cp2 (b0 b1 : N) : codepoint := (b0 - 192) * 64 + (b1 - 128).
Definition cp3 (b0 b1 b2 : N) : codepoint :=
  (b0 - 224) * 4096 + (b1 - 128) * 64 + (b2 - 128).
Definition cp4 (b0 b1 b2 b3 : N) : codepoint :=
  (b0 - 240) * 262144 + (b1 - 128) * 4096 + (b2 - 128) * 64 + (b3 - 128).

(** [None] is [UnicodeDecodeError]: overlong forms, surrogates, values
    above U+10FFFF, stray continuation bytes and truncated sequences are
    all refused. *)
Fixpoint decode (bs : bytes) : option text :=
  match bs with
  | [] => Some []
  | b0 :: r =>
    if b0 <? 128 then cons b0 <$> decode r
    else if (192 <=? b0) && (b0 <? 224) then
      match r with
      | b1 :: r1 =>
        if is_cont b1 && (128 <=? cp2 b0 b1)
        then cons (cp2 b0 b1) <$> decode r1 else None
      | _ => None
      end
    else if (224 <=? b0) && (b0 <? 240) then
      match r with
      | b1 :: b2 :: r2 =>
        if is_cont b1 && is_cont b2
           && (2048 <=? cp3 b0 b1 b2) && scalar (cp3 b0 b1 b2)
        then cons (cp3 b0 b1 b2) <$> decode r2 else None
      | _ => None
      end
    else if (240 <=? b0) && (b0 <? 248) then
      match r with
      | b1 :: b2 :: b3 :: r3 =>
        if is_cont b1 && is_cont b2 && is_cont b3
           && (65536 <=? cp4 b0 b1 b2 b3) && scalar (cp4 b0 b1 b2 b3)
        then cons (cp4 b0 b1 b2 b3) <$> decode r3 else None
      | _ => None
      end
    else None
  end.

End utf8.

(** Universal newlines of text-mode reading ([newline=None]): a CR LF pair
    and a lone CR both become LF. *)
Fixpoint universal_newlines (s : text) : text :=
  match s with
  | [] => []
  | c :: s' =>
    if c =? 13 then
      10 :: match s' with
            | d :: s'' =>
              if d =? 10 then universal_newlines s'' else universal_newlines s'
            | [] => []
            end
    else c :: universal_newlines s'
  end.

Definition no_cr (s : text) : bool := forallb (fun c => negb (c =? 13)) s.

(** What follows a CR: a LF right after it is part of the same line end. *)
Definition skip_lf (s : text) : text :=
  match s with
  | d :: s' => if d =? 10 then s' else s
  | [] => []
  end.

(** ** [re]: the fragment of regular expressions the patcher uses *)

Module re.

Inductive cls :=
| Chr (a : codepoint)      (* a literal character *)
| Space                    (* \s *)
| NotChr (a : codepoint).  (* [^a] *)

Inductive item :=
| One (k : cls)
| Star (k : cls)           (* k*, greedy *)
| Plus (k : cls).          (* k+, greedy *)

(** [\s] of a [str] pattern: the characters [str.isspace] accepts. *)
Definition isspace (c : codepoint) : bool :=
  ((9 <=? c) && (c <=? 13)) || ((28 <=? c) && (c <=? 32))
  || (c =? 133) || (c =? 160) || (c =? 5760)
  || ((8192 <=? c) && (c <=? 8202))
  || (c =? 8232) || (c =? 8233) || (c =? 8239) || (c =? 8287)
  || (c =? 12288).

Definition in_cls (k : cls) (c : codepoint) : bool :=
  match k with
  | Chr a => c =? a
  | Space => isspace c
  | NotChr a => negb (c =? a)
  end.

(** The backtracking matcher: a repetition takes as many characters as it
    can and gives them back one at a time while the rest fails.  The
    result is the length of the match at the front of [s]. *)
Fixpoint star (k : cls) (rest : text -> option nat) (s : text)
  : option nat :=
  match s with
  | c :: s' =>
    if in_cls k c then
      match star k rest s' with
      | Some n => Some (S n)
      | None => rest s
      end
    else rest s
  | [] => rest []
  end.

Fixpoint match_here (r : list item) (s : text) : option nat :=
  match r with
  | [] => Some 0%nat
  | One k :: r' =>
    match s with
    | c :: s' => if in_cls k c then S <$> match_here r' s' else None
    | [] => None
    end
  | Star k :: r' => star k (match_here r') s
  | Plus k :: r' =>
    match s with
    | c :: s' => if in_cls k c then S <$> star k (match_here r') s' else None
    | [] => None
    end
  end.

(** A match object: [m.start()] and [m.end()]. *)
Record Match := mkMatch { m_start : nat; m_end : nat }.

Fixpoint search_from (r : list item) (pos : nat) (s : text)
  : option Match :=
  match match_here r s with
  | Some n => Some (mkMatch pos (pos + n))
  | None =>
    match s with
    | [] => None
    | _ :: s' => search_from r (S pos) s'
    end
  end.

(** [re.search(r, s)]: the match at the leftmost position that has one. *)
Definition search (r : list item) (s : text) : option Match :=
  search_from r 0 s.

Definition literal (s : string) : list item :=
  map (fun c => One (Chr c)) (ascii_text s).

(** What it means for a string to match, independently of the matcher:
    the language of the expression. *)
Inductive matches : list item -> text -> Prop :=
| matches_nil : matches [] []
| matches_one k r c s :
    in_cls k c = true -> matches r s -> matches (One k :: r) (c :: s)
| matches_star k r l s :
    Forall (fun c => in_cls k c = true) l -> matches r s ->
    matches (Star k :: r) (l ++ s)
| matches_plus k r c l s :
    in_cls k c = true -> Forall (fun c => in_cls k c = true) l ->
    matches r s -> matches (Plus k :: r) (c :: l ++ s).

(** [s[i:i+n]] matches [r]. *)
Definition occurs (r : list item) (s : text) (i n : nat) : Prop :=
  (i + n <= length s)%nat /\ matches r (take n (drop i s)).

(** Every repetition is followed by a literal character outside its class:
    a match then has one possible end for a given start. *)
Fixpoint unambiguous (r : list item) : bool :=
  match r with
  | [] => true
  | One _ :: r' => unambiguous r'
  | Star k :: r' | Plus k :: r' =>
    match r' with
    | One (Chr a) :: _ => negb (in_cls k a) && unambiguous r'
    | _ => false
    end
  end.

End re.

(** ** [pathlib]: names *)

Module pathlib.

Abbreviation Path := (list string) (only parsing).

(** [str.rfind(c)], [None] for -1. *)
Fixpoint rfind (c : ascii) (s : string) : option nat :=
  match s with
  | EmptyString => None
  | String a s' =>
    match rfind c s' with
    | Some i => Some (S i)
    | None => if Ascii.eqb a c then Some 0%nat else None
    end
  end.

Definition name (p : Path) : string := default "" (last p).

(** Where the suffix starts: [0 < i < len(name) - 1] for
    [i = name.rfind('.')]. *)
Definition suffix_index (n : string) : option nat :=
  match rfind "."%char n with
  | Some i =>
    if (0 <? i)%nat && (i <? String.length n - 1)%nat then Some i else None
  | None => None
  end.

Definition suffix (p : Path) : string :=
  match suffix_index (name p) with
  | Some i => substring i (String.length (name p) - i) (name p)
  | None => ""
  end.

Definition stem (p : Path) : string :=
  match suffix_index (name p) with
  | Some i => substring 0 i (name p)
  | None => name p
  end.

(** [p.with_name(n)]; [None] is the [ValueError] for a path that has an
    empty name. *)
Definition with_name (p : Path) (n : string) : option Path :=
  if String.eqb (name p) "" then None else Some (removelast p ++ [n]).

(** [str(p)]. *)
Definition str (p : Path) : string :=
  match p with
  | [] => "."
  | _ :: _ => String.concat "/" p
  end.

End pathlib.

(** ** The host: file system, free space, console *)

Inductive node :=
| Dir
| Reg (data : bytes).

(** An entry has its permission bits and is owned by the user or not. *)
Record entry := Entry { e_node : node; e_mode : N; e_owned : bool }.

Inductive level := INFO | SUCCESS | ERROR | WARNING.

Record world := World {
  w_fs : gmap (list string) entry;
  w_free : N;                          (* bytes left on the device *)
  w_console : list (level * string)    (* what print_* wrote, oldest first *)
}.

Inductive exn :=
| FileNotFoundError (p : pathlib.Path)
| IsADirectoryError (p : pathlib.Path)
| NotADirectoryError (p : pathlib.Path)
| PermissionError (errno : N) (p : pathlib.Path)  (* 13 EACCES, 1 EPERM *)
| NoSpaceError (p : pathlib.Path)                 (* OSError, ENOSPC *)
| SameFileError (p q : pathlib.Path)
| UnicodeDecodeError
| UnicodeEncodeError
| ValueError (msg : string).

Definition quoted (p : pathlib.Path) : string := "'" +:+ pathlib.str p +:+ "'".

(** [str(e)], as far as the model tells errors apart. *)
Definition exn_str (e : exn) : string :=
  match e with
  | FileNotFoundError p => "[Errno 2] No such file or directory: " +:+ quoted p
  | IsADirectoryError p => "[Errno 21] Is a directory: " +:+ quoted p
  | NotADirectoryError p => "[Errno 20] Not a directory: " +:+ quoted p
  | PermissionError errno p =>
    (if errno =? 13 then "[Errno 13] Permission denied: "
     else "[Errno 1] Operation not permitted: ") +:+ quoted p
  | NoSpaceError p => "[Errno 28] No space left on device"
  | SameFileError p q =>
    quoted p +:+ " and " +:+ quoted q +:+ " are the same file"
  | UnicodeDecodeError => "'utf-8' codec can't decode bytes"
  | UnicodeEncodeError => "'utf-8' codec can't encode characters"
  | ValueError msg => msg
  end.

(** ** Computations that read and change the world and may raise *)

Inductive outcome (A : Type) :=
| Ret (a : A)
| Raise (e : exn).
Arguments Ret {A} a.
Arguments Raise {A} e.

Definition M (A : Type) : Type := world -> outcome A * world.

Definition ret {A} (a : A) : M A := fun w => (Ret a, w).

Definition raise {A} (e : exn) : M A := fun w => (Raise e, w).

Definition bind {A B} (m : M A) (k : A -> M B) : M B :=
  fun w =>
    match m w with
    | (Ret a, w') => k a w'
    | (Raise e, w') => (Raise e, w')
    end.

(** [try: m  except Exception as e: h e]. *)
Definition try_except {A} (m : M A) (h : exn -> M A) : M A :=
  fun w =>
    match m w with
    | (Ret a, w') => (Ret a, w')
    | (Raise e, w') => h e w'
    end.

(** [try: r = m  except Exception as e: ...] with the outcome as a value,
    for a handler that returns from the enclosing function. *)
Definition attempt {A} (m : M A) : M (exn + A) :=
  fun w =>
    match m w with
    | (Ret a, w') => (Ret (inr a), w')
    | (Raise e, w') => (Ret (inl e), w')
    end.

Notation "x <- m ;; k" := (bind m (fun x => k))
  (at level 100, m at next level, right associativity).
Notation "m ;; k" := (bind m (fun _ => k))
  (at level 100, right associativity).

(** [print_info] and the like come from [common_utils]; what they write is
    kept with its level. *)
Definition print (l : level) (msg : string) : M unit :=
  fun w => (Ret tt, World (w_fs w) (w_free w) (w_console w ++ [(l, msg)])).

Definition print_info := print INFO.
Definition print_success := print SUCCESS.
Definition print_error := print ERROR.
Definition print_warning := print WARNING.

(** ** [stat], [os], [open], [shutil] *)

Module stat.
Definition S_IFDIR : N := 16384.   (* 0o040000 *)
Definition S_IFREG : N := 32768.   (* 0o100000 *)
Definition S_IRUSR : N := 256.     (* 0o400 *)
Definition S_IWUSR : N := 128.     (* 0o200 *)
Definition S_IWRITE : N := 128.    (* 0o200 *)
Definition S_IROTH : N := 4.       (* 0o004 *)
Definition S_IWOTH : N := 2.       (* 0o002 *)
Definition S_IMODE (mode : N) : N := N.land mode 4095.   (* 0o7777 *)
End stat.

Definition may_read (e : entry) : bool :=
  negb (N.land (e_mode e) (if e_owned e then stat.S_IRUSR else stat.S_IROTH)
        =? 0).

Definition may_write (e : entry) : bool :=
  negb (N.land (e_mode e) (if e_owned e then stat.S_IWUSR else stat.S_IWOTH)
        =? 0).

(** [st_mode] of an entry: the file type and the permission bits. *)
Definition st_mode (e : entry) : N :=
  N.lor match e_node e with
        | Dir => stat.S_IFDIR
        | Reg _ => stat.S_IFREG
        end (stat.S_IMODE (e_mode e)).

Definition size (bs : bytes) : N := N.of_nat (length bs).

(** Put [bs] into the regular file [p], whose old content has been given
    back to the device ([avail] bytes are free): all of it, or what fits
    and [ENOSPC]. *)
Definition store (p : pathlib.Path) (mode : N) (owned : bool) (bs : bytes)
    (avail : N) : M unit :=
  fun w =>
    if size bs <=? avail then
      (Ret tt,
       World (<[p := Entry (Reg bs) mode owned]> (w_fs w))
             (avail - size bs) (w_console w))
    else
      (Raise (NoSpaceError p),
       World (<[p := Entry (Reg (take (N.to_nat avail) bs)) mode owned]> (w_fs w))
             0 (w_console w)).

(** [open(p, 'wb')], [write(bs)], [close()]: an existing file is truncated,
    a missing one is created in its directory with mode 0o644 (0o666 under
    the umask 0o022) as the user's own. *)
Definition write_file (p : pathlib.Path) (bs : bytes) : M unit :=
  fun w =>
    match w_fs w !! p with
    | Some e =>
      match e_node e with
      | Dir => (Raise (IsADirectoryError p), w)
      | Reg old =>
        if may_write e
        then store p (e_mode e) (e_owned e) bs (w_free w + size old) w
        else (Raise (PermissionError 13 p), w)
      end
    | None =>
      match p with
      | [] => (Raise (FileNotFoundError p), w)
      | _ :: _ =>
        match w_fs w !! removelast p with
        | None => (Raise (FileNotFoundError p), w)
        | Some d =>
          match e_node d with
          | Reg _ => (Raise (NotADirectoryError p), w)
          | Dir =>
            if may_write d then store p 420 true bs (w_free w) w
            else (Raise (PermissionError 13 p), w)
          end
        end
      end
    end.

(** [open(p, 'rb').read()]. *)
Definition read_file (p : pathlib.Path) : M bytes :=
  fun w =>
    match w_fs w !! p with
    | None => (Raise (FileNotFoundError p), w)
    | Some e =>
      match e_node e with
      | Dir => (Raise (IsADirectoryError p), w)
      | Reg bs =>
        if may_read e then (Ret bs, w) else (Raise (PermissionError 13 p), w)
      end
    end.

(** [with open(p, 'r', encoding='utf-8') as f: f.read()]. *)
Definition open_read_text (p : pathlib.Path) : M text :=
  bs <- read_file p ;;
  match utf8.decode bs with
  | Some s => ret (universal_newlines s)
  | None => raise UnicodeDecodeError
  end.

(** [with open(p, 'w', encoding='utf-8') as f: f.write(s)]: the file is
    truncated when it is opened, before anything is encoded. *)
Definition open_write_text (p : pathlib.Path) (s : text) : M unit :=
  if forallb utf8.scalar s then write_file p (utf8.encode s)
  else write_file p [] ;; raise UnicodeEncodeError.

Module os.

Definition path_exists (p : pathlib.Path) : M bool :=
  fun w => (Ret (bool_decide (is_Some (w_fs w !! p))), w).

Definition path_isdir (p : pathlib.Path) : M bool :=
  fun w =>
    (Ret match w_fs w !! p with
         | Some (Entry Dir _ _) => true
         | _ => false
         end, w).

(** [os.stat(p).st_mode]. *)
Definition stat (p : pathlib.Path) : M N :=
  fun w =>
    match w_fs w !! p with
    | None => (Raise (FileNotFoundError p), w)
    | Some e => (Ret (st_mode e), w)
    end.

(** Only the owner may change the mode, or the times to given values. *)
Definition chmod (p : pathlib.Path) (mode : N) : M unit :=
  fun w =>
    match w_fs w !! p with
    | None => (Raise (FileNotFoundError p), w)
    | Some e =>
      if e_owned e then
        (Ret tt,
         World (<[p := Entry (e_node e) (stat.S_IMODE mode) true]> (w_fs w))
               (w_free w) (w_console w))
      else (Raise (PermissionError 1 p), w)
    end.

Definition utime (p : pathlib.Path) : M unit :=
  fun w =>
    match w_fs w !! p with
    | None => (Raise (FileNotFoundError p), w)
    | Some e =>
      if e_owned e then (Ret tt, w) else (Raise (PermissionError 1 p), w)
    end.

End os.

Module shutil.

Definition copyfile (src dst : pathlib.Path) : M unit :=
  same <- (ex <- os.path_exists src ;; ret (ex && bool_decide (src = dst))) ;;
  if same then raise (SameFileError src dst)
  else bs <- read_file src ;; write_file dst bs.

Definition copystat (src dst : pathlib.Path) : M unit :=
  st_mode <- os.stat src ;;
  os.utime dst ;;
  os.chmod dst (stat.S_IMODE st_mode).

(** [shutil.copy2(src, dst)]: data, then permission bits and times; into
    [dst] under the name of [src] when [dst] is a directory. *)
Definition copy2 (src dst : pathlib.Path) : M pathlib.Path :=
  isdir <- os.path_isdir dst ;;
  let dst := if isdir then dst ++ [pathlib.name src] else dst in
  copyfile src dst ;;
  copystat src dst ;;
  ret dst.

End shutil.

(** ** [PatchManager] *)

Inductive PatchMode := BLOCK | RANDOM | EMPTY | STEALTH | DEBUG.

Definition PatchMode_value (m : PatchMode) : string :=
  match m with
  | BLOCK => "block"
  | RANDOM => "random"
  | EMPTY => "empty"
  | STEALTH => "stealth"
  | DEBUG => "debug"
  end.

Record PatchResult := mkPatchResult {
  success : bool;
  message : string;
  file_path : string;
  backup_path : string
}.

(** [self.patches]. *)
Definition patches (m : PatchMode) : text :=
  match m with
  | BLOCK => js "if (typeof s === `string` && (s.startsWith(`report-`) || s.startsWith(`record-`))) { return { success: true }; }"
  | RANDOM => js "if (typeof s === `string` && (s.startsWith(`report-`) || s.startsWith(`record-`))) { i = { timestamp: Date.now(), version: Math.random().toString(36).substring(2, 8) }; }"
  | EMPTY => js "if (typeof s === `string` && (s.startsWith(`report-`) || s.startsWith(`record-`))) { i = {}; }"
  | STEALTH => js "if (typeof s === `string` && (s.startsWith(`report-`) || s.startsWith(`record-`))) { i = { timestamp: Date.now(), session: Math.random().toString(36).substring(2, 10), events: [] }; }"
  | DEBUG => js "if (typeof s === `string` && (s.startsWith(`report-`) || s.startsWith(`record-`))) { i = { timestamp: Date.now(), version: Math.random().toString(36).substring(2, 8) }; } if (typeof s === `string` && s === `subscription-info`) { return { success: true, subscription: { Enterprise: {}, ActiveSubscription: { end_date: `2026-12-31`, usage_balance_depleted: false } } }; } this.maxUploadSizeBytes = 999999999; this.maxTrackableFileCount = 999999; this.completionTimeoutMs = 999999; this.diffBudget = 999999; this.messageBudget = 999999; this.enableDebugFeatures = true;"
  end.

(** [self.patch_signatures]. *)
Definition patch_signatures : list text :=
  [ js "startsWith(`report-`)";
    js "startsWith(`record-`)";
    js "randSessionId";
    js "this._userAgent = ``" ].

Definition _generate_session_randomizer : text :=
  js " const chars = `0123456789abcdef`; let randSessionId = ``; for (let i = 0; i < 36; i++) { randSessionId += i === 8 || i === 13 || i === 18 || i === 23 ? `-` : i === 14 ? `4` : i === 19 ? chars[8 + Math.floor(4 * Math.random())] : chars[Math.floor(16 * Math.random())]; } this.sessionId = randSessionId; this._userAgent = ``;".

Definition get_patch_description (mode : PatchMode) : string :=
  match mode with
  | BLOCK => "完全遥测阻止 - 不发送任何数据"
  | RANDOM => "随机假数据 - 服务器收到无意义数据"
  | EMPTY => "空数据模式 - 发送最小载荷"
  | STEALTH => "隐身模式 - 发送逼真但假的遥测数据"
  | DEBUG => "调试模式 - 假订阅 + 无限制 + 增强功能"
  end.

(** [os.name == 'nt' or platform.system().lower().startswith('win')] on the
    host of this model. *)
Definition on_windows : bool := false.

Definition _ensure_write_permissions (file_path : pathlib.Path) : M bool :=
  try_except
    (ex <- os.path_exists file_path ;;
     if ex then
       st_mode <- os.stat file_path ;;
       let current_perms := stat.S_IMODE st_mode in
       let write_flag :=
         if on_windows then Some stat.S_IWRITE else Some stat.S_IWUSR in
       match write_flag with
       | None => ret true
       | Some write_flag =>
         if N.land current_perms write_flag =? 0 then
           let new_perms := N.lor current_perms write_flag in
           try_except
             (os.chmod file_path new_perms ;;
              print_info ("已为文件添加写权限: " +:+ pathlib.str file_path) ;;
              ret true)
             (fun _ =>
                try_except
                  (os.chmod file_path new_perms ;;
                   print_info
                     ("已为文件添加写权限: " +:+ pathlib.str file_path) ;;
                   ret true)
                  (fun e =>
                     print_warning ("修改文件权限失败: " +:+ exn_str e) ;;
                     ret false))
         else ret true
       end
     else ret true)
    (fun e =>
       print_warning ("修改文件权限失败: " +:+ exn_str e) ;;
       ret false).

(** [file_path_obj.with_name(f'{stem}_ori{suffix}')]. *)
Definition backup_of (file_path : pathlib.Path) : option pathlib.Path :=
  pathlib.with_name file_path
    (pathlib.stem file_path +:+ "_ori" +:+ pathlib.suffix file_path).

Definition backup_path_of (file_path : pathlib.Path) : M pathlib.Path :=
  match backup_of file_path with
  | Some b => ret b
  | None =>
    raise (ValueError (quoted file_path +:+ " has an empty name"))
  end.

(** The pair [(False, '')] of a failure is [(false, [])]. *)
Definition _create_backup (file_path : pathlib.Path)
  : M (bool * pathlib.Path) :=
  try_except
    (backup_path <- backup_path_of file_path ;;
     ex <- os.path_exists backup_path ;;
     if ex then
       print_warning ("备份文件已存在: " +:+ pathlib.str backup_path) ;;
       ret (true, backup_path)
     else
       shutil.copy2 file_path backup_path ;;
       print_success ("备份创建成功: " +:+ pathlib.str backup_path) ;;
       ret (true, backup_path))
    (fun e =>
       print_error ("创建备份失败: " +:+ exn_str e) ;;
       ret (false, [])).

Definition _is_already_patched (content : text) : bool :=
  existsb (fun sig => contains sig content) patch_signatures.

(** [r'(async\s+callApi\s*\([^)]*\)\s*\{)']. *)
Definition pattern : list re.item :=
  re.literal "async" ++ [re.Plus re.Space] ++ re.literal "callApi"
  ++ [re.Star re.Space; re.One (re.Chr 40); re.Star (re.NotChr 41);
      re.One (re.Chr 41); re.Star re.Space; re.One (re.Chr 123)].

Definition _find_callapi_function (content : text) : option re.Match :=
  re.search pattern content.

(** [self.patches[patch_mode] + self._generate_session_randomizer()]. *)
Definition patch_code (patch_mode : PatchMode) : text :=
  patches patch_mode ++ _generate_session_randomizer.

(** [content[:func_start] + patch_code + content[func_start:]]. *)
Definition patched_content (content : text) (patch_mode : PatchMode)
    (func_start : nat) : text :=
  take func_start content ++ patch_code patch_mode ++ drop func_start content.

(** The handler of a failed write in [apply_patch]: the inner
    [try ... except:]. *)
Definition restore_after_failed_write (backup_path file_path : pathlib.Path)
  : M unit :=
  try_except
    (_ensure_write_permissions file_path ;;
     shutil.copy2 backup_path file_path ;;
     print_warning "已从备份恢复原始文件")
    (fun _ => print_error "恢复原始文件失败!").

Definition failed (msg : string) : PatchResult := mkPatchResult false msg "" "".

Definition apply_patch (file_path : pathlib.Path) (patch_mode : PatchMode)
  : M PatchResult :=
  try_except
    (ex <- os.path_exists file_path ;;
     if negb ex then
       ret (failed ("文件不存在: " +:+ pathlib.str file_path))
     else
       print_info ("开始补丁文件: " +:+ pathlib.str file_path) ;;
       print_info ("补丁模式: " +:+ PatchMode_value patch_mode +:+ " - "
                   +:+ get_patch_description patch_mode) ;;
       r <- attempt (open_read_text file_path) ;;
       match r with
       | inl e => ret (failed ("读取文件失败: " +:+ exn_str e))
       | inr content =>
         if _is_already_patched content then
           ret (failed "文件已被补丁，跳过操作")
         else
           match _find_callapi_function content with
           | None => ret (failed "未找到async callApi函数")
           | Some mt =>
             ok <- _ensure_write_permissions file_path ;;
             if negb ok then ret (failed "无法获取文件写权限")
             else
               b <- _create_backup file_path ;;
               let '(backup_success, backup_path) := b in
               if negb backup_success then ret (failed "创建备份失败")
               else
                 let func_start := re.m_end mt in
                 try_except
                   (open_write_text file_path
                      (patched_content content patch_mode func_start) ;;
                    print_success
                      ("补丁应用成功: " +:+ pathlib.str file_path) ;;
                    print_info
                      ("效果: " +:+ get_patch_description patch_mode) ;;
                    print_info "隐私保护已启用!" ;;
                    ret (mkPatchResult true "补丁应用成功"
                           (pathlib.str file_path)
                           (pathlib.str backup_path)))
                   (fun e =>
                      restore_after_failed_write backup_path file_path ;;
                      ret (failed ("写入补丁文件失败: " +:+ exn_str e)))
           end
       end)
    (fun e => ret (failed ("补丁操作失败: " +:+ exn_str e))).

Definition restore_from_backup (file_path : pathlib.Path) : M PatchResult :=
  try_except
    (backup_path <- backup_path_of file_path ;;
     ex <- os.path_exists backup_path ;;
     if negb ex then
       ret (failed ("备份文件不存在: " +:+ pathlib.str backup_path))
     else
       ok <- _ensure_write_permissions file_path ;;
       if negb ok then ret (failed "无法获取文件写权限")
       else
         shutil.copy2 backup_path file_path ;;
         print_success ("已从备份恢复: " +:+ pathlib.str file_path) ;;
         ret (mkPatchResult true "恢复成功"
                (pathlib.str file_path) (pathlib.str backup_path)))
    (fun e => ret (failed ("恢复失败: " +:+ exn_str e))).

(** [FALLBACK_TEXTS]. *)
Definition FALLBACK_TEXTS : gmap string string :=
  list_to_map
    [ ("patch.status.file_not_found", "file not found");
      ("patch.status.patched", "patched");
      ("patch.status.not_patched", "not patched");
      ("patch.status.status_unknown", "status unknown") ].

Section language.

(** [language_manager] is not part of this file: whether its import
    succeeded and what its [get_text] answers are parameters. *)
Variable LANGUAGE_SUPPORT : bool.
Variable get_text : string -> string.

(** [get_text(key) if LANGUAGE_SUPPORT else FALLBACK_TEXTS.get(key, dflt)]. *)
Definition status_text (key dflt : string) : string :=
  if LANGUAGE_SUPPORT then get_text key
  else default dflt (FALLBACK_TEXTS !! key).

Definition get_patch_status (file_path : pathlib.Path) : M string :=
  try_except
    (ex <- os.path_exists file_path ;;
     if negb ex then
       ret (status_text "patch.status.file_not_found" "file not found")
     else
       content <- open_read_text file_path ;;
       if _is_already_patched content then
         ret (status_text "patch.status.patched" "patched")
       else
         ret (status_text "patch.status.not_patched" "not patched"))
    (fun _ =>
       ret (status_text "patch.status.status_unknown" "status unknown")).

End language.

(** ** Vocabulary for the statements *)

(** The permission bits [stat.S_IMODE(st_mode)] of an entry. *)
Definition st_perms (e : entry) : N := stat.S_IMODE (e_mode e).

Definition lacks_write_flag (e : entry) : bool :=
  N.land (st_perms e) stat.S_IWUSR =? 0.

(** The entry after [chmod(current_perms | write_flag)] by its owner. *)
Definition add_write_flag (e : entry) : entry :=
  Entry (e_node e) (stat.S_IMODE (N.lor (st_perms e) stat.S_IWUSR)) true.

Definition logged (l : level) (msg : string) (w : world) : world :=
  World (w_fs w) (w_free w) (w_console w ++ [(l, msg)]).

Definition with_fs (fs : gmap (list string) entry) (w : world) : world :=
  World fs (w_free w) (w_console w).

(** The weakest precondition of a computation: [Q] holds of what it does
    from [w]. *)
Definition wp {A} (m : M A) (Q : outcome A -> world -> Prop) (w : world)
  : Prop :=
  Q (m w).1 (m w).2.

(** The destination of [shutil.copy2 src dst] in [w]. *)
Definition copy2_dst (w : world) (src dst : pathlib.Path) : pathlib.Path :=
  match w_fs w !! dst with
  | Some (Entry Dir _ _) => dst ++ [pathlib.name src]
  | _ => dst
  end.

(** What reading [p] as text gives in [w], when it gives something. *)
Definition read_text (w : world) (p : pathlib.Path) : option text :=
  match w_fs w !! p with
  | Some e =>
    match e_node e with
    | Reg data =>
      if may_read e then universal_newlines <$> utf8.decode data else None
    | Dir => None
    end
  | None => None
  end.

(** The bytes of the regular file at [p]. *)
Definition file_bytes (w : world) (p : pathlib.Path) : option bytes :=
  match w_fs w !! p with
  | Some e =>
    match e_node e with
    | Reg data => Some data
    | Dir => None
    end
  | None => None
  end.

(** What writing [bs] to [p] from [w] guarantees. *)
Definition write_post (p : pathlib.Path) (bs : bytes) (w : world)
    (o : outcome ()) (w' : world) : Prop :=
  w_console w' = w_console w
  /\ (forall q, q <> p -> w_fs w' !! q = w_fs w !! q)
  /\ (forall e, w_fs w !! p = Some e -> e_node e <> Dir ->
        exists e', w_fs w' !! p = Some e' /\ e_node e' <> Dir)
  /\ match o with
     | Ret _ =>
       exists e', w_fs w' !! p = Some e' /\ e_node e' = Reg bs
         /\ (forall e, w_fs w !! p = Some e ->
               e_mode e' = e_mode e /\ e_owned e' = e_owned e)
     | Raise _ => True
     end.

(** The world once [apply_patch] has announced itself on the console. *)
Definition started (p : pathlib.Path) (m : PatchMode) (w : world) : world :=
  logged INFO ("补丁模式: " +:+ PatchMode_value m +:+ " - "
               +:+ get_patch_description m)
    (logged INFO ("开始补丁文件: " +:+ pathlib.str p) w).

(** The file is the user's own, its backup is there or can be made in its
    directory, and the device has room for the backup and the patched
    file. *)
Definition patchable (w : world) (p : pathlib.Path) (m : PatchMode) : Prop :=
  exists e data c b,
    w_fs w !! p = Some e /\ e_node e = Reg data /\ e_owned e = true
    /\ read_text w p = Some c /\ backup_of p = Some b
    /\ (is_Some (w_fs w !! b)
        \/ exists d, w_fs w !! removelast p = Some d /\ e_node d = Dir
             /\ may_write d = true)
    /\ size data + size (utf8.encode c) + size (patch_code m) <= w_free w.

(** A text contains one, or each, of the signatures; it contains a match of
    the anchor expression. *)
Definition has_signature (c : text) : Prop :=
  exists sig, sig ∈ patch_signatures /\ exists a b, c = a ++ sig ++ b.

Definition has_all_signatures (c : text) : Prop :=
  forall sig, sig ∈ patch_signatures -> exists a b, c = a ++ sig ++ b.

Definition has_anchor (c : text) : Prop :=
  exists i n, re.occurs pattern c i n.

(** The failures of [apply_patch] and of [restore_from_backup], by their
    messages. *)
Inductive apply_failure (p : pathlib.Path) : string -> Prop :=
| fail_not_found : apply_failure p ("文件不存在: " +:+ pathlib.str p)
| fail_read e : apply_failure p ("读取文件失败: " +:+ exn_str e)
| fail_already_patched : apply_failure p "文件已被补丁，跳过操作"
| fail_pattern_not_found : apply_failure p "未找到async callApi函数"
| fail_permission : apply_failure p "无法获取文件写权限"
| fail_backup : apply_failure p "创建备份失败"
| fail_write e : apply_failure p ("写入补丁文件失败: " +:+ exn_str e).

Inductive restore_failure : string -> Prop :=
| fail_no_backup b : restore_failure ("备份文件不存在: " +:+ pathlib.str b)
| fail_restore_permission : restore_failure "无法获取文件写权限"
| fail_restore e : restore_failure ("恢复失败: " +:+ exn_str e).

(** The status [get_patch_status] is to report, by its key in the message
    tables and its fallback text. *)
Inductive status_of (w : world) (p : pathlib.Path) : string -> string -> Prop :=
| status_file_not_found :
    w_fs w !! p = None ->
    status_of w p "patch.status.file_not_found" "file not found"
| status_patched c :
    open_read_text p w = (Ret c, w) -> has_signature c ->
    status_of w p "patch.status.patched" "patched"
| status_not_patched c :
    open_read_text p w = (Ret c, w) -> ~ has_signature c ->
    status_of w p "patch.status.not_patched" "not patched"
| status_unknown e :
    is_Some (w_fs w !! p) -> open_read_text p w = (Raise e, w) ->
    status_of w p "patch.status.status_unknown" "status unknown".

(** The operations on a target, and what a sequence of them leaves. *)
Inductive operation :=
| ApplyPatch (m : PatchMode)
| RestoreFromBackup
| GetPatchStatus.

Section operations.

Variable LANGUAGE_SUPPORT : bool.
Variable get_text : string -> string.

Definition perform (p : pathlib.Path) (w : world) (op : operation) : world :=
  match op with
  | ApplyPatch m => (apply_patch p m w).2
  | RestoreFromBackup => (restore_from_backup p w).2
  | GetPatchStatus => (get_patch_status LANGUAGE_SUPPORT get_text p w).2
  end.

Definition perform_all (p : pathlib.Path) (ops : list operation) (w : world)
  : world :=
  fold_left (perform p) ops w.

End operations.

(** The texts the anchor expression matches: [async], white space,
    [callApi], maybe white space, a parameter list without a closing
    parenthesis inside, maybe white space, an opening brace. *)
Definition anchor_text (ws1 ws2 args ws3 : text) : text :=
  ascii_text "async" ++ ws1 ++ ascii_text "callApi" ++ ws2
  ++ [40] ++ args ++ [41] ++ ws3 ++ [123].

Definition anchor_parts (ws1 ws2 args ws3 : text) : Prop :=
  ws1 <> []
  /\ Forall (fun c => re.isspace c = true) ws1
  /\ Forall (fun c => re.isspace c = true) ws2
  /\ Forall (fun c => c <> 41) args
  /\ Forall (fun c => re.isspace c = true) ws3.

(** The world a successful [apply_patch] leaves, from the one its write
    left. *)
Definition announced (p : pathlib.Path) (m : PatchMode) (w : world) : world :=
  logged INFO "隐私保护已启用!"
    (logged INFO ("效果: " +:+ get_patch_description m)
       (logged SUCCESS ("补丁应用成功: " +:+ pathlib.str p) w)).

(** The entry of a file once [_ensure_write_permissions] has answered
    [True]. *)
Definition writable_entry (e : entry) : entry :=
  if lacks_write_flag e then add_write_flag e else e.

(** What a successful [apply_patch] writes on the console between its
    announcement and its report: the line of the changed mode, if it was
    changed, and the line of the backup. *)
Definition backup_lines (p b : pathlib.Path) (e : entry) (fresh : bool)
  : list (level * string) :=
  (if lacks_write_flag e
   then [(INFO, "已为文件添加写权限: " +:+ pathlib.str p)] else [])
  ++ [if fresh then (SUCCESS, "备份创建成功: " +:+ pathlib.str b)
      else (WARNING, "备份文件已存在: " +:+ pathlib.str b)].

(** The lines [apply_patch] opens with on a file that is there, and the
    lines it closes a success with. *)
Definition start_lines (p : pathlib.Path) (m : PatchMode)
  : list (level * string) :=
  [ (INFO, "开始补丁文件: " +:+ pathlib.str p);
    (INFO, "补丁模式: " +:+ PatchMode_value m +:+ " - "
           +:+ get_patch_description m) ].

Definition report_lines (p : pathlib.Path) (m : PatchMode)
  : list (level * string) :=
  [ (SUCCESS, "补丁应用成功: " +:+ pathlib.str p);
    (INFO, "效果: " +:+ get_patch_description m);
    (INFO, "隐私保护已启用!") ].

(** Both are directories or neither is. *)
Definition same_kind (e e' : entry) : Prop :=
  e_node e = Dir <-> e_node e' = Dir.

(** From [w] to [w'] only the paths of [S] can have changed or appeared,
    no path has gone, and no file has become a directory or a directory a
    file. *)
Definition touches (S : list pathlib.Path) (w w' : world) : Prop :=
  (forall q, q ∉ S -> w_fs w' !! q = w_fs w !! q)
  /\ (forall q e, w_fs w !! q = Some e ->
        exists e', w_fs w' !! q = Some e' /\ same_kind e e').

(** ** Sample worlds *)

Definition sample_dir : pathlib.Path := ["ext"].
Definition sample_file : pathlib.Path := ["ext"; "extension.js"].
Definition sample_backup : pathlib.Path := ["ext"; "extension_ori.js"].

Definition sample_js : bytes :=
  ascii_text "class A { async callApi(s, i) { return 1; } }".

Definition sample_fs (target : entry) : gmap (list string) entry :=
  <[sample_dir := Entry Dir 493 true]> (<[sample_file := target]> ∅).

(** The user's own file, mode 0o644, in the user's directory 0o755. *)
Definition sample_world : world :=
  World (sample_fs (Entry (Reg sample_js) 420 true)) 10000 [].

(** Somebody else's read-only file, mode 0o444. *)
Definition readonly_world : world :=
  World (sample_fs (Entry (Reg sample_js) 292 false)) 10000 [].

(** Somebody else's file, mode 0o644: the owner's write flag is set, the
    user may not write. *)
Definition foreign_world : world :=
  World (sample_fs (Entry (Reg sample_js) 420 false)) 10000 [].

(** A device with room for the backup but not for the patched file. *)
Definition full_world : world :=
  World (sample_fs (Entry (Reg sample_js) 420 true)) 100 [].

(** A backup from an earlier time is there, with other content. *)
Definition stale_backup_world : world :=
  World (<[sample_backup := Entry (Reg (ascii_text "class Old { }")) 420 true]>
           (sample_fs (Entry (Reg sample_js) 420 true)))
        10000 [].

(** No [callApi] in the file. *)
Definition no_anchor_world : world :=
  World (sample_fs (Entry (Reg (ascii_text "class A { run() { } }")) 420 true))
        10000 [].

(** Two functions the expression matches. *)
Definition two_anchors_js : bytes :=
  ascii_text "async callApi(a) { } async  callApi (b)  { }".

Definition two_anchors_world : world :=
  World (sample_fs (Entry (Reg two_anchors_js) 420 true)) 10000 [].

(** A directory where the file should be. *)
Definition directory_world : world :=
  World (sample_fs (Entry Dir 493 true)) 10000 [].

(** The same bytes at another path, in another mode and owner's hands, on
    another device. *)
Definition other_world : world :=
  World (<[ ["opt"] := Entry Dir 511 false ]>
           (<[ ["opt"; "main.js"] := Entry (Reg sample_js) 438 false ]> ∅))
        700 [(INFO, "earlier")].

(** The user's own read-only file, mode 0o444. *)
Definition own_readonly_world : world :=
  World (sample_fs (Entry (Reg sample_js) 292 true)) 10000 [].

(** A device with room for half a backup. *)
Definition tight_world : world :=
  World (sample_fs (Entry (Reg sample_js) 420 true)) 20 [].

(** The file is gone, its backup is there. *)
Definition lost_target_world : world :=
  World (<[sample_dir := Entry Dir 493 true]>
           (<[sample_backup := Entry (Reg sample_js) 292 true]> ∅))
        10000 [].

(** * Properties *)

(** ** Substrings *)

Ltac nbool :=
  repeat match goal with
  | |- context [N.ltb ?a ?b] => destruct (N.ltb_spec a b); try lia
  | |- context [N.leb ?a ?b] => destruct (N.leb_spec a b); try lia
  | |- context [N.eqb ?a ?b] => destruct (N.eqb_spec a b); try lia
  end.

Lemma startswith_spec sub s :
  startswith sub s = true <-> exists r, s = sub ++ r.
Proof.
  revert s. induction sub as [|a sub IH]; intros s; simpl.
  - split; [intros _; by exists s | done].
  - destruct s as [|b s].
    + split; [done | intros [r Hr]; discriminate].
    + rewrite andb_true_iff, N.eqb_eq, IH. split.
      * intros [-> [r ->]]. by exists r.
      * intros [r Hr]. injection Hr as -> ->. eauto.
Qed.

Lemma contains_spec sub s :
  contains sub s = true <-> exists a b, s = a ++ sub ++ b.
Proof.
  induction s as [|c s IH]; simpl.
  - rewrite orb_false_r, startswith_spec. split.
    + intros [r Hr]. by exists [], r.
    + intros [a [b H]]. destruct a; [by exists b | discriminate].
  - rewrite orb_true_iff, startswith_spec, IH. split.
    + intros [[r Hr] | [a [b ->]]]; [by exists [], r | by exists (c :: a), b].
    + intros [[|c' a] [b H]]; [left; by exists b |].
      right. injection H as -> ->. eauto.
Qed.

Lemma contains_middle sub a x b :
  contains sub x = true -> contains sub (a ++ x ++ b) = true.
Proof.
  rewrite !contains_spec. intros [u [v ->]].
  exists (a ++ u), (v ++ b). by rewrite <- !app_assoc.
Qed.

(** ** UTF-8 *)

Lemma scalar_range c :
  utf8.scalar c = true -> c < 1114112 /\ (c < 55296 \/ 57344 <= c).
Proof. unfold utf8.scalar. nbool; simpl; intros; try discriminate; lia. Qed.

Lemma split64 c : c = 64 * (c / 64) + c mod 64 /\ c mod 64 < 64.
Proof. split; [apply N.div_mod | apply N.mod_lt]; lia. Qed.

Lemma decode_encode_one c r :
  utf8.scalar c = true ->
  utf8.decode (utf8.encode_one c ++ r) = cons c <$> utf8.decode r.
Proof.
  intros Hc. pose proof (scalar_range c Hc) as [Hlt Hs].
  assert (E4096 : c / 4096 = c / 64 / 64) by (by rewrite N.Div0.div_div).
  assert (E262144 : c / 262144 = c / 64 / 64 / 64)
    by (by rewrite !N.Div0.div_div).
  destruct (split64 c) as [H1 H1'].
  destruct (split64 (c / 64)) as [H2 H2'].
  destruct (split64 (c / 64 / 64)) as [H3 H3'].
  unfold utf8.encode_one. rewrite E4096, E262144.
  set (q1 := c / 64) in *. set (r1 := c mod 64) in *.
  set (q2 := q1 / 64) in *. set (r2 := q1 mod 64) in *.
  set (q3 := q2 / 64) in *. set (r3 := q2 mod 64) in *.
  clearbody q1 r1 q2 r2 q3 r3. clear E4096 E262144.
  destruct (N.ltb_spec c 128).
  { simpl. destruct (N.ltb_spec c 128); [done | lia]. }
  destruct (N.ltb_spec c 2048).
  { cbn [app utf8.decode].
    assert (E : utf8.cp2 (192 + q1) (128 + r1) = c) by (unfold utf8.cp2; lia).
    rewrite E. unfold utf8.is_cont. nbool; done. }
  destruct (N.ltb_spec c 65536).
  { cbn [app utf8.decode].
    assert (E : utf8.cp3 (224 + q2) (128 + r2) (128 + r1) = c)
      by (unfold utf8.cp3; lia).
    rewrite E, Hc. unfold utf8.is_cont. nbool; done. }
  cbn [app utf8.decode].
  assert (E : utf8.cp4 (240 + q3) (128 + r3) (128 + r2) (128 + r1) = c)
    by (unfold utf8.cp4; lia).
  rewrite E, Hc. unfold utf8.is_cont. nbool; done.
Qed.

Lemma decode_encode s :
  forallb utf8.scalar s = true -> utf8.decode (utf8.encode s) = Some s.
Proof.
  induction s as [|c s IH]; simpl; [done |].
  rewrite andb_true_iff. intros [Hc Hs].
  rewrite decode_encode_one by done. by rewrite IH.
Qed.

Lemma encode_app a b : utf8.encode (a ++ b) = utf8.encode a ++ utf8.encode b.
Proof. unfold utf8.encode. apply flat_map_app. Qed.

Lemma encode_ascii s : forallb (fun c => c <? 128) s = true -> utf8.encode s = s.
Proof.
  induction s as [|c s IH]; simpl; [done |].
  rewrite andb_true_iff. intros [Hc Hs]. unfold utf8.encode_one.
  rewrite Hc. simpl. f_equal. by apply IH.
Qed.

Lemma decode_scalar_aux n : forall bs s,
  (length bs <= n)%nat -> utf8.decode bs = Some s ->
  forallb utf8.scalar s = true.
Proof.
  induction n as [|n IH]; intros bs s Hn.
  { destruct bs; [|simpl in Hn; lia]. simpl. by intros [= <-]. }
  destruct bs as [|b0 r]; [simpl; by intros [= <-] |].
  simpl in Hn. cbn [utf8.decode].
  destruct (N.ltb_spec b0 128).
  { destruct (utf8.decode r) as [s'|] eqn:E; [|done]. intros [= <-]. simpl.
    rewrite (IH r s') by (done || lia). rewrite andb_true_r.
    unfold utf8.scalar. nbool; done. }
  destruct ((192 <=? b0) && (b0 <? 224)) eqn:E2.
  { destruct r as [|b1 r1]; [done |].
    destruct (utf8.is_cont b1 && (128 <=? utf8.cp2 b0 b1)) eqn:Eok; [|done].
    destruct (utf8.decode r1) as [s'|] eqn:E; [|done]. intros [= <-]. simpl.
    rewrite (IH r1 s') by (done || simpl in Hn; lia). rewrite andb_true_r.
    revert E2 Eok. unfold utf8.scalar, utf8.is_cont, utf8.cp2.
    nbool; simpl; try done; intros; nbool; lia. }
  destruct ((224 <=? b0) && (b0 <? 240)) eqn:E3.
  { destruct r as [|b1 [|b2 r2]]; [done | done |].
    destruct (utf8.is_cont b1 && utf8.is_cont b2
              && (2048 <=? utf8.cp3 b0 b1 b2) && utf8.scalar (utf8.cp3 b0 b1 b2))
      eqn:Eok; [|done].
    destruct (utf8.decode r2) as [s'|] eqn:E; [|done]. intros [= <-]. simpl.
    rewrite (IH r2 s') by (done || simpl in Hn; lia). rewrite andb_true_r.
    apply andb_true_iff in Eok. tauto. }
  destruct ((240 <=? b0) && (b0 <? 248)) eqn:E4; [|done].
  destruct r as [|b1 [|b2 [|b3 r3]]]; [done | done | done |].
  destruct (utf8.is_cont b1 && utf8.is_cont b2 && utf8.is_cont b3
            && (65536 <=? utf8.cp4 b0 b1 b2 b3)
            && utf8.scalar (utf8.cp4 b0 b1 b2 b3)) eqn:Eok; [|done].
  destruct (utf8.decode r3) as [s'|] eqn:E; [|done]. intros [= <-]. simpl.
  rewrite (IH r3 s') by (done || simpl in Hn; lia). rewrite andb_true_r.
  apply andb_true_iff in Eok. tauto.
Qed.

Lemma decode_scalar bs s :
  utf8.decode bs = Some s -> forallb utf8.scalar s = true.
Proof. by apply (decode_scalar_aux (length bs)). Qed.

(** ** Universal newlines *)

Lemma universal_newlines_id s : no_cr s = true -> universal_newlines s = s.
Proof.
  induction s as [|c s IH]; simpl; [done |].
  rewrite andb_true_iff. intros [Hc Hs].
  destruct (c =? 13); [done |]. f_equal. by apply IH.
Qed.

Lemma universal_newlines_cons c s :
  universal_newlines (c :: s) =
  if c =? 13 then 10 :: universal_newlines (skip_lf s)
  else c :: universal_newlines s.
Proof.
  simpl. destruct (c =? 13); [|done].
  destruct s as [|d s]; [done |]. simpl. by destruct (d =? 10).
Qed.

Lemma skip_lf_length s : (length (skip_lf s) <= length s)%nat.
Proof. destruct s as [|d s]; simpl; [lia |]. destruct (d =? 10); simpl; lia. Qed.

Lemma universal_newlines_no_cr_aux n : forall s,
  (length s <= n)%nat -> no_cr (universal_newlines s) = true.
Proof.
  induction n as [|n IH]; intros [|c s] Hn; try done; [simpl in Hn; lia |].
  rewrite universal_newlines_cons. simpl in Hn.
  destruct (N.eqb_spec c 13); simpl.
  - apply IH. pose proof (skip_lf_length s). lia.
  - destruct (N.eqb_spec c 13); [done |]. simpl. apply IH. lia.
Qed.

Lemma universal_newlines_no_cr s : no_cr (universal_newlines s) = true.
Proof. by apply (universal_newlines_no_cr_aux (length s)). Qed.

Lemma no_cr_app a b : no_cr (a ++ b) = no_cr a && no_cr b.
Proof. apply forallb_app. Qed.

(** ** The matcher and the language *)

Lemma star_sound k rest s n :
  re.star k rest s = Some n ->
  exists j m, n = (j + m)%nat /\ (j <= length s)%nat
    /\ Forall (fun c => re.in_cls k c = true) (take j s)
    /\ rest (drop j s) = Some m.
Proof.
  revert n. induction s as [|c s IH]; intros n; simpl.
  - intros H. exists 0%nat, n. by repeat split.
  - destruct (re.in_cls k c) eqn:Hc.
    + destruct (re.star k rest s) as [n'|] eqn:Hs.
      * intros [= <-]. destruct (IH n' eq_refl) as (j & m & -> & Hj & Hall & Hr).
        exists (S j), m. repeat split; [lia | by constructor | done].
      * intros H. exists 0%nat, n. repeat split; [lia | constructor | done].
    + intros H. exists 0%nat, n. repeat split; [lia | constructor | done].
Qed.

Lemma match_here_sound r : forall s n,
  re.match_here r s = Some n ->
  (n <= length s)%nat /\ re.matches r (take n s).
Proof.
  induction r as [|[k|k|k] r IH]; intros s n; cbn [re.match_here].
  - intros [= <-]. split; [lia | constructor].
  - destruct s as [|c s]; [done |]. destruct (re.in_cls k c) eqn:Hc; [|done].
    destruct (re.match_here r s) as [n'|] eqn:Hm; [|done]. intros [= <-].
    destruct (IH _ _ Hm). split; [simpl; lia | by constructor].
  - intros (j & m & -> & Hj & Hall & Hr)%star_sound.
    destruct (IH _ _ Hr) as [Hm Hmat]. rewrite length_drop in Hm.
    split; [lia |]. rewrite <- take_take_drop. by constructor.
  - destruct s as [|c s]; [done |]. destruct (re.in_cls k c) eqn:Hc; [|done].
    destruct (re.star k (re.match_here r) s) as [n'|] eqn:Hm; [|done].
    intros [= <-]. apply star_sound in Hm as (j & m & -> & Hj & Hall & Hr).
    destruct (IH _ _ Hr) as [Hm Hmat]. rewrite length_drop in Hm.
    split; [simpl; lia |]. cbn [take]. rewrite <- take_take_drop.
    by constructor.
Qed.

Lemma star_rest k rest s m :
  rest s = Some m -> is_Some (re.star k rest s).
Proof.
  intros Hr. destruct s as [|c s]; simpl; [by eexists |].
  destruct (re.in_cls k c); [|by eexists].
  destruct (re.star k rest s); by eexists.
Qed.

Lemma star_complete k rest l s m :
  Forall (fun c => re.in_cls k c = true) l -> rest s = Some m ->
  is_Some (re.star k rest (l ++ s)).
Proof.
  intros Hl Hr. induction Hl as [|c l Hc Hl IH]; simpl.
  - by eapply star_rest.
  - rewrite Hc. destruct IH as [n ->]. by eexists.
Qed.

Lemma match_here_complete r l :
  re.matches r l -> forall t, is_Some (re.match_here r (l ++ t)).
Proof.
  induction 1 as [|k r c s Hc _ IH|k r l s Hl _ IH|k r c l s Hc Hl _ IH];
    intros t; cbn [re.match_here].
  - by eexists.
  - simpl. rewrite Hc. destruct (IH t) as [n ->]. by eexists.
  - rewrite <- app_assoc. destruct (IH t) as [n Hn]. by eapply star_complete.
  - simpl. rewrite Hc. rewrite <- app_assoc. destruct (IH t) as [n Hn].
    destruct (star_complete k (re.match_here r) l (s ++ t) n Hl Hn) as [n' ->].
    by eexists.
Qed.

Lemma occurs_match_here r s i n :
  re.occurs r s i n -> is_Some (re.match_here r (drop i s)).
Proof.
  intros [_ Hm]. rewrite <- (take_drop n (drop i s)).
  by apply match_here_complete.
Qed.

Lemma search_from_Some r : forall s pos mt,
  re.search_from r pos s = Some mt ->
  exists i n, re.match_here r (drop i s) = Some n
    /\ (i <= length s)%nat
    /\ (forall j, (j < i)%nat -> re.match_here r (drop j s) = None)
    /\ mt = re.mkMatch (pos + i) (pos + i + n).
Proof.
  induction s as [|c s IH]; intros pos mt; simpl.
  - destruct (re.match_here r []) as [n|] eqn:Hm; [|done]. intros [= <-].
    exists 0%nat, n. repeat split; [done | lia | lia |].
    by rewrite Nat.add_0_r.
  - destruct (re.match_here r (c :: s)) as [n|] eqn:Hm.
    + intros [= <-]. exists 0%nat, n. repeat split; [done | lia | lia |].
      by rewrite Nat.add_0_r.
    + intros (i & n & Hi & Hle & Hmin & ->)%IH. exists (S i), n.
      repeat split; [done | lia | | f_equal; lia].
      intros [|j] Hj; [done |]. apply Hmin. lia.
Qed.

Lemma search_from_None r : forall s pos,
  re.search_from r pos s = None ->
  forall j, re.match_here r (drop j s) = None.
Proof.
  induction s as [|c s IH]; intros pos; simpl.
  - destruct (re.match_here r []) eqn:Hm; [done |]. intros _ j.
    by rewrite drop_nil.
  - destruct (re.match_here r (c :: s)) eqn:Hm; [done |].
    intros H [|j]; [done |]. simpl. by eapply IH.
Qed.

(** [re.search] finds a match, and it is one that starts leftmost. *)
Lemma search_Some r s mt :
  re.search r s = Some mt ->
  (re.m_start mt <= re.m_end mt <= length s)%nat
  /\ re.occurs r s (re.m_start mt) (re.m_end mt - re.m_start mt)
  /\ forall j n, re.occurs r s j n -> (re.m_start mt <= j)%nat.
Proof.
  intros (i & n & Hm & Hi & Hmin & ->)%search_from_Some. simpl.
  destruct (match_here_sound _ _ _ Hm) as [Hn Hmat].
  rewrite length_drop in Hn.
  replace (i + n - i)%nat with n by lia.
  repeat split; [lia | lia | lia | done |].
  intros j n' Hocc. destruct (decide (j < i)%nat) as [Hj|]; [|lia].
  apply occurs_match_here in Hocc as [? Hocc]. rewrite Hmin in Hocc; done.
Qed.

Lemma search_None r s :
  re.search r s = None -> forall j n, ~ re.occurs r s j n.
Proof.
  intros H j n [? Hocc]%occurs_match_here.
  by rewrite (search_from_None _ _ _ H) in Hocc.
Qed.

Lemma search_occurs r s j n :
  re.occurs r s j n -> is_Some (re.search r s).
Proof.
  intros Hocc. destruct (re.search r s) eqn:E; [by eexists |].
  by destruct (search_None _ _ E j n).
Qed.

Lemma span_unique (P : N -> bool) u1 : forall u2 x1 x2 w1 w2,
  Forall (fun c => P c = true) u1 -> Forall (fun c => P c = true) u2 ->
  P x1 = false -> P x2 = false ->
  u1 ++ x1 :: w1 = u2 ++ x2 :: w2 -> u1 = u2.
Proof.
  induction u1 as [|c u1 IH]; intros [|d u2] x1 x2 w1 w2 H1 H2 Hx1 Hx2 Heq;
    simpl in Heq.
  - done.
  - injection Heq as -> _. apply Forall_cons in H2 as [? _]. congruence.
  - injection Heq as -> _. apply Forall_cons in H1 as [? _]. congruence.
  - injection Heq as -> Heq. f_equal.
    apply Forall_cons in H1 as [_ H1]. apply Forall_cons in H2 as [_ H2].
    by apply (IH u2 x1 x2 w1 w2).
Qed.

Lemma matches_unique r :
  re.unambiguous r = true ->
  forall l1 l2 t1 t2,
    re.matches r l1 -> re.matches r l2 -> l1 ++ t1 = l2 ++ t2 -> l1 = l2.
Proof.
  induction r as [|it r IH]; intros Hu l1 l2 t1 t2 H1 H2 Heq.
  - by inversion H1; inversion H2.
  - destruct it as [k|k|k]; simpl in Hu.
    + inversion H1; inversion H2; subst. simpl in Heq.
      injection Heq as -> Heq. f_equal. by eapply IH.
    + destruct r as [|[[a| |b]|?|?] r']; try done.
      apply andb_true_iff in Hu as [Ha%negb_true_iff Hu].
      inversion H1 as [| |? ? u1 s1 Hu1 Hs1|]; subst.
      inversion H2 as [| |? ? u2 s2 Hu2 Hs2|]; subst.
      inversion Hs1 as [|? ? c1 s1' Hc1 Hs1'| |]; subst.
      inversion Hs2 as [|? ? c2 s2' Hc2 Hs2'| |]; subst.
      simpl in Hc1, Hc2. apply N.eqb_eq in Hc1 as ->, Hc2 as ->.
      rewrite <- !app_assoc in Heq. simpl in Heq.
      assert (u1 = u2) as -> by (by eapply (span_unique (re.in_cls k))).
      apply app_inv_head in Heq. f_equal.
      by eapply (IH Hu _ _ t1 t2).
    + destruct r as [|[[a| |b]|?|?] r']; try done.
      apply andb_true_iff in Hu as [Ha%negb_true_iff Hu].
      inversion H1 as [| | |? ? d1 u1 s1 Hd1 Hu1 Hs1]; subst.
      inversion H2 as [| | |? ? d2 u2 s2 Hd2 Hu2 Hs2]; subst.
      inversion Hs1 as [|? ? c1 s1' Hc1 Hs1'| |]; subst.
      inversion Hs2 as [|? ? c2 s2' Hc2 Hs2'| |]; subst.
      simpl in Hc1, Hc2. apply N.eqb_eq in Hc1 as ->, Hc2 as ->.
      simpl in Heq. injection Heq as -> Heq.
      rewrite <- !app_assoc in Heq. simpl in Heq.
      assert (u1 = u2) as -> by (by eapply (span_unique (re.in_cls k))).
      apply app_inv_head in Heq. do 2 f_equal.
      by eapply (IH Hu _ _ t1 t2).
Qed.

(** For an unambiguous expression, the start of a match fixes its end. *)
Lemma occurs_unique r s i n1 n2 :
  re.unambiguous r = true ->
  re.occurs r s i n1 -> re.occurs r s i n2 -> n1 = n2.
Proof.
  intros Hu [Hn1 H1] [Hn2 H2].
  assert (E : take n1 (drop i s) = take n2 (drop i s)).
  { eapply (matches_unique r Hu _ _ (drop n1 (drop i s)) (drop n2 (drop i s)));
      [done | done |]. by rewrite !take_drop. }
  apply (f_equal length) in E.
  rewrite !length_take_le in E by (rewrite length_drop; lia). done.
Qed.

Lemma pattern_unambiguous : re.unambiguous pattern = true.
Proof. reflexivity. Qed.

(** ** Reasoning about computations *)

Lemma wp_run {A} (m : M A) Q w o w' : m w = (o, w') -> wp m Q w -> Q o w'.
Proof. unfold wp. by intros ->. Qed.

Lemma wp_of_run {A} (m : M A) (Q : outcome A -> world -> Prop) w o w' :
  m w = (o, w') -> Q o w' -> wp m Q w.
Proof. unfold wp. by intros ->. Qed.

Lemma wp_eq {A} (m : M A) w x : wp m (fun o w' => (o, w') = x) w -> m w = x.
Proof. unfold wp. by destruct (m w). Qed.

Lemma wp_ex {A B} (m : M A) w (f : B -> outcome A * world) :
  wp m (fun o w' => exists b, (o, w') = f b) w -> exists b, m w = f b.
Proof. unfold wp. by destruct (m w). Qed.

Lemma wp_mono {A} (m : M A) (Q Q' : outcome A -> world -> Prop) w :
  (forall o w', Q o w' -> Q' o w') -> wp m Q w -> wp m Q' w.
Proof. unfold wp. auto. Qed.

Lemma wp_ret {A} (a : A) Q w : Q (Ret a) w -> wp (ret a) Q w.
Proof. done. Qed.

Lemma wp_raise {A} e (Q : outcome A -> world -> Prop) w :
  Q (Raise e) w -> wp (raise e) Q w.
Proof. done. Qed.

Lemma wp_bind {A B} (m : M A) (k : A -> M B) Q w :
  wp m (fun o w' => match o with
                    | Ret a => wp (k a) Q w'
                    | Raise e => Q (Raise e) w'
                    end) w ->
  wp (bind m k) Q w.
Proof. unfold wp, bind. by destruct (m w) as [[a|e] w']. Qed.

Lemma wp_try_except {A} (m : M A) h Q w :
  wp m (fun o w' => match o with
                    | Ret a => Q (Ret a) w'
                    | Raise e => wp (h e) Q w'
                    end) w ->
  wp (try_except m h) Q w.
Proof. unfold wp, try_except. by destruct (m w) as [[a|e] w']. Qed.

Lemma wp_attempt {A} (m : M A) Q w :
  wp m (fun o w' => match o with
                    | Ret a => Q (Ret (inr a)) w'
                    | Raise e => Q (Ret (inl e)) w'
                    end) w ->
  wp (attempt m) Q w.
Proof. unfold wp, attempt. by destruct (m w) as [[a|e] w']. Qed.

Lemma wp_print l msg Q w : Q (Ret tt) (logged l msg w) -> wp (print l msg) Q w.
Proof. done. Qed.

Lemma wp_path_exists p Q w :
  Q (Ret (bool_decide (is_Some (w_fs w !! p)))) w -> wp (os.path_exists p) Q w.
Proof. done. Qed.

Lemma wp_path_isdir p Q w :
  Q (Ret match w_fs w !! p with
         | Some (Entry Dir _ _) => true
         | _ => false
         end) w ->
  wp (os.path_isdir p) Q w.
Proof. done. Qed.

Lemma wp_stat p Q w :
  match w_fs w !! p with
  | Some e => Q (Ret (st_mode e)) w
  | None => Q (Raise (FileNotFoundError p)) w
  end -> wp (os.stat p) Q w.
Proof. unfold wp, os.stat. by destruct (w_fs w !! p). Qed.

Lemma wp_chmod p mode Q w :
  match w_fs w !! p with
  | Some e =>
    if e_owned e
    then Q (Ret tt)
           (with_fs (<[p := Entry (e_node e) (stat.S_IMODE mode) true]> (w_fs w)) w)
    else Q (Raise (PermissionError 1 p)) w
  | None => Q (Raise (FileNotFoundError p)) w
  end -> wp (os.chmod p mode) Q w.
Proof.
  unfold wp, os.chmod. destruct (w_fs w !! p) as [e|]; [|done].
  by destruct (e_owned e).
Qed.

Lemma wp_utime p Q w :
  match w_fs w !! p with
  | Some e =>
    if e_owned e then Q (Ret tt) w else Q (Raise (PermissionError 1 p)) w
  | None => Q (Raise (FileNotFoundError p)) w
  end -> wp (os.utime p) Q w.
Proof.
  unfold wp, os.utime. destruct (w_fs w !! p) as [e|]; [|done].
  by destruct (e_owned e).
Qed.

Lemma wp_read_file p Q w :
  match w_fs w !! p with
  | Some e =>
    match e_node e with
    | Dir => Q (Raise (IsADirectoryError p)) w
    | Reg bs =>
      if may_read e then Q (Ret bs) w else Q (Raise (PermissionError 13 p)) w
    end
  | None => Q (Raise (FileNotFoundError p)) w
  end -> wp (read_file p) Q w.
Proof.
  unfold wp, read_file. destruct (w_fs w !! p) as [e|]; [|done].
  destruct (e_node e); [done |]. by destruct (may_read e).
Qed.

Lemma wp_store p mode owned bs avail Q w :
  (if size bs <=? avail
   then Q (Ret tt)
          (World (<[p := Entry (Reg bs) mode owned]> (w_fs w))
                 (avail - size bs) (w_console w))
   else Q (Raise (NoSpaceError p))
          (World (<[p := Entry (Reg (take (N.to_nat avail) bs)) mode owned]>
                    (w_fs w)) 0 (w_console w))) ->
  wp (store p mode owned bs avail) Q w.
Proof. unfold wp, store. by destruct (size bs <=? avail). Qed.

Lemma S_IMODE_st_mode e : stat.S_IMODE (st_mode e) = st_perms e.
Proof.
  unfold st_mode, st_perms, stat.S_IMODE.
  rewrite N.land_lor_distr_l, <- N.land_assoc.
  by destruct (e_node e).
Qed.

Lemma exists_Some (e : entry) : bool_decide (is_Some (Some e)) = true.
Proof. by apply bool_decide_eq_true_2. Qed.

Lemma exists_None : bool_decide (is_Some (@None entry)) = false.
Proof. apply bool_decide_eq_false_2. by intros [? ?]. Qed.

Ltac wp_pure :=
  cbv beta iota zeta;
  cbn [w_fs w_free w_console logged with_fs fst snd negb
       e_node e_mode e_owned];
  rewrite ?exists_Some, ?exists_None;
  cbn [andb orb negb].

Ltac wp_step :=
  lazymatch goal with
  | |- wp (bind _ _) _ _ => apply wp_bind
  | |- wp (try_except _ _) _ _ => apply wp_try_except
  | |- wp (attempt _) _ _ => apply wp_attempt
  | |- wp (ret _) _ _ => apply wp_ret
  | |- wp (raise _) _ _ => apply wp_raise
  | |- wp (print _ _) _ _ => apply wp_print
  | |- wp (print_info _) _ _ => apply wp_print
  | |- wp (print_success _) _ _ => apply wp_print
  | |- wp (print_error _) _ _ => apply wp_print
  | |- wp (print_warning _) _ _ => apply wp_print
  | |- wp (os.path_exists _) _ _ => apply wp_path_exists
  | |- wp (os.path_isdir _) _ _ => apply wp_path_isdir
  | |- wp (os.stat _) _ _ => apply wp_stat
  | |- wp (os.chmod _ _) _ _ => apply wp_chmod
  | |- wp (os.utime _) _ _ => apply wp_utime
  | |- wp (read_file _) _ _ => apply wp_read_file
  | |- wp (store _ _ _ _ _) _ _ => apply wp_store
  end; wp_pure.

Ltac wp_steps := wp_pure; repeat wp_step.

Lemma ensure_run p w :
  _ensure_write_permissions p w =
  match w_fs w !! p with
  | Some e =>
    if lacks_write_flag e then
      if e_owned e then
        (Ret true,
         logged INFO ("已为文件添加写权限: " +:+ pathlib.str p)
           (with_fs (<[p := add_write_flag e]> (w_fs w)) w))
      else
        (Ret false,
         logged WARNING
           ("修改文件权限失败: " +:+ exn_str (PermissionError 1 p)) w)
    else (Ret true, w)
  | None => (Ret true, w)
  end.
Proof.
  apply wp_eq. unfold _ensure_write_permissions, on_windows.
  wp_steps. destruct (w_fs w !! p) as [e|] eqn:Hp; wp_pure; [|by wp_steps].
  wp_steps. rewrite Hp, S_IMODE_st_mode. fold (lacks_write_flag e).
  destruct (lacks_write_flag e); [|by wp_steps].
  wp_steps. rewrite Hp. destruct (e_owned e) eqn:Ho; wp_steps; [done |].
  rewrite Hp, Ho. by wp_steps.
Qed.

(** ** Names of backups *)

Lemma substring_length n : forall m s,
  (n + m <= String.length s)%nat -> String.length (substring n m s) = m.
Proof.
  induction n as [|n IH]; intros m s.
  - revert s. induction m as [|m IHm]; intros [|c s]; simpl; try done; try lia.
    intros H. f_equal. apply IHm. lia.
  - destruct s as [|c s]; simpl; [lia |]. intros H. apply IH. lia.
Qed.

Lemma rfind_lt c s i : pathlib.rfind c s = Some i -> (i < String.length s)%nat.
Proof.
  revert i. induction s as [|a s IH]; intros i; simpl; [done |].
  destruct (pathlib.rfind c s) as [j|].
  - intros [= <-]. specialize (IH j eq_refl). lia.
  - destruct (Ascii.eqb a c); [|done]. intros [= <-]. lia.
Qed.

Lemma stem_suffix_length p :
  (String.length (pathlib.stem p) + String.length (pathlib.suffix p))%nat
  = String.length (pathlib.name p).
Proof.
  unfold pathlib.stem, pathlib.suffix, pathlib.suffix_index.
  destruct (pathlib.rfind "." (pathlib.name p)) as [i|] eqn:Hi; [|simpl; lia].
  apply rfind_lt in Hi.
  destruct ((0 <? i)%nat && (i <? String.length (pathlib.name p) - 1)%nat);
    [|simpl; lia].
  rewrite !substring_length by lia. lia.
Qed.

Lemma string_app_length s t :
  String.length (s +:+ t) = (String.length s + String.length t)%nat.
Proof. induction s as [|c s IH]; simpl; [done | by rewrite IH]. Qed.

Lemma backup_name_ne p :
  pathlib.stem p +:+ "_ori" +:+ pathlib.suffix p <> pathlib.name p.
Proof.
  intros H. apply (f_equal String.length) in H.
  rewrite !string_app_length in H. pose proof (stem_suffix_length p).
  simpl in H. lia.
Qed.

Lemma with_name_Some p n b :
  pathlib.with_name p n = Some b ->
  p <> [] /\ b = removelast p ++ [n] /\ length b = length p.
Proof.
  unfold pathlib.with_name, pathlib.name.
  destruct (String.eqb_spec (default "" (last p)) ""); [done |].
  intros [= <-]. destruct (decide (p = [])) as [->|Hp]; [done |].
  split; [done |]. split; [done |].
  rewrite (app_removelast_last "" Hp) at 2.
  by rewrite !length_app.
Qed.

Lemma with_name_ne p n b :
  pathlib.with_name p n = Some b -> n <> pathlib.name p -> b <> p.
Proof.
  intros (Hp & -> & _)%with_name_Some Hn E. apply Hn.
  unfold pathlib.name. rewrite <- E at 1. by rewrite last_snoc.
Qed.

(** The backup is another path than its target, and than anything inside
    the target. *)
Lemma backup_path_ne p b :
  backup_of p = Some b ->
  b <> p /\ forall x, b <> p ++ [x].
Proof.
  intros H. split; [eapply with_name_ne; [done | apply backup_name_ne] |].
  apply with_name_Some in H as (_ & _ & Hlen). intros x E.
  apply (f_equal length) in E. rewrite length_app in E. simpl in E. lia.
Qed.

(** ** What the file operations do *)

Lemma wp_write_file p bs Q w :
  match w_fs w !! p with
  | Some e =>
    match e_node e with
    | Dir => Q (Raise (IsADirectoryError p)) w
    | Reg old =>
      if may_write e
      then wp (store p (e_mode e) (e_owned e) bs (w_free w + size old)) Q w
      else Q (Raise (PermissionError 13 p)) w
    end
  | None =>
    match p with
    | [] => Q (Raise (FileNotFoundError p)) w
    | _ :: _ =>
      match w_fs w !! removelast p with
      | None => Q (Raise (FileNotFoundError p)) w
      | Some d =>
        match e_node d with
        | Reg _ => Q (Raise (NotADirectoryError p)) w
        | Dir =>
          if may_write d then wp (store p 420 true bs (w_free w)) Q w
          else Q (Raise (PermissionError 13 p)) w
        end
      end
    end
  end -> wp (write_file p bs) Q w.
Proof.
  unfold wp, write_file. destruct (w_fs w !! p) as [e|].
  - destruct (e_node e); [done |]. by destruct (may_write e).
  - destruct p; [done |]. destruct (w_fs w !! removelast _) as [d|]; [|done].
    destruct (e_node d); [|done]. by destruct (may_write d).
Qed.

(** Writing touches one path and leaves a file a file; when it succeeds the
    file holds the bytes and keeps the mode and the owner it had. *)
Lemma write_file_spec p bs w : wp (write_file p bs) (write_post p bs w) w.
Proof.
  apply wp_write_file.
  assert (Hstore : forall mode owned avail,
    (forall e, w_fs w !! p = Some e -> mode = e_mode e /\ owned = e_owned e) ->
    wp (store p mode owned bs avail) (write_post p bs w) w).
  { intros mode owned avail Hsome. apply wp_store. unfold write_post.
    destruct (size bs <=? avail); simpl;
      (split; [done |]); (split; [intros q Hq; by rewrite lookup_insert_ne |]);
      (split; [intros; eexists; by rewrite lookup_insert_eq |]); [|done].
    eexists. rewrite lookup_insert_eq. split; [done |]. simpl.
    split; [done |]. intros e He. by destruct (Hsome e He) as [-> ->]. }
  destruct (w_fs w !! p) as [e|] eqn:Hp.
  - destruct (e_node e) eqn:Hn.
    { unfold write_post. rewrite Hp. repeat split; try done.
      intros ? [= <-] ?. by exists e. }
    destruct (may_write e); [apply Hstore; by intros ? [= <-] |].
    unfold write_post. rewrite Hp. repeat split; try done.
    intros ? [= <-] ?. by exists e.
  - destruct p; [by unfold write_post; rewrite Hp |].
    destruct (w_fs w !! removelast _) as [d|];
      [|by unfold write_post; rewrite Hp].
    destruct (e_node d); [|by unfold write_post; rewrite Hp].
    destruct (may_write d); [|by unfold write_post; rewrite Hp].
    apply Hstore; done.
Qed.

Ltac wp_use H :=
  eapply wp_mono; [|apply H]; cbv beta.

Lemma st_perms_idemp e : stat.S_IMODE (st_perms e) = st_perms e.
Proof.
  unfold st_perms, stat.S_IMODE. by rewrite <- N.land_assoc.
Qed.

(** [copy2] touches its destination only; when it succeeds the destination
    is a file of the user's with the bytes and the permission bits of the
    source. *)
Lemma copy2_spec src dst w :
  wp (shutil.copy2 src dst)
     (fun o w' =>
        let d := copy2_dst w src dst in
        w_console w' = w_console w
        /\ (forall q, q <> d -> w_fs w' !! q = w_fs w !! q)
        /\ match o with
           | Ret d' =>
             d' = d /\ src <> d
             /\ exists e data, w_fs w !! src = Some e /\ e_node e = Reg data
                  /\ may_read e = true
                  /\ w_fs w' !! d = Some (Entry (Reg data) (st_perms e) true)
           | Raise _ => True
           end) w.
Proof.
  unfold shutil.copy2, shutil.copyfile, shutil.copystat. cbv zeta. wp_steps.
  fold (copy2_dst w src dst). set (d := copy2_dst w src dst).
  assert (Hd : (if match w_fs w !! dst with
                   | Some (Entry Dir _ _) => true
                   | _ => false
                   end then dst ++ [pathlib.name src] else dst) = d).
  { unfold d, copy2_dst. destruct (w_fs w !! dst) as [[[|?] ? ?]|]; done. }
  rewrite !Hd. clearbody d. clear Hd.
  destruct (w_fs w !! src) as [e|] eqn:Hsrc; wp_pure;
    [|wp_steps; rewrite Hsrc; done].
  destruct (bool_decide (src = d)) eqn:Hsame; [by wp_steps |].
  apply bool_decide_eq_false in Hsame.
  wp_steps. rewrite Hsrc. destruct (e_node e) as [|data] eqn:Hnode; [done |].
  destruct (may_read e) eqn:Hread; [|done].
  wp_use write_file_spec. intros [[]|ex] w1 (Hcon & Hframe & _ & Hres); [|done].
  destruct Hres as (e1 & Hd1 & Hn1 & _).
  wp_steps. rewrite Hframe, Hsrc by done.
  wp_steps. rewrite Hd1. destruct (e_owned e1) eqn:Ho; [|by wp_pure].
  wp_steps. rewrite Hd1, Ho. wp_steps.
  split; [done |]. split; [intros q Hq; by rewrite lookup_insert_ne, Hframe |].
  split; [done |]. split; [done |]. exists e, data.
  rewrite lookup_insert_eq, Hn1, S_IMODE_st_mode, st_perms_idemp. done.
Qed.

Lemma may_read_add_write_flag e :
  e_owned e = true -> may_read e = true -> may_read (add_write_flag e) = true.
Proof.
  unfold may_read, add_write_flag, st_perms, stat.S_IMODE. simpl.
  intros -> H. rewrite negb_true_iff, N.eqb_neq in *. intros E. apply H.
  rewrite N.land_lor_distr_l, <- !N.land_assoc in E. simpl in E.
  rewrite N.land_lor_distr_l, <- !N.land_assoc in E. simpl in E.
  by rewrite N.lor_0_r in E.
Qed.

(** [_ensure_write_permissions] touches the mode of its file, nothing
    else, and never takes read access away. *)
Lemma ensure_spec p w :
  wp (_ensure_write_permissions p)
     (fun o w' =>
        exists ok, o = Ret ok
        /\ (forall q, q <> p -> w_fs w' !! q = w_fs w !! q)
        /\ match w_fs w !! p with
           | Some e =>
             exists e', w_fs w' !! p = Some e' /\ e_node e' = e_node e
               /\ (may_read e = true -> may_read e' = true)
               /\ (ok = false -> e' = e)
           | None => w_fs w' !! p = None
           end) w.
Proof.
  unfold wp. rewrite ensure_run.
  destruct (w_fs w !! p) as [e|] eqn:Hp; [|by exists true].
  destruct (lacks_write_flag e); [|exists true; eauto 10].
  destruct (e_owned e) eqn:Ho; simpl.
  - exists true. split; [done |].
    split; [intros q Hq; by rewrite lookup_insert_ne |].
    exists (add_write_flag e). rewrite lookup_insert_eq.
    repeat split; [by apply may_read_add_write_flag | done].
  - exists false. eauto 10.
Qed.

Lemma wp_backup_path_of p Q w :
  match backup_of p with
  | Some b => Q (Ret b) w
  | None => Q (Raise (ValueError (quoted p +:+ " has an empty name"))) w
  end -> wp (backup_path_of p) Q w.
Proof. unfold wp, backup_path_of. by destruct (backup_of p). Qed.

(** [_create_backup] leaves a backup that is there alone, and otherwise
    touches the backup path only; a backup it makes holds the bytes of the
    file. *)
Lemma create_backup_spec p w :
  wp (_create_backup p)
     (fun o w' =>
        exists ok bp, o = Ret (ok, bp)
        /\ match backup_of p with
           | None => ok = false /\ w_fs w' = w_fs w
           | Some b =>
             (forall q, q <> b -> w_fs w' !! q = w_fs w !! q)
             /\ match w_fs w !! b with
                | Some eb => ok = true /\ bp = b /\ w_fs w' !! b = Some eb
                | None =>
                  ok = true -> bp = b
                  /\ exists e data, w_fs w !! p = Some e /\ e_node e = Reg data
                       /\ w_fs w' !! b = Some (Entry (Reg data) (st_perms e) true)
                end
           end) w.
Proof.
  unfold _create_backup. wp_steps. apply wp_backup_path_of.
  destruct (backup_of p) as [b|] eqn:Hb; [|wp_steps; by exists false, []].
  wp_steps. destruct (w_fs w !! b) as [eb|] eqn:Heb; wp_pure.
  { wp_steps. exists true, b. rewrite Heb. done. }
  wp_steps. wp_use copy2_spec. unfold copy2_dst. rewrite Heb.
  intros [d|ex] w1 (Hcon & Hframe & Hres).
  - destruct Hres as (-> & Hne & e & data & Hp & Hnode & Hread & Hb1).
    wp_steps. exists true, b. split; [done |]. split; [done |].
    intros _. split; [done |]. by exists e, data.
  - wp_steps. exists false, []. split; [done |]. split; [done |]. done.
Qed.

Lemma create_backup_existing p b eb w :
  backup_of p = Some b -> w_fs w !! b = Some eb ->
  _create_backup p w
  = (Ret (true, b), logged WARNING ("备份文件已存在: " +:+ pathlib.str b) w).
Proof.
  intros Hb Heb. apply wp_eq. unfold _create_backup. wp_steps.
  apply wp_backup_path_of. rewrite Hb. wp_steps. rewrite Heb. by wp_steps.
Qed.


Lemma wp_read_text p Q w :
  match read_text w p with
  | Some c => Q (Ret c) w
  | None => forall e, Q (Raise e) w
  end -> wp (open_read_text p) Q w.
Proof.
  unfold read_text, open_read_text. intros H. wp_steps.
  destruct (w_fs w !! p) as [e|]; [|done].
  destruct (e_node e) as [|data]; [done |].
  destruct (may_read e); [|done].
  destruct (utf8.decode data) as [raw|]; simpl in H; by wp_steps.
Qed.

Lemma open_read_text_Ret p w c w' :
  open_read_text p w = (Ret c, w') <-> w' = w /\ read_text w p = Some c.
Proof.
  unfold read_text, open_read_text, bind, read_file.
  destruct (w_fs w !! p) as [e|]; [|split; [done | by intros [_ ?]]].
  destruct (e_node e) as [|data]; [split; [done | by intros [_ ?]] |].
  destruct (may_read e); [|split; [done | by intros [_ ?]]].
  destruct (utf8.decode data) as [raw|]; simpl;
    [|split; [done | by intros [_ ?]]].
  unfold ret. split; [by intros [= <- <-] | by intros [-> [= <-]]].
Qed.

Lemma read_text_Some w p c :
  read_text w p = Some c ->
  exists e data raw, w_fs w !! p = Some e /\ e_node e = Reg data
    /\ may_read e = true /\ utf8.decode data = Some raw
    /\ c = universal_newlines raw.
Proof.
  unfold read_text. destruct (w_fs w !! p) as [e|]; [|done].
  destruct (e_node e) as [|data] eqn:Hn; [done |].
  destruct (may_read e) eqn:Hr; [|done].
  destruct (utf8.decode data) as [raw|] eqn:Hd; [|done].
  intros [= <-]. by exists e, data, raw.
Qed.

(** What is read from a file is made of scalar values and has no CR. *)
Lemma read_text_wf w p c :
  read_text w p = Some c -> forallb utf8.scalar c = true /\ no_cr c = true.
Proof.
  intros (e & data & raw & _ & _ & _ & Hd & ->)%read_text_Some.
  split; [|apply universal_newlines_no_cr].
  apply decode_scalar in Hd. clear -Hd.
  assert (H : forall n s, (length s <= n)%nat -> forallb utf8.scalar s = true ->
              forallb utf8.scalar (universal_newlines s) = true).
  { induction n as [|n IH]; intros [|c s] Hn; try done; [simpl in Hn; lia |].
    rewrite universal_newlines_cons. simpl in *.
    rewrite andb_true_iff. intros [Hc Hs].
    destruct (c =? 13); simpl.
    - apply IH; [pose proof (skip_lf_length s); lia |].
      destruct s as [|d s]; [done |]. simpl in *.
      destruct (d =? 10); [|done]. by apply andb_true_iff in Hs as [_ ?].
    - rewrite Hc. apply IH; [lia | done]. }
  by apply (H (length raw)).
Qed.

Lemma open_write_text_spec p s w :
  wp (open_write_text p s) (write_post p (utf8.encode s) w) w.
Proof.
  unfold open_write_text. destruct (forallb utf8.scalar s).
  - apply write_file_spec.
  - wp_steps. wp_use write_file_spec. unfold write_post.
    intros [[]|e] w' (? & ? & ? & _); by wp_steps.
Qed.

(** ** The early exits of [apply_patch] *)

Lemma apply_patch_missing p m w :
  w_fs w !! p = None ->
  apply_patch p m w = (Ret (failed ("文件不存在: " +:+ pathlib.str p)), w).
Proof.
  intros Hp. apply wp_eq. unfold apply_patch. wp_steps. rewrite Hp. wp_pure.
  by wp_steps.
Qed.

Lemma apply_patch_unreadable p m w :
  is_Some (w_fs w !! p) -> read_text w p = None ->
  exists e,
    apply_patch p m w
    = (Ret (failed ("读取文件失败: " +:+ exn_str e)), started p m w).
Proof.
  intros [e0 Hp] Hr. apply wp_ex. unfold apply_patch. wp_steps.
  rewrite Hp. wp_steps. apply wp_read_text. fold (started p m w).
  change (read_text (started p m w) p) with (read_text w p). rewrite Hr.
  intros e. wp_steps. by exists e.
Qed.

Lemma apply_patch_already_patched p m w c :
  read_text w p = Some c -> _is_already_patched c = true ->
  apply_patch p m w
  = (Ret (failed "文件已被补丁，跳过操作"), started p m w).
Proof.
  intros Hr Hpat. pose proof Hr as (e & ? & ? & Hp & _)%read_text_Some.
  apply wp_eq. unfold apply_patch. wp_steps. rewrite Hp. wp_steps.
  apply wp_read_text. fold (started p m w).
  change (read_text (started p m w) p) with (read_text w p). rewrite Hr.
  wp_pure. rewrite Hpat. by wp_steps.
Qed.

Lemma apply_patch_no_anchor p m w c :
  read_text w p = Some c -> _is_already_patched c = false ->
  _find_callapi_function c = None ->
  apply_patch p m w
  = (Ret (failed "未找到async callApi函数"), started p m w).
Proof.
  intros Hr Hpat Hfind. pose proof Hr as (e & ? & ? & Hp & _)%read_text_Some.
  apply wp_eq. unfold apply_patch. wp_steps. rewrite Hp. wp_steps.
  apply wp_read_text. fold (started p m w).
  change (read_text (started p m w) p) with (read_text w p). rewrite Hr.
  wp_pure. rewrite Hpat, Hfind. by wp_steps.
Qed.

(** ** [apply_patch] once the anchor is found *)

Lemma may_read_ext e e' :
  e_mode e' = e_mode e -> e_owned e' = e_owned e -> may_read e' = may_read e.
Proof. unfold may_read. by intros -> ->. Qed.

Lemma apply_patch_commit p m w c mt :
  read_text w p = Some c -> _is_already_patched c = false ->
  _find_callapi_function c = Some mt ->
  wp (apply_patch p m)
     (fun o w' =>
        exists r, o = Ret r
        /\ (forall b eb, backup_of p = Some b -> w_fs w !! b = Some eb ->
              w_fs w' !! b = Some eb)
        /\ ((exists b e',
               r = mkPatchResult true "补丁应用成功"
                     (pathlib.str p) (pathlib.str b)
               /\ backup_of p = Some b
               /\ w_fs w' !! p = Some e'
               /\ e_node e'
                  = Reg (utf8.encode (patched_content c m (re.m_end mt)))
               /\ may_read e' = true
               /\ (w_fs w !! b = None ->
                   exists eb, w_fs w' !! b = Some eb
                     /\ Some (e_node eb) = e_node <$> w_fs w !! p))
            \/ r = failed "无法获取文件写权限"
            \/ r = failed "创建备份失败"
            \/ exists e, r = failed ("写入补丁文件失败: " +:+ exn_str e))) w.
Proof.
  intros Hr Hpat Hfind.
  pose proof Hr as (e & data & raw & Hp & Hnode & Hread & _)%read_text_Some.
  unfold apply_patch. wp_steps. rewrite Hp. wp_steps.
  apply wp_read_text. fold (started p m w).
  change (read_text (started p m w) p) with (read_text w p). rewrite Hr.
  wp_pure. rewrite Hpat, Hfind. wp_steps.
  wp_use ensure_spec. simpl. rewrite Hp.
  intros o w1 (ok & -> & Hf1 & e1 & Hp1 & Hn1 & Hr1 & _). wp_pure.
  destruct ok; wp_pure; [|wp_steps; eexists; split; [done |]; split;
    [|by right; left]].
  2:{ intros b eb Hb Heb. destruct (backup_path_ne _ _ Hb) as [Hne _].
      by rewrite Hf1. }
  wp_steps. wp_use create_backup_spec.
  intros o w2 (bok & bp & -> & Hbk). wp_pure.
  destruct (backup_of p) as [b|] eqn:Hb.
  2:{ destruct Hbk as [-> _]. wp_steps. eexists. split; [done |].
      split; [done |]. by right; right; left. }
  destruct (backup_path_ne _ _ Hb) as [Hne Hne'].
  destruct Hbk as [Hf2 Hbk].
  assert (Hkept2 : forall eb, w_fs w !! b = Some eb -> w_fs w2 !! b = Some eb).
  { intros eb Heb. rewrite Hf1 in Hbk by done. rewrite Heb in Hbk. tauto. }
  destruct bok; wp_pure.
  2:{ wp_steps. eexists. split; [done |]. split; [|by right; right; left].
      intros ? eb [= <-]. apply Hkept2. }
  assert (bp = b /\ (w_fs w !! b = None ->
            exists eb, w_fs w2 !! b = Some eb /\ e_node eb = e_node e))
    as [-> Hnew].
  { rewrite Hf1 in Hbk by done. destruct (w_fs w !! b) as [eb|].
    - destruct Hbk as (_ & -> & _). done.
    - destruct (Hbk eq_refl) as (-> & e1' & data' & Hp1' & Hn1' & Hb2).
      split; [done |]. intros _. eexists. split; [done |]. simpl.
      rewrite Hp1 in Hp1'. injection Hp1' as <-. congruence. }
  wp_steps. wp_use open_write_text_spec.
  intros [[]|ex] w3 (Hcon & Hf3 & _ & Hres).
  - destruct Hres as (e3 & Hp3 & Hn3 & Hsame).
    destruct (Hsame e1) as [Hm3 Ho3]; [by rewrite Hf2 |].
    wp_steps. eexists. split; [done |]. split.
    { intros ? eb [= <-] Heb. rewrite Hf3 by done. by apply Hkept2. }
    left. exists b, e3. split; [done |]. split; [done |]. split; [done |].
    split; [done |]. split.
    { rewrite (may_read_ext e1) by done. by apply Hr1. }
    intros Hnone. destruct (Hnew Hnone) as (eb & Hb2 & Hnb).
    exists eb. rewrite Hf3 by done. split; [done |]. by rewrite Hnb.
  - wp_steps. unfold restore_after_failed_write. wp_steps.
    wp_use ensure_spec. simpl.
    intros o w4 (ok & -> & Hf4 & _). wp_steps. wp_use copy2_spec.
    assert (Hdst : copy2_dst w4 b p <> b).
    { unfold copy2_dst. by destruct (w_fs w4 !! p) as [[[|?] ? ?]|]. }
    assert (Hkept : forall w5, (forall q, q <> copy2_dst w4 b p ->
                       w_fs w5 !! q = w_fs w4 !! q) ->
              forall b0 eb, Some b = Some b0 -> w_fs w !! b0 = Some eb ->
                w_fs w5 !! b0 = Some eb).
    { intros w5 Hf5 ? eb [= <-] Heb.
      rewrite Hf5, Hf4, Hf3 by done. by apply Hkept2. }
    intros [d|ex'] w5 (_ & Hf5 & _); wp_steps;
      (eexists; split; [done |]; split; [by apply Hkept | eauto 10]).
Qed.

(** ** [apply_patch] as a whole *)

Lemma failed_message_ne msg : msg <> "" -> message (failed msg) <> "".
Proof. done. Qed.

(** [apply_patch] returns: a success, or one of the seven failures; and it
    leaves an existing backup as it is. *)
Lemma apply_patch_returns p m w :
  exists r w', apply_patch p m w = (Ret r, w')
    /\ ((exists b, r = mkPatchResult true "补丁应用成功"
                         (pathlib.str p) (pathlib.str b))
        \/ exists msg, r = failed msg /\ apply_failure p msg)
    /\ (forall b eb, backup_of p = Some b -> w_fs w !! b = Some eb ->
          w_fs w' !! b = Some eb).
Proof.
  destruct (w_fs w !! p) as [e|] eqn:Hp.
  2:{ eexists _, _. split; [by apply apply_patch_missing |].
      split; [right; eexists; split; [done | constructor] | done]. }
  destruct (read_text w p) as [c|] eqn:Hr.
  2:{ destruct (apply_patch_unreadable p m w) as [ex H]; [done | done |].
      eexists _, _. split; [exact H |].
      split; [right; eexists; split; [done | constructor] | done]. }
  destruct (_is_already_patched c) eqn:Hpat.
  { eexists _, _. split; [by eapply apply_patch_already_patched |].
    split; [right; eexists; split; [done | constructor] | done]. }
  destruct (_find_callapi_function c) as [mt|] eqn:Hfind.
  2:{ eexists _, _. split; [by eapply apply_patch_no_anchor |].
      split; [right; eexists; split; [done | constructor] | done]. }
  pose proof (apply_patch_commit p m w c mt Hr Hpat Hfind) as H.
  unfold wp in H. destruct (apply_patch p m w) as [o w']. simpl in H.
  destruct H as (r & -> & Hkept & Hcases). exists r, w'.
  split; [done |]. split; [|done].
  destruct Hcases as [(b & e' & -> & _)|[->|[->|[ex ->]]]];
    [left; by exists b | right; eexists; split; [done | constructor] ..].
Qed.

(** What a successful [apply_patch] has done. *)
Lemma apply_patch_success p m w r w' :
  apply_patch p m w = (Ret r, w') -> success r = true ->
  exists c mt b e',
    read_text w p = Some c /\ _is_already_patched c = false
    /\ _find_callapi_function c = Some mt
    /\ backup_of p = Some b
    /\ w_fs w' !! p = Some e'
    /\ e_node e' = Reg (utf8.encode (patched_content c m (re.m_end mt)))
    /\ may_read e' = true
    /\ (w_fs w !! b = None ->
        exists eb, w_fs w' !! b = Some eb
          /\ Some (e_node eb) = e_node <$> w_fs w !! p).
Proof.
  intros Hrun Hok.
  destruct (w_fs w !! p) as [e|] eqn:Hp.
  2:{ rewrite apply_patch_missing in Hrun by done.
      injection Hrun as <- <-. done. }
  destruct (read_text w p) as [c|] eqn:Hr.
  2:{ destruct (apply_patch_unreadable p m w) as [ex H]; [done | done |].
      rewrite H in Hrun. injection Hrun as <- <-. done. }
  destruct (_is_already_patched c) eqn:Hpat.
  { rewrite (apply_patch_already_patched p m w c) in Hrun by done.
    injection Hrun as <- <-. done. }
  destruct (_find_callapi_function c) as [mt|] eqn:Hfind.
  2:{ rewrite (apply_patch_no_anchor p m w c) in Hrun by done.
      injection Hrun as <- <-. done. }
  pose proof (apply_patch_commit p m w c mt Hr Hpat Hfind) as H.
  unfold wp in H. rewrite Hrun in H. simpl in H.
  destruct H as (r' & [= <-] & _ & Hcases).
  destruct Hcases as [(b & e' & -> & H)|[->|[->|[ex ->]]]]; try done.
  exists c, mt, b, e'. rewrite Hp in H. tauto.
Qed.

(** ** [restore_from_backup] *)

Lemma restore_spec p w :
  wp (restore_from_backup p)
     (fun o w' =>
        exists r, o = Ret r
        /\ ((exists b, r = mkPatchResult true "恢复成功"
                             (pathlib.str p) (pathlib.str b))
            \/ exists msg, r = failed msg /\ restore_failure msg)
        /\ (forall b eb, backup_of p = Some b -> w_fs w !! b = Some eb ->
              w_fs w' !! b = Some eb)
        /\ (success r = true ->
            exists b eb data e',
              backup_of p = Some b /\ w_fs w !! b = Some eb
              /\ e_node eb = Reg data
              /\ w_fs w' !! copy2_dst w b p = Some e'
              /\ e_node e' = Reg data)) w.
Proof.
  unfold restore_from_backup. wp_steps. apply wp_backup_path_of.
  destruct (backup_of p) as [b|] eqn:Hb.
  2:{ wp_steps. eexists. split; [done |].
      split; [right; eexists; split; [done | constructor] | done]. }
  destruct (backup_path_ne _ _ Hb) as [Hne Hne'].
  wp_steps. destruct (w_fs w !! b) as [eb|] eqn:Heb; wp_pure.
  2:{ wp_steps. eexists. split; [done |].
      split; [right; eexists; split; [done | constructor] |].
      split; [by intros ? ? [= <-]; congruence | done]. }
  wp_steps. wp_use ensure_spec.
  intros o w1 (ok & -> & Hf1 & Hp1). wp_pure.
  destruct ok; wp_pure.
  2:{ wp_steps. eexists. split; [done |].
      split; [right; eexists; split; [done | constructor] |]. split; [|done].
      intros ? ? [= <-] ?. rewrite Hf1 by done. congruence. }
  wp_steps. wp_use copy2_spec.
  assert (Hdst : copy2_dst w1 b p = copy2_dst w b p).
  { unfold copy2_dst. destruct (w_fs w !! p) as [e|].
    - destruct Hp1 as (e' & -> & Hn & _). destruct e, e'. simpl in Hn. by subst.
    - by rewrite Hp1. }
  rewrite Hdst.
  assert (Hdne : copy2_dst w b p <> b).
  { unfold copy2_dst. by destruct (w_fs w !! p) as [[[|?] ? ?]|]. }
  intros [d|ex] w2 (_ & Hf2 & Hres); wp_steps.
  - destruct Hres as (-> & _ & e & data & Hb1 & Hn & _ & Hd2).
    rewrite Hf1, Heb in Hb1 by done. injection Hb1 as <-.
    eexists. split; [done |]. split; [left; by eexists |]. split.
    { intros ? ? [= <-] ?. rewrite Hf2, Hf1 by done. congruence. }
    intros _. exists b, eb, data. eexists. by rewrite Hd2.
  - eexists. split; [done |].
    split; [right; eexists; split; [done | constructor] |]. split; [|done].
    intros ? ? [= <-] ?. rewrite Hf2, Hf1 by done. congruence.
Qed.

(** ** [get_patch_status] *)

Lemma get_patch_status_run ls gt p w :
  get_patch_status ls gt p w =
  (Ret match w_fs w !! p with
       | None => status_text ls gt "patch.status.file_not_found" "file not found"
       | Some _ =>
         match read_text w p with
         | None => status_text ls gt "patch.status.status_unknown" "status unknown"
         | Some c =>
           if _is_already_patched c
           then status_text ls gt "patch.status.patched" "patched"
           else status_text ls gt "patch.status.not_patched" "not patched"
         end
       end, w).
Proof.
  apply wp_eq. unfold get_patch_status. wp_steps.
  destruct (w_fs w !! p) as [e|] eqn:Hp; wp_steps; [|done].
  apply wp_read_text. destruct (read_text w p) as [c|]; [|intros; by wp_steps].
  wp_pure. destruct (_is_already_patched c); by wp_steps.
Qed.

(** ** Signatures and the anchor *)

Lemma is_already_patched_spec c :
  _is_already_patched c = true <-> has_signature c.
Proof.
  unfold _is_already_patched, has_signature. rewrite existsb_exists.
  split; intros (sig & Hin & H); exists sig.
  - by rewrite list_elem_of_In, <- contains_spec.
  - by rewrite <- list_elem_of_In, contains_spec.
Qed.

Lemma not_patched_spec c :
  _is_already_patched c = false <-> ~ has_signature c.
Proof.
  rewrite <- is_already_patched_spec. by destruct (_is_already_patched c).
Qed.

Lemma find_callapi_spec c :
  is_Some (_find_callapi_function c) <-> has_anchor c.
Proof.
  unfold _find_callapi_function, has_anchor. split.
  - intros [mt (_ & H & _)%search_Some]. eauto.
  - intros (i & n & H). by eapply search_occurs.
Qed.

Lemma no_anchor_spec c :
  _find_callapi_function c = None <-> ~ has_anchor c.
Proof.
  rewrite <- find_callapi_spec, <- eq_None_not_Some. done.
Qed.

Lemma patch_code_signatures m :
  forallb (fun sig => contains sig (patch_code m)) patch_signatures = true.
Proof. destruct m; vm_compute; reflexivity. Qed.

Lemma patch_code_ascii m :
  forallb (fun c => c <? 128) (patch_code m) = true.
Proof. destruct m; vm_compute; reflexivity. Qed.

Lemma patch_code_wf m :
  forallb utf8.scalar (patch_code m) = true /\ no_cr (patch_code m) = true.
Proof. destruct m; split; vm_compute; reflexivity. Qed.

Lemma forallb_take_drop {A} (f : A -> bool) n l :
  forallb f l = true ->
  forallb f (take n l) = true /\ forallb f (drop n l) = true.
Proof.
  intros H. rewrite <- (take_drop n l), forallb_app in H.
  by apply andb_true_iff in H.
Qed.

Lemma patched_content_wf c m j :
  forallb utf8.scalar c = true -> no_cr c = true ->
  forallb utf8.scalar (patched_content c m j) = true
  /\ no_cr (patched_content c m j) = true.
Proof.
  intros Hs Hn. unfold patched_content, no_cr in *.
  destruct (patch_code_wf m) as [Hps Hpn]. unfold no_cr in Hpn.
  destruct (forallb_take_drop utf8.scalar j c Hs) as [Ht' Hd'].
  destruct (forallb_take_drop _ j c Hn) as [Ht Hd].
  by rewrite !forallb_app, Ht, Hd, Ht', Hd', Hps, Hpn.
Qed.

Lemma patched_content_signatures c m j :
  has_all_signatures (patched_content c m j)
  /\ has_all_signatures (utf8.encode (patched_content c m j)).
Proof.
  assert (H : forall sig, sig ∈ patch_signatures ->
            contains sig (patch_code m) = true).
  { intros sig Hin. pose proof (patch_code_signatures m) as Hall.
    rewrite forallb_forall in Hall. apply Hall. by apply list_elem_of_In. }
  split; intros sig Hin; apply contains_spec.
  - by apply contains_middle, H.
  - unfold patched_content. rewrite !encode_app.
    rewrite (encode_ascii (patch_code m)) by apply patch_code_ascii.
    by apply contains_middle, H.
Qed.

(** Reading back what was written as text gives the text. *)
Lemma read_back w p e s :
  w_fs w !! p = Some e -> e_node e = Reg (utf8.encode s) -> may_read e = true ->
  forallb utf8.scalar s = true -> no_cr s = true ->
  read_text w p = Some s.
Proof.
  intros Hp Hn Hr Hs Hcr. unfold read_text. rewrite Hp, Hn, Hr.
  rewrite decode_encode by done. simpl. by rewrite universal_newlines_id.
Qed.

Lemma read_text_bytes w p c :
  read_text w p = Some c ->
  exists data raw, file_bytes w p = Some data /\ utf8.decode data = Some raw
    /\ c = universal_newlines raw.
Proof.
  intros (e & data & raw & Hp & Hn & _ & Hd & ->)%read_text_Some.
  exists data, raw. unfold file_bytes. by rewrite Hp, Hn.
Qed.

Lemma file_bytes_Some w p e data :
  w_fs w !! p = Some e -> e_node e = Reg data -> file_bytes w p = Some data.
Proof. unfold file_bytes. by intros -> ->. Qed.

(** A successful [apply_patch], in terms of what can be read before and
    after. *)
Lemma apply_patch_success_text p m w r w' :
  apply_patch p m w = (Ret r, w') -> success r = true ->
  exists c mt,
    read_text w p = Some c /\ ~ has_signature c
    /\ _find_callapi_function c = Some mt
    /\ file_bytes w' p
       = Some (utf8.encode (patched_content c m (re.m_end mt)))
    /\ read_text w' p = Some (patched_content c m (re.m_end mt)).
Proof.
  intros Hrun Hok.
  destruct (apply_patch_success _ _ _ _ _ Hrun Hok)
    as (c & mt & b & e' & Hr & Hpat & Hfind & Hb & Hp' & Hn' & Hr' & _).
  exists c, mt. split; [done |]. split; [by apply not_patched_spec |].
  split; [done |]. split; [by eapply file_bytes_Some |].
  destruct (read_text_wf _ _ _ Hr) as [Hs Hcr].
  destruct (patched_content_wf c m (re.m_end mt) Hs Hcr).
  by eapply read_back.
Qed.

(** ** When [apply_patch] succeeds *)

Lemma store_run p mode owned bs avail w :
  size bs <= avail ->
  store p mode owned bs avail w
  = (Ret tt,
     World (<[p := Entry (Reg bs) mode owned]> (w_fs w))
           (avail - size bs) (w_console w)).
Proof. intros H%N.leb_le. unfold store. by rewrite H. Qed.

Lemma write_file_existing p bs w e old :
  w_fs w !! p = Some e -> e_node e = Reg old -> may_write e = true ->
  size bs <= w_free w + size old ->
  write_file p bs w
  = (Ret tt,
     World (<[p := Entry (Reg bs) (e_mode e) (e_owned e)]> (w_fs w))
           (w_free w + size old - size bs) (w_console w)).
Proof.
  intros Hp Hn Hw Hroom. unfold write_file. rewrite Hp, Hn, Hw.
  by apply store_run.
Qed.

Lemma write_file_new p bs w d :
  w_fs w !! p = None -> p <> [] ->
  w_fs w !! removelast p = Some d -> e_node d = Dir -> may_write d = true ->
  size bs <= w_free w ->
  write_file p bs w
  = (Ret tt,
     World (<[p := Entry (Reg bs) 420 true]> (w_fs w))
           (w_free w - size bs) (w_console w)).
Proof.
  intros Hp Hne Hd Hn Hw Hroom. unfold write_file. rewrite Hp.
  destruct p; [done |]. rewrite Hd, Hn, Hw. by apply store_run.
Qed.

Lemma may_write_flag e :
  e_owned e = true -> lacks_write_flag e = false -> may_write e = true.
Proof.
  unfold may_write, lacks_write_flag, st_perms, stat.S_IMODE, stat.S_IWUSR.
  intros -> H. rewrite <- N.land_assoc in H.
  change (N.land 4095 128) with 128 in H. by rewrite H.
Qed.

Lemma lacks_write_flag_add e : lacks_write_flag (add_write_flag e) = false.
Proof.
  unfold lacks_write_flag, add_write_flag, st_perms, stat.S_IMODE,
    stat.S_IWUSR. simpl.
  apply N.eqb_neq. intros E.
  rewrite <- !N.land_assoc in E. change (N.land 4095 128) with 128 in E.
  rewrite N.land_lor_distr_l in E. change (N.land 128 128) with 128 in E.
  apply N.lor_eq_0_iff in E as [_ E]. discriminate.
Qed.

Lemma removelast_snoc {A} (l : list A) x : removelast (l ++ [x]) = l.
Proof. by apply removelast_last. Qed.

(** The file of the user, with a backup in place or a directory to make it
    in and room on the device, is patched. *)
Lemma apply_patch_succeeds p m w c :
  read_text w p = Some c -> _is_already_patched c = false ->
  is_Some (_find_callapi_function c) -> patchable w p m ->
  exists b w',
    apply_patch p m w
    = (Ret (mkPatchResult true "补丁应用成功" (pathlib.str p) (pathlib.str b)),
       w').
Proof.
  intros Hr Hpat [mt Hfind] (e & data & c' & b & Hp & Hn & Ho & Hr' & Hb
                             & Hbk & Hroom).
  rewrite Hr in Hr'. injection Hr' as <-.
  destruct (read_text_wf _ _ _ Hr) as [Hs Hcr].
  destruct (patched_content_wf c m (re.m_end mt) Hs Hcr) as [Hps _].
  assert (Hsize : size (utf8.encode (patched_content c m (re.m_end mt)))
                  = size (utf8.encode c) + size (patch_code m)).
  { unfold patched_content, size. rewrite !encode_app, !length_app.
    rewrite (encode_ascii (patch_code m)) by apply patch_code_ascii.
    assert (E : length (utf8.encode c)
                = (length (utf8.encode (take (re.m_end mt) c))
                   + length (utf8.encode (drop (re.m_end mt) c)))%nat)
      by (by rewrite <- length_app, <- encode_app, take_drop).
    lia. }
  destruct (backup_path_ne _ _ Hb) as [Hne _].
  pose proof Hr as (e0 & data0 & raw & Hp0 & Hn0 & Hread & _)%read_text_Some.
  rewrite Hp in Hp0. injection Hp0 as <-. rewrite Hn in Hn0.
  injection Hn0 as <-.
  (* the file once write permission is ensured *)
  set (e1 := if lacks_write_flag e then add_write_flag e else e).
  assert (He1 : e_node e1 = Reg data /\ e_owned e1 = true
                /\ may_write e1 = true /\ may_read e1 = true
                /\ lacks_write_flag e1 = false).
  { unfold e1. destruct (lacks_write_flag e) eqn:Hl.
    - split; [done |]. split; [done |].
      split; [apply may_write_flag; [done | apply lacks_write_flag_add] |].
      split; [by apply may_read_add_write_flag | apply lacks_write_flag_add].
    - split; [done |]. split; [done |].
      split; [by apply may_write_flag | done]. }
  destruct He1 as (Hn1 & Ho1 & Hw1 & Hr1 & Hl1).
  exists b. apply wp_ex with (f := fun w' => (_, w')).
  unfold apply_patch. wp_steps. rewrite Hp. wp_steps.
  apply wp_read_text. fold (started p m w).
  change (read_text (started p m w) p) with (read_text w p). rewrite Hr.
  wp_pure. rewrite Hpat, Hfind. wp_steps.
  (* write permission: the world afterwards holds [e1] at [p] *)
  unfold wp at 1. rewrite ensure_run. cbn [w_fs started logged].
  rewrite Hp, Ho.
  assert (Hens : exists w1,
    (if lacks_write_flag e
     then (Ret true,
           logged INFO ("已为文件添加写权限: " +:+ pathlib.str p)
             (with_fs (<[p:=add_write_flag e]> (w_fs w)) (started p m w)))
     else (Ret true, started p m w)) = (Ret true, w1)
    /\ w_fs w1 = <[p := e1]> (w_fs w) /\ w_free w1 = w_free w).
  { unfold e1. destruct (lacks_write_flag e); eexists; (split; [done |]);
      split; try done. simpl. by rewrite insert_id. }
  destruct Hens as (w1 & -> & Hfs1 & Hfree1). cbn [fst snd]. wp_pure.
  (* the backup *)
  assert (Hbackup : wp (_create_backup p)
    (fun o w2 =>
       o = Ret (true, b) /\ w_fs w2 !! p = Some e1
       /\ size (utf8.encode (patched_content c m (re.m_end mt)))
          <= w_free w2 + size data) w1).
  { destruct (w_fs w !! b) as [eb|] eqn:Heb.
    - unfold wp. erewrite create_backup_existing;
        [|done | by rewrite Hfs1, lookup_insert_ne, Heb].
      simpl. rewrite Hfs1, lookup_insert_eq. split; [done |].
      split; [done |]. lia.
    - destruct Hbk as [[? ?]|(d & Hd & Hnd & Hwd)]; [done |].
      pose proof Hb as (Hpne & Hbeq & Hlen)%with_name_Some.
      assert (Hparent : removelast b = removelast p)
        by (by rewrite Hbeq, removelast_snoc).
      assert (Hpar_ne : removelast p <> p).
      { intros E. apply (f_equal length) in E.
        rewrite (app_removelast_last "" Hpne) in E at 2.
        rewrite length_app in E. simpl in E. lia. }
      assert (Hbne : b <> []) by (rewrite Hbeq; by destruct (removelast p)).
      unfold _create_backup. wp_steps.
      apply wp_backup_path_of. rewrite Hb. wp_steps.
      rewrite Hfs1, lookup_insert_ne, Heb by done. wp_pure.
      unfold shutil.copy2, shutil.copyfile, shutil.copystat. wp_steps.
      rewrite Hfs1, (lookup_insert_ne _ p b), Heb, lookup_insert_eq by done.
      wp_pure. rewrite bool_decide_eq_false_2 by done. wp_steps.
      rewrite Hfs1, lookup_insert_eq, Hn1, Hr1.
      eapply wp_of_run.
      { eapply write_file_new; rewrite ?Hfs1, ?Hparent;
          [by rewrite lookup_insert_ne, Heb | done
          | by rewrite lookup_insert_ne | done | done | lia]. }
      wp_steps. rewrite lookup_insert_ne, Hfs1, lookup_insert_eq by done.
      wp_steps. rewrite lookup_insert_eq. wp_steps.
      rewrite lookup_insert_eq. wp_steps.
      rewrite !lookup_insert_ne, lookup_insert_eq by done.
      split; [done |]. split; [done |]. lia. }
  unfold wp in Hbackup.
  destruct (_create_backup p w1) as [o2 w2] eqn:Hbk2. simpl in Hbackup.
  destruct Hbackup as (-> & Hp2 & Hroom2).
  wp_steps. eapply wp_of_run; [exact Hbk2 |]. wp_steps.
  unfold open_write_text. rewrite Hps.
  eapply wp_of_run; [by eapply write_file_existing |].
  wp_steps. by eexists.
Qed.

Lemma open_read_text_Raise p w :
  read_text w p = None -> exists e, open_read_text p w = (Raise e, w).
Proof.
  intros Hr. destruct (open_read_text p w) as [[c|e] w'] eqn:E.
  - apply open_read_text_Ret in E as [_ E]. congruence.
  - exists e. f_equal.
    pose proof (wp_read_text p (fun _ w' => w' = w) w) as H.
    unfold wp in H. rewrite E in H. apply H. by rewrite Hr.
Qed.

Lemma apply_failure_ne p msg : apply_failure p msg -> msg <> "".
Proof. by destruct 1. Qed.

Lemma restore_failure_ne msg : restore_failure msg -> msg <> "".
Proof. by destruct 1. Qed.

(** * The claims *)

(** C1, as stated, fails: somebody else's read-only file is readable, has no
    signature and has the anchor, and [apply_patch] refuses it because it
    cannot make it writable. *)
Lemma apply_patch_readonly_refused :
  open_read_text sample_file readonly_world = (Ret sample_js, readonly_world)
  /\ _is_already_patched sample_js = false
  /\ is_Some (_find_callapi_function sample_js)
  /\ (apply_patch sample_file BLOCK readonly_world).1
     = Ret (failed "无法获取文件写权限")
  /\ ~ (exists r w', apply_patch sample_file BLOCK readonly_world = (Ret r, w')
          /\ success r = true).
Proof.
  split; [vm_compute; reflexivity |]. split; [vm_compute; reflexivity |].
  split; [vm_compute; by eexists |].
  assert (E : (apply_patch sample_file BLOCK readonly_world).1
              = Ret (failed "无法获取文件写权限")) by (vm_compute; reflexivity).
  split; [exact E |].
  intros (r & w' & H & Hok). rewrite H in E. simpl in E.
  injection E as ->. discriminate Hok.
Qed.

(** C1 (amended): on a readable file whose content has none of the four
    signatures and has a match of the anchor expression, [apply_patch], in
    every mode, either succeeds, and then the file contains all four
    signatures (as bytes and as the text read back), or returns the failed
    result of one of its guards: for write permission, for the backup or
    for the write.  It succeeds when the file is the user's own, the backup
    is there or can be made in the directory of the file, and the device
    has room for the backup and the patched file. *)
Theorem apply_patch_unpatched_anchor p m w c :
  open_read_text p w = (Ret c, w) -> ~ has_signature c -> has_anchor c ->
  exists r w', apply_patch p m w = (Ret r, w')
    /\ ((success r = true
         /\ exists data c',
              file_bytes w' p = Some data /\ has_all_signatures data
              /\ open_read_text p w' = (Ret c', w') /\ has_all_signatures c')
        \/ r = failed "无法获取文件写权限"
        \/ r = failed "创建备份失败"
        \/ exists e, r = failed ("写入补丁文件失败: " +:+ exn_str e))
    /\ (patchable w p m -> success r = true).
Proof.
  intros [_ Hr]%open_read_text_Ret Hpat%not_patched_spec
    [mt Hfind]%find_callapi_spec.
  pose proof (apply_patch_commit p m w c mt Hr Hpat Hfind) as H.
  unfold wp in H. destruct (apply_patch p m w) as [o w'] eqn:Hrun.
  simpl in H. destruct H as (r & -> & _ & Hcases). exists r, w'.
  split; [done |]. split.
  2:{ intros Hok.
      destruct (apply_patch_succeeds p m w c Hr Hpat) as (b & w'' & E);
        [by eexists | done |].
      rewrite Hrun in E. by injection E as -> _. }
  destruct Hcases as [(b & e' & -> & _)|Hfail]; [|by right].
  left. split; [done |].
  destruct (apply_patch_success_text _ _ _ _ _ Hrun eq_refl)
    as (c0 & mt0 & _ & _ & _ & Hbytes & Hback).
  destruct (patched_content_signatures c0 m (re.m_end mt0)).
  eexists _, _. split; [exact Hbytes |]. split; [done |].
  split; [by apply open_read_text_Ret | done].
Qed.

Lemma apply_patch_unpatched_anchor_witness :
  exists r w', apply_patch sample_file BLOCK sample_world = (Ret r, w')
    /\ ((success r = true
         /\ exists data c',
              file_bytes w' sample_file = Some data /\ has_all_signatures data
              /\ open_read_text sample_file w' = (Ret c', w')
              /\ has_all_signatures c')
        \/ r = failed "无法获取文件写权限"
        \/ r = failed "创建备份失败"
        \/ exists e, r = failed ("写入补丁文件失败: " +:+ exn_str e))
    /\ (patchable sample_world sample_file BLOCK -> success r = true).
Proof.
  apply (apply_patch_unpatched_anchor sample_file BLOCK sample_world sample_js).
  - vm_compute. reflexivity.
  - apply not_patched_spec. vm_compute. reflexivity.
  - apply find_callapi_spec. vm_compute. by eexists.
Defined.

(** The sample world is one where the file can be patched. *)
Example sample_world_patchable m : patchable sample_world sample_file m.
Proof.
  exists (Entry (Reg sample_js) 420 true), sample_js, sample_js, sample_backup.
  split; [vm_compute; reflexivity |]. split; [reflexivity |].
  split; [reflexivity |]. split; [vm_compute; reflexivity |].
  split; [vm_compute; reflexivity |]. split.
  - right. exists (Entry Dir 493 true). by vm_compute.
  - destruct m; vm_compute; discriminate.
Qed.

(** On the user's own file in the user's own directory, with room on the
    device, every mode is applied. *)
Example sample_world_patched m :
  exists b, (apply_patch sample_file m sample_world).1
            = Ret (mkPatchResult true "补丁应用成功" "ext/extension.js" b).
Proof. exists "ext/extension_ori.js". destruct m; vm_compute; reflexivity. Qed.

(** C2, as stated, fails: with a backup from an earlier time in place,
    [apply_patch] succeeds without making a new one, and
    [restore_from_backup] then puts the old backup into the file, not what
    the file held before the patch. *)
Lemma restore_after_apply_stale_backup :
  exists r1 w1 r2 w2,
    apply_patch sample_file BLOCK stale_backup_world = (Ret r1, w1)
    /\ success r1 = true
    /\ restore_from_backup sample_file w1 = (Ret r2, w2)
    /\ success r2 = true
    /\ file_bytes stale_backup_world sample_file = Some sample_js
    /\ file_bytes w2 sample_file = Some (ascii_text "class Old { }")
    /\ file_bytes w2 sample_file <> file_bytes stale_backup_world sample_file.
Proof.
  eexists _, _, _, _. split; [vm_compute; reflexivity |].
  split; [reflexivity |]. split; [vm_compute; reflexivity |].
  split; [reflexivity |]. split; [vm_compute; reflexivity |].
  split; [vm_compute; reflexivity |]. vm_compute. discriminate.
Qed.

(** C2 (amended): when no backup exists before [apply_patch], and
    [apply_patch] and then [restore_from_backup] succeed, the file holds
    the bytes it held before the patch. *)
Theorem restore_after_apply p m b w r1 w1 r2 w2 :
  backup_of p = Some b -> w_fs w !! b = None ->
  apply_patch p m w = (Ret r1, w1) -> success r1 = true ->
  restore_from_backup p w1 = (Ret r2, w2) -> success r2 = true ->
  is_Some (file_bytes w p) /\ file_bytes w2 p = file_bytes w p.
Proof.
  intros Hb Hnone Happly Hok1 Hrestore Hok2.
  destruct (apply_patch_success _ _ _ _ _ Happly Hok1)
    as (c & mt & b' & e' & Hr & _ & _ & Hb' & Hp1 & Hn1 & _ & Hnew).
  rewrite Hb in Hb'. injection Hb' as <-.
  destruct (Hnew Hnone) as (eb & Hb1 & Hnb).
  destruct (read_text_Some _ _ _ Hr) as (e & data & raw & Hp & Hn & _).
  rewrite Hp in Hnb. simpl in Hnb. injection Hnb as Hnb. rewrite Hn in Hnb.
  rewrite (file_bytes_Some w p e data) by done. split; [by eexists |].
  pose proof (restore_spec p w1) as H. unfold wp in H.
  rewrite Hrestore in H. simpl in H.
  destruct H as (r & [= <-] & _ & _ & H).
  destruct (H Hok2) as (b' & eb' & data' & e2 & Hb' & Hb1' & Hnb' & He2 & Hn2).
  rewrite Hb in Hb'. injection Hb' as <-.
  rewrite Hb1 in Hb1'. injection Hb1' as <-.
  rewrite Hnb in Hnb'. injection Hnb' as <-.
  assert (Hdst : copy2_dst w1 b p = p).
  { unfold copy2_dst. rewrite Hp1. destruct e'. simpl in Hn1. by subst. }
  rewrite Hdst in He2. by eapply file_bytes_Some.
Qed.

Lemma restore_after_apply_witness :
  is_Some (file_bytes sample_world sample_file)
  /\ file_bytes
       (restore_from_backup sample_file
          (apply_patch sample_file STEALTH sample_world).2).2 sample_file
     = file_bytes sample_world sample_file.
Proof.
  apply (restore_after_apply sample_file STEALTH sample_backup sample_world
           (mkPatchResult true "补丁应用成功"
              "ext/extension.js" "ext/extension_ori.js")
           (apply_patch sample_file STEALTH sample_world).2
           (mkPatchResult true "恢复成功"
              "ext/extension.js" "ext/extension_ori.js")
           (restore_from_backup sample_file
              (apply_patch sample_file STEALTH sample_world).2).2).
  - vm_compute. reflexivity.
  - vm_compute. reflexivity.
  - vm_compute. reflexivity.
  - reflexivity.
  - vm_compute. reflexivity.
  - reflexivity.
Defined.

(** Without the success of [restore_from_backup] the round trip can stop
    half way: somebody else's file with mode 0o206 is patched, its backup
    is the user's with the same mode, and the user cannot read it back. *)
Example restore_can_fail :
  let w := World (sample_fs (Entry (Reg sample_js) 134 false)) 10000 [] in
  exists b w1 w2,
    apply_patch sample_file BLOCK w
    = (Ret (mkPatchResult true "补丁应用成功" "ext/extension.js" b), w1)
    /\ w_fs w !! sample_backup = None
    /\ restore_from_backup sample_file w1
       = (Ret (failed ("恢复失败: "
                       +:+ exn_str (PermissionError 13 sample_backup))), w2)
    /\ file_bytes w2 sample_file <> file_bytes w sample_file.
Proof.
  eexists _, _, _. split; [vm_compute; reflexivity |].
  split; [vm_compute; reflexivity |]. split; [vm_compute; reflexivity |].
  vm_compute. discriminate.
Qed.

(** C3: once [apply_patch] has succeeded on a file, a second call on it, in
    whatever mode, returns the failed result that says the file is patched
    already; it writes to the console and touches no file. *)
Theorem apply_patch_twice p m m' w r w' :
  apply_patch p m w = (Ret r, w') -> success r = true ->
  apply_patch p m' w'
  = (Ret (failed "文件已被补丁，跳过操作"), started p m' w').
Proof.
  intros Hrun Hok.
  destruct (apply_patch_success_text _ _ _ _ _ Hrun Hok)
    as (c & mt & _ & _ & _ & _ & Hback).
  eapply apply_patch_already_patched; [exact Hback |].
  apply is_already_patched_spec.
  destruct (patched_content_signatures c m (re.m_end mt)) as [Hall _].
  exists (js "randSessionId").
  assert (Hin : js "randSessionId" ∈ patch_signatures)
    by (apply list_elem_of_In; vm_compute; tauto).
  split; [done | by apply Hall].
Qed.

Lemma apply_patch_twice_witness :
  apply_patch sample_file EMPTY (apply_patch sample_file BLOCK sample_world).2
  = (Ret (failed "文件已被补丁，跳过操作"),
     started sample_file EMPTY (apply_patch sample_file BLOCK sample_world).2).
Proof.
  apply (apply_patch_twice sample_file BLOCK EMPTY sample_world
           (mkPatchResult true "补丁应用成功"
              "ext/extension.js" "ext/extension_ori.js")).
  - vm_compute. reflexivity.
  - reflexivity.
Defined.

(** C4: on a readable file whose content has no signature and no match of
    the anchor expression, [apply_patch] returns the failed result for the
    missing function and leaves the file system as it was: the file is
    unchanged and no backup has appeared. *)
Theorem apply_patch_without_anchor p m w c :
  open_read_text p w = (Ret c, w) -> ~ has_signature c -> ~ has_anchor c ->
  exists w',
    apply_patch p m w = (Ret (failed "未找到async callApi函数"), w')
    /\ w_fs w' = w_fs w /\ w_free w' = w_free w
    /\ file_bytes w' p = file_bytes w p
    /\ forall b, backup_of p = Some b -> w_fs w' !! b = w_fs w !! b.
Proof.
  intros [_ Hr]%open_read_text_Ret Hpat%not_patched_spec Hno%no_anchor_spec.
  exists (started p m w). split; [by eapply apply_patch_no_anchor |].
  done.
Qed.

Lemma apply_patch_without_anchor_witness :
  exists w',
    apply_patch sample_file RANDOM no_anchor_world
    = (Ret (failed "未找到async callApi函数"), w')
    /\ w_fs w' = w_fs no_anchor_world /\ w_free w' = w_free no_anchor_world
    /\ file_bytes w' sample_file = file_bytes no_anchor_world sample_file
    /\ forall b, backup_of sample_file = Some b ->
         w_fs w' !! b = w_fs no_anchor_world !! b.
Proof.
  apply (apply_patch_without_anchor sample_file RANDOM no_anchor_world
           (ascii_text "class A { run() { } }")).
  - vm_compute. reflexivity.
  - apply not_patched_spec. vm_compute. reflexivity.
  - apply no_anchor_spec. vm_compute. reflexivity.
Defined.

Lemma perform_keeps_backup ls gt p b eb w op :
  backup_of p = Some b -> w_fs w !! b = Some eb ->
  w_fs (perform ls gt p w op) !! b = Some eb.
Proof.
  intros Hb Heb. destruct op as [m| |]; simpl.
  - destruct (apply_patch_returns p m w) as (r & w' & -> & _ & H). eauto.
  - pose proof (restore_spec p w) as H. unfold wp in H.
    destruct H as (r & _ & _ & H & _). eauto.
  - by rewrite get_patch_status_run.
Qed.

(** C5: whatever sequence of [apply_patch], [restore_from_backup] and
    [get_patch_status] runs on a target, a backup of it that exists stays
    the entry it is: same bytes, same mode, same owner.  [_create_backup]
    returns at once when the backup is there. *)
Theorem backup_never_overwritten ls gt p b eb w :
  backup_of p = Some b -> w_fs w !! b = Some eb ->
  (forall ops, w_fs (perform_all ls gt p ops w) !! b = Some eb)
  /\ _create_backup p w
     = (Ret (true, b),
        logged WARNING ("备份文件已存在: " +:+ pathlib.str b) w).
Proof.
  intros Hb Heb. split; [|by eapply create_backup_existing].
  intros ops. revert w Heb. unfold perform_all.
  induction ops as [|op ops IH]; intros w Heb; simpl; [done |].
  apply IH. by apply perform_keeps_backup.
Qed.

Lemma backup_never_overwritten_witness :
  (forall ops,
     w_fs (perform_all false id sample_file ops stale_backup_world)
       !! sample_backup
     = Some (Entry (Reg (ascii_text "class Old { }")) 420 true))
  /\ _create_backup sample_file stale_backup_world
     = (Ret (true, sample_backup),
        logged WARNING ("备份文件已存在: " +:+ pathlib.str sample_backup)
          stale_backup_world).
Proof.
  apply (backup_never_overwritten false id sample_file sample_backup
           (Entry (Reg (ascii_text "class Old { }")) 420 true)
           stale_backup_world).
  - vm_compute. reflexivity.
  - vm_compute. reflexivity.
Defined.

(** ** The failed write *)

Lemma restore_after_failed_write_run bp p w :
  restore_after_failed_write bp p w
  = match (_ensure_write_permissions p ;; shutil.copy2 bp p) w with
    | (Ret _, w') => (Ret tt, logged WARNING "已从备份恢复原始文件" w')
    | (Raise _, w') => (Ret tt, logged ERROR "恢复原始文件失败!" w')
    end.
Proof.
  unfold restore_after_failed_write, try_except, bind.
  destruct (_ensure_write_permissions p w) as [[ok|ex] w1]; [|done].
  by destruct (shutil.copy2 bp p w1) as [[d|ex] w2].
Qed.

Lemma rollback_restores bp p w d w' :
  bp <> p -> (exists e, w_fs w !! p = Some e /\ e_node e <> Dir) ->
  (_ensure_write_permissions p ;; shutil.copy2 bp p) w = (Ret d, w') ->
  d = p /\ is_Some (file_bytes w bp) /\ file_bytes w' p = file_bytes w bp.
Proof.
  intros Hne (e & Hp & Hreg) Hrun.
  assert (H : wp (_ensure_write_permissions p ;; shutil.copy2 bp p)
                (fun o w' => forall d, o = Ret d ->
                   d = p /\ is_Some (file_bytes w bp)
                   /\ file_bytes w' p = file_bytes w bp) w).
  { wp_steps. wp_use ensure_spec. rewrite Hp.
    intros o w1 (ok & -> & Hf1 & e1 & Hp1 & Hn1 & _). wp_pure.
    wp_use copy2_spec.
    assert (Hdst : copy2_dst w1 bp p = p).
    { unfold copy2_dst. rewrite Hp1. destruct e1 as [[|?] ? ?]; [|done].
      simpl in Hn1. congruence. }
    rewrite Hdst. intros [d'|ex] w2 (_ & _ & Hres) d0; [|done].
    intros [= <-]. destruct Hres as (-> & _ & eb & data & Hb & Hnb & _ & Hp2).
    rewrite Hf1 in Hb by done. split; [done |].
    rewrite (file_bytes_Some w bp eb data) by done.
    split; [by eexists | by eapply file_bytes_Some]. }
  unfold wp in H. rewrite Hrun in H. by apply H.
Qed.

(** C6: when the write of the patched content raises, [apply_patch] runs
    the recovery ([_ensure_write_permissions], then [shutil.copy2] of the
    backup onto the target) on what the failed write left, and returns the
    failed result that reports the write error; the recovery note goes to
    the console: a warning when the copy went through, and then the target
    holds the bytes of the backup, an error when it did not. *)
Theorem apply_patch_write_failure p m w c mt w1 bp w2 e w3 :
  open_read_text p w = (Ret c, w) -> ~ has_signature c ->
  _find_callapi_function c = Some mt ->
  _ensure_write_permissions p (started p m w) = (Ret true, w1) ->
  _create_backup p w1 = (Ret (true, bp), w2) ->
  open_write_text p (patched_content c m (re.m_end mt)) w2 = (Raise e, w3) ->
  exists w4,
    apply_patch p m w
    = (Ret (failed ("写入补丁文件失败: " +:+ exn_str e)), w4)
    /\ w4 = (restore_after_failed_write bp p w3).2
    /\ ((exists w',
           (_ensure_write_permissions p ;; shutil.copy2 bp p) w3 = (Ret p, w')
           /\ w4 = logged WARNING "已从备份恢复原始文件" w'
           /\ is_Some (file_bytes w3 bp)
           /\ file_bytes w4 p = file_bytes w3 bp)
        \/ (exists ex w',
              (_ensure_write_permissions p ;; shutil.copy2 bp p) w3
              = (Raise ex, w')
              /\ w4 = logged ERROR "恢复原始文件失败!" w')).
Proof.
  intros [_ Hr]%open_read_text_Ret Hpat%not_patched_spec Hfind Hens Hbk Hwr.
  pose proof Hr as (e0 & data & raw & Hp & Hn0 & _)%read_text_Some.
  exists (restore_after_failed_write bp p w3).2. split.
  { apply wp_eq. unfold apply_patch. wp_steps. rewrite Hp. wp_steps.
    apply wp_read_text. fold (started p m w).
    change (read_text (started p m w) p) with (read_text w p). rewrite Hr.
    wp_pure. rewrite Hpat, Hfind. wp_steps.
    eapply wp_of_run; [exact Hens |]. wp_steps.
    eapply wp_of_run; [exact Hbk |]. wp_steps.
    eapply wp_of_run; [exact Hwr |]. wp_steps.
    unfold wp. rewrite restore_after_failed_write_run.
    by destruct ((_ensure_write_permissions p;; shutil.copy2 bp p) w3)
      as [[d|ex] w']. }
  split; [done |].
  (* the target is still a file, and the backup is another path *)
  assert (Hbp : bp <> p /\ exists e3, w_fs w3 !! p = Some e3 /\ e_node e3 <> Dir).
  { pose proof (ensure_spec p (started p m w)) as H1. unfold wp in H1.
    rewrite Hens in H1. simpl in H1. rewrite Hp in H1.
    destruct H1 as (_ & _ & _ & e1 & Hp1 & Hn1 & _).
    pose proof (create_backup_spec p w1) as H2. unfold wp in H2.
    rewrite Hbk in H2. simpl in H2.
    destruct H2 as (ok & bp' & [= <- <-] & H2).
    destruct (backup_of p) as [b|] eqn:Hb; [|by destruct H2].
    destruct (backup_path_ne _ _ Hb) as [Hne _]. destruct H2 as [Hf2 H2].
    assert (bp = b) as ->.
    { destruct (w_fs w1 !! b); [by destruct H2 as (_ & -> & _) |].
      by destruct (H2 eq_refl). }
    split; [done |].
    pose proof (open_write_text_spec p (patched_content c m (re.m_end mt)) w2)
      as H3. unfold wp in H3. rewrite Hwr in H3.
    destruct H3 as (_ & _ & H3 & _). apply (H3 e1); [by rewrite Hf2 |].
    rewrite Hn1, Hn0. done. }
  destruct Hbp as [Hne Hreg].
  rewrite restore_after_failed_write_run.
  destruct ((_ensure_write_permissions p;; shutil.copy2 bp p) w3)
    as [[d|ex] w'] eqn:Hroll; simpl.
  - left. destruct (rollback_restores _ _ _ _ _ Hne Hreg Hroll) as (-> & ? & ?).
    exists w'. by repeat split.
  - right. by exists ex, w'.
Qed.

Lemma apply_patch_write_failure_witness :
  exists w4,
    apply_patch sample_file BLOCK foreign_world
    = (Ret (failed ("写入补丁文件失败: "
                    +:+ exn_str (PermissionError 13 sample_file))), w4)
    /\ w4 = (restore_after_failed_write sample_backup sample_file
               (_create_backup sample_file
                  (started sample_file BLOCK foreign_world)).2).2
    /\ ((exists w',
           (_ensure_write_permissions sample_file ;;
            shutil.copy2 sample_backup sample_file)
             (_create_backup sample_file
                (started sample_file BLOCK foreign_world)).2
           = (Ret sample_file, w')
           /\ w4 = logged WARNING "已从备份恢复原始文件" w'
           /\ is_Some (file_bytes
                         (_create_backup sample_file
                            (started sample_file BLOCK foreign_world)).2
                         sample_backup)
           /\ file_bytes w4 sample_file
              = file_bytes
                  (_create_backup sample_file
                     (started sample_file BLOCK foreign_world)).2
                  sample_backup)
        \/ (exists ex w',
              (_ensure_write_permissions sample_file ;;
               shutil.copy2 sample_backup sample_file)
                (_create_backup sample_file
                   (started sample_file BLOCK foreign_world)).2
              = (Raise ex, w')
              /\ w4 = logged ERROR "恢复原始文件失败!" w')).
Proof.
  apply (apply_patch_write_failure sample_file BLOCK foreign_world sample_js
           (re.mkMatch 10 31)
           (started sample_file BLOCK foreign_world)
           sample_backup
           (_create_backup sample_file
              (started sample_file BLOCK foreign_world)).2
           (PermissionError 13 sample_file)
           (_create_backup sample_file
              (started sample_file BLOCK foreign_world)).2).
  - vm_compute. reflexivity.
  - apply not_patched_spec. vm_compute. reflexivity.
  - vm_compute. reflexivity.
  - vm_compute. reflexivity.
  - vm_compute. reflexivity.
  - vm_compute. reflexivity.
Defined.

(** On a device with room for the backup but not for the patched file, the
    write stops half way, and the recovery puts the file back. *)
Example full_world_rolled_back :
  exists w',
    apply_patch sample_file BLOCK full_world
    = (Ret (failed "写入补丁文件失败: [Errno 28] No space left on device"), w')
    /\ file_bytes w' sample_file = Some sample_js
    /\ last (w_console w') = Some (WARNING, "已从备份恢复原始文件").
Proof.
  eexists. split; [vm_compute; reflexivity |].
  split; vm_compute; reflexivity.
Qed.

(** Somebody else's file that the user may not write: the recovery fails
    as the write did, and the file was never touched. *)
Example foreign_world_not_recovered :
  exists w',
    apply_patch sample_file BLOCK foreign_world
    = (Ret (failed ("写入补丁文件失败: "
                    +:+ exn_str (PermissionError 13 sample_file))), w')
    /\ file_bytes w' sample_file = Some sample_js
    /\ last (w_console w') = Some (ERROR, "恢复原始文件失败!").
Proof.
  eexists. split; [vm_compute; reflexivity |].
  split; vm_compute; reflexivity.
Qed.

(** ** The status *)

Lemma status_of_unique w p key dflt key' dflt' :
  status_of w p key dflt -> status_of w p key' dflt' ->
  key' = key /\ dflt' = dflt.
Proof.
  assert (Hex : forall c, open_read_text p w = (Ret c, w) ->
            is_Some (w_fs w !! p)).
  { intros c [_ (e & _ & _ & -> & _)%read_text_Some]%open_read_text_Ret.
    by eexists. }
  assert (Hno : w_fs w !! p = None -> ~ is_Some (w_fs w !! p))
    by (intros -> [? ?]; done).
  destruct 1 as [Hp|c Hr Hs|c Hr Hs|e Hp Hr];
    destruct 1 as [Hp'|c' Hr' Hs'|c' Hr' Hs'|e' Hp' Hr']; try done;
    try (by destruct (Hno Hp); eauto);
    try (by destruct (Hno Hp'); eauto);
    try (rewrite Hr in Hr'; injection Hr' as <-; done);
    try (rewrite Hr in Hr'; discriminate).
Qed.

(** C7: [get_patch_status] returns, without changing anything, the text of
    exactly one status: file-not-found when the path does not exist,
    patched when the content read has a signature, not-patched when it has
    none, status-unknown when the path exists and reading it raises.  The
    text is [get_text] of the key when the message tables are there and the
    English fallback otherwise. *)
Theorem get_patch_status_reports ls gt p w :
  exists key dflt,
    status_of w p key dflt
    /\ get_patch_status ls gt p w = (Ret (status_text ls gt key dflt), w)
    /\ (forall key' dflt', status_of w p key' dflt' ->
          key' = key /\ dflt' = dflt)
    /\ status_text true gt key dflt = gt key
    /\ status_text false gt key dflt = dflt.
Proof.
  assert (H : exists key dflt,
    status_of w p key dflt
    /\ get_patch_status ls gt p w = (Ret (status_text ls gt key dflt), w)
    /\ status_text false gt key dflt = dflt).
  { rewrite get_patch_status_run.
    destruct (w_fs w !! p) as [e|] eqn:Hp.
    2:{ eexists _, _. split; [by constructor | done]. }
    destruct (read_text w p) as [c|] eqn:Hr.
    2:{ destruct (open_read_text_Raise p w Hr) as [ex Hex].
        eexists _, _. split; [by econstructor | done]. }
    assert (open_read_text p w = (Ret c, w)) by (by apply open_read_text_Ret).
    destruct (_is_already_patched c) eqn:Hpat.
    - eexists _, _. split; [|done]. econstructor; [done |].
      by apply is_already_patched_spec.
    - eexists _, _. split; [|done]. eapply status_not_patched; [done |].
      by apply not_patched_spec. }
  destruct H as (key & dflt & Hst & Hrun & Hfb). exists key, dflt.
  split; [done |]. split; [done |]. split; [|done].
  intros key' dflt' Hst'. by eapply status_of_unique.
Qed.

(** The four statuses, each on a world that shows it. *)
Example status_examples :
  (get_patch_status false id sample_file sample_world).1 = Ret "not patched"
  /\ (get_patch_status false id sample_file
        (apply_patch sample_file DEBUG sample_world).2).1 = Ret "patched"
  /\ (get_patch_status false id ["ext"; "missing.js"] sample_world).1
     = Ret "file not found"
  /\ (get_patch_status false id sample_file directory_world).1
     = Ret "status unknown".
Proof. repeat split; vm_compute; reflexivity. Qed.

(** C8: [apply_patch] and [restore_from_backup] return a [PatchResult] on
    every path, in every mode and every world: they never raise.  A result
    that is not the success is a failed result with one of the messages of
    the failure categories, none of which is empty.  [get_patch_status]
    returns a string and never raises. *)
Theorem operations_never_raise p w :
  (forall m, exists r w',
     apply_patch p m w = (Ret r, w')
     /\ message r <> ""
     /\ ((success r = true /\ message r = "补丁应用成功")
         \/ (success r = false /\ apply_failure p (message r))))
  /\ (exists r w',
        restore_from_backup p w = (Ret r, w')
        /\ message r <> ""
        /\ ((success r = true /\ message r = "恢复成功")
            \/ (success r = false /\ restore_failure (message r))))
  /\ (forall ls gt, exists s w', get_patch_status ls gt p w = (Ret s, w')).
Proof.
  split; [|split].
  - intros m. destruct (apply_patch_returns p m w) as (r & w' & Hrun & Hr & _).
    exists r, w'. split; [done |].
    destruct Hr as [[b ->]|(msg & -> & Hmsg)].
    + split; [done | by left].
    + split; [by eapply apply_failure_ne | by right].
  - pose proof (restore_spec p w) as H. unfold wp in H.
    destruct (restore_from_backup p w) as [o w']. simpl in H.
    destruct H as (r & -> & Hr & _). exists r, w'. split; [done |].
    destruct Hr as [[b ->]|(msg & -> & Hmsg)].
    + split; [done | by left].
    + split; [by eapply restore_failure_ne | by right].
  - intros ls gt. rewrite get_patch_status_run. by eexists _, _.
Qed.

(** Every failure of [apply_patch] is met on some world. *)
Example apply_failures_met :
  (apply_patch ["ext"; "missing.js"] BLOCK sample_world).1
  = Ret (failed "文件不存在: ext/missing.js")
  /\ (apply_patch sample_file BLOCK directory_world).1
     = Ret (failed "读取文件失败: [Errno 21] Is a directory: 'ext/extension.js'")
  /\ (apply_patch sample_file BLOCK
        (apply_patch sample_file BLOCK sample_world).2).1
     = Ret (failed "文件已被补丁，跳过操作")
  /\ (apply_patch sample_file BLOCK no_anchor_world).1
     = Ret (failed "未找到async callApi函数")
  /\ (apply_patch sample_file BLOCK readonly_world).1
     = Ret (failed "无法获取文件写权限")
  /\ (apply_patch sample_file BLOCK
        (World (<[sample_dir := Entry Dir 365 true]> (w_fs sample_world))
               10000 [])).1
     = Ret (failed "创建备份失败")
  /\ (apply_patch sample_file BLOCK foreign_world).1
     = Ret (failed "写入补丁文件失败: [Errno 13] Permission denied: 'ext/extension.js'").
Proof. repeat split; vm_compute; reflexivity. Qed.

Example restore_failures_met :
  (restore_from_backup sample_file sample_world).1
  = Ret (failed "备份文件不存在: ext/extension_ori.js")
  /\ (restore_from_backup sample_file
        (World (<[sample_backup := Entry (Reg sample_js) 420 true]>
                  (w_fs readonly_world)) 10000 [])).1
     = Ret (failed "无法获取文件写权限")
  /\ (restore_from_backup [] sample_world).1
     = Ret (failed "恢复失败: '.' has an empty name").
Proof. repeat split; vm_compute; reflexivity. Qed.

(** C9: the patched bytes depend on the bytes of the file and on the mode
    only: two successful runs in the same mode on files that hold the same
    bytes, whatever their paths and their worlds, leave the same bytes; and
    what is inserted is the template of the mode followed by the session
    text, both literals. *)
Theorem apply_patch_deterministic m p1 w1 r1 w1' p2 w2 r2 w2' :
  file_bytes w1 p1 = file_bytes w2 p2 ->
  apply_patch p1 m w1 = (Ret r1, w1') -> success r1 = true ->
  apply_patch p2 m w2 = (Ret r2, w2') -> success r2 = true ->
  file_bytes w1' p1 = file_bytes w2' p2
  /\ exists c j,
       file_bytes w1' p1
       = Some (utf8.encode
                 (take j c ++ (patches m ++ _generate_session_randomizer)
                  ++ drop j c)).
Proof.
  intros Hsame Hrun1 Hok1 Hrun2 Hok2.
  destruct (apply_patch_success_text _ _ _ _ _ Hrun1 Hok1)
    as (c1 & mt1 & Hr1 & _ & Hf1 & Hb1 & _).
  destruct (apply_patch_success_text _ _ _ _ _ Hrun2 Hok2)
    as (c2 & mt2 & Hr2 & _ & Hf2 & Hb2 & _).
  destruct (read_text_bytes _ _ _ Hr1) as (d1 & raw1 & Hd1 & Hdec1 & ->).
  destruct (read_text_bytes _ _ _ Hr2) as (d2 & raw2 & Hd2 & Hdec2 & ->).
  rewrite Hd1, Hd2 in Hsame. injection Hsame as <-.
  rewrite Hdec1 in Hdec2. injection Hdec2 as <-.
  rewrite Hf1 in Hf2. injection Hf2 as <-.
  split; [by rewrite Hb1, Hb2 |]. by eexists _, _.
Qed.

Lemma apply_patch_deterministic_witness :
  file_bytes (apply_patch sample_file RANDOM sample_world).2 sample_file
  = file_bytes (apply_patch ["opt"; "main.js"] RANDOM other_world).2
      ["opt"; "main.js"]
  /\ exists c j,
       file_bytes (apply_patch sample_file RANDOM sample_world).2 sample_file
       = Some (utf8.encode
                 (take j c
                  ++ (patches RANDOM ++ _generate_session_randomizer)
                  ++ drop j c)).
Proof.
  apply (apply_patch_deterministic RANDOM
           sample_file sample_world
           (mkPatchResult true "补丁应用成功"
              "ext/extension.js" "ext/extension_ori.js")
           (apply_patch sample_file RANDOM sample_world).2
           ["opt"; "main.js"] other_world
           (mkPatchResult true "补丁应用成功" "opt/main.js" "opt/main_ori.js")
           (apply_patch ["opt"; "main.js"] RANDOM other_world).2).
  - vm_compute. reflexivity.
  - vm_compute. reflexivity.
  - reflexivity.
  - vm_compute. reflexivity.
  - reflexivity.
Defined.

(** C10: a successful [apply_patch] inserts the snippet once, at the end of
    the match that starts leftmost in the content read, and nowhere else:
    the text read back is the content up to that end, the snippet, and the
    rest of the content unchanged.  The anchor expression allows one end
    for a given start, so that end is the end of the first match. *)
Theorem apply_patch_inserts_after_first_match p m w r w' :
  apply_patch p m w = (Ret r, w') -> success r = true ->
  exists c i j,
    open_read_text p w = (Ret c, w)
    /\ (i <= j <= length c)%nat
    /\ re.occurs pattern c i (j - i)
    /\ (forall i' n', re.occurs pattern c i' n' ->
          (i <= i')%nat /\ (i' = i -> (i + n')%nat = j))
    /\ open_read_text p w'
       = (Ret (take j c ++ patch_code m ++ drop j c), w')
    /\ file_bytes w' p
       = Some (utf8.encode (take j c ++ patch_code m ++ drop j c)).
Proof.
  intros Hrun Hok.
  destruct (apply_patch_success_text _ _ _ _ _ Hrun Hok)
    as (c & mt & Hr & _ & Hfind & Hbytes & Hback).
  destruct (search_Some _ _ _ Hfind) as (Hle & Hocc & Hleft).
  exists c, (re.m_start mt), (re.m_end mt).
  split; [by apply open_read_text_Ret |]. split; [done |]. split; [done |].
  split; [|split; [by apply open_read_text_Ret | done]].
  intros i' n' Hocc'. split; [by eapply Hleft |]. intros ->.
  rewrite (occurs_unique _ _ _ _ _ pattern_unambiguous Hocc' Hocc). lia.
Qed.

Lemma apply_patch_inserts_after_first_match_witness :
  exists c i j,
    open_read_text sample_file two_anchors_world = (Ret c, two_anchors_world)
    /\ (i <= j <= length c)%nat
    /\ re.occurs pattern c i (j - i)
    /\ (forall i' n', re.occurs pattern c i' n' ->
          (i <= i')%nat /\ (i' = i -> (i + n')%nat = j))
    /\ open_read_text sample_file
         (apply_patch sample_file EMPTY two_anchors_world).2
       = (Ret (take j c ++ patch_code EMPTY ++ drop j c),
          (apply_patch sample_file EMPTY two_anchors_world).2)
    /\ file_bytes (apply_patch sample_file EMPTY two_anchors_world).2
         sample_file
       = Some (utf8.encode (take j c ++ patch_code EMPTY ++ drop j c)).
Proof.
  apply (apply_patch_inserts_after_first_match sample_file EMPTY
           two_anchors_world
           (mkPatchResult true "补丁应用成功"
              "ext/extension.js" "ext/extension_ori.js")).
  - vm_compute. reflexivity.
  - reflexivity.
Defined.

(** With two matches in the file, the snippet follows the first and the
    second is left as it was. *)
Example two_anchors_patched :
  _find_callapi_function two_anchors_js = Some (re.mkMatch 0 18)
  /\ _find_callapi_function (drop 18 two_anchors_js)
     = Some (re.mkMatch 3 24)
  /\ file_bytes (apply_patch sample_file EMPTY two_anchors_world).2 sample_file
     = Some (ascii_text "async callApi(a) {" ++ patch_code EMPTY
             ++ ascii_text " } async  callApi (b)  { }").
Proof. repeat split; vm_compute; reflexivity. Qed.

(** The insertion is one of text: line ends are those of text mode, so a
    CR LF of the file is read as LF and written as LF on this host. *)
Example crlf_read_as_lf :
  let w := World (sample_fs (Entry (Reg ([47; 47; 13; 10] ++ sample_js))
                               420 true)) 10000 [] in
  open_read_text sample_file w = (Ret ([47; 47; 10] ++ sample_js), w)
  /\ file_bytes (apply_patch sample_file EMPTY w).2 sample_file
     = Some ([47; 47; 10] ++ take 31 sample_js ++ patch_code EMPTY
             ++ drop 31 sample_js).
Proof. split; vm_compute; reflexivity. Qed.

(** * Further properties *)

(** ** Permission bits *)

Lemma testbit_write_flag x :
  (N.land x stat.S_IWUSR =? 0) = false -> N.testbit x 7 = true.
Proof.
  rewrite N.eqb_neq. intros H. destruct (N.testbit x 7) eqn:Hb; [done |].
  exfalso. apply H. apply N.bits_inj. intros n.
  rewrite N.land_spec, N.bits_0. change stat.S_IWUSR with (2 ^ 7).
  rewrite N.pow2_bits_eqb. destruct (N.eqb_spec 7 n) as [<-|];
    [by rewrite Hb | apply andb_false_r].
Qed.

Lemma lor_write_flag x :
  (N.land x stat.S_IWUSR =? 0) = false -> N.lor x stat.S_IWUSR = x.
Proof.
  intros H%testbit_write_flag. apply N.bits_inj. intros n.
  rewrite N.lor_spec. change stat.S_IWUSR with (2 ^ 7).
  rewrite N.pow2_bits_eqb. destruct (N.eqb_spec 7 n) as [<-|];
    [by rewrite H | apply orb_false_r].
Qed.

Lemma st_perms_add_write_flag e :
  st_perms (add_write_flag e) = N.lor (st_perms e) stat.S_IWUSR.
Proof.
  unfold add_write_flag, st_perms at 1. simpl. unfold stat.S_IMODE.
  rewrite <- N.land_assoc. simpl. rewrite N.land_lor_distr_l. simpl.
  f_equal. unfold st_perms, stat.S_IMODE. by rewrite <- N.land_assoc.
Qed.


(** X2: once [_ensure_write_permissions] has answered [True], a second call
    answers [True] again and changes nothing: no mode, no line on the
    console. *)
Theorem ensure_write_permissions_twice p w w' :
  _ensure_write_permissions p w = (Ret true, w') ->
  _ensure_write_permissions p w' = (Ret true, w').
Proof.
  rewrite !ensure_run. destruct (w_fs w !! p) as [e|] eqn:Hp.
  2:{ intros [= <-]. by rewrite Hp. }
  destruct (lacks_write_flag e) eqn:Hl.
  2:{ intros [= <-]. by rewrite Hp, Hl. }
  destruct (e_owned e); [|done]. intros [= <-]. simpl.
  by rewrite lookup_insert_eq, lacks_write_flag_add.
Qed.

Lemma ensure_write_permissions_twice_witness :
  let w' := (_ensure_write_permissions sample_file own_readonly_world).2 in
  w_fs w' !! sample_file = Some (Entry (Reg sample_js) 420 true)
  /\ _ensure_write_permissions sample_file w' = (Ret true, w').
Proof.
  split; [by vm_compute |].
  apply (ensure_write_permissions_twice sample_file own_readonly_world).
  by vm_compute.
Defined.

(** ** The name of the backup *)

Lemma substring_0_all s : substring 0 (String.length s) s = s.
Proof. induction s as [|a s IH]; simpl; [done | by rewrite IH]. Qed.

Lemma substring_split s : forall i,
  (i <= String.length s)%nat ->
  substring 0 i s +:+ substring i (String.length s - i) s = s.
Proof.
  induction s as [|a s IH]; intros [|i] Hi; simpl in *; try done; try lia.
  - by rewrite substring_0_all.
  - change (String a (substring 0 i s +:+ substring i (String.length s - i) s)
            = String a s).
    by rewrite IH by lia.
Qed.

Lemma string_app_empty_r s : s +:+ "" = s.
Proof.
  induction s as [|a s IH]; [done |].
  change (String a (s +:+ "") = String a s). by rewrite IH.
Qed.

Lemma stem_suffix_name p :
  pathlib.stem p +:+ pathlib.suffix p = pathlib.name p.
Proof.
  unfold pathlib.stem, pathlib.suffix, pathlib.suffix_index.
  destruct (pathlib.rfind "." (pathlib.name p)) as [i|] eqn:Hi;
    [|apply string_app_empty_r].
  apply rfind_lt in Hi.
  destruct ((0 <? i)%nat && (i <? String.length (pathlib.name p) - 1)%nat).
  - apply substring_split. lia.
  - apply string_app_empty_r.
Qed.

Lemma name_snoc (d : list string) n : pathlib.name (d ++ [n]) = n.
Proof. unfold pathlib.name. by rewrite last_snoc. Qed.

(** X3: a path has a backup when its name is not empty, and only then.  The
    backup is in the directory of the file; its name is the name of the
    file with [_ori] put between the stem and the suffix, which together
    are the name; it is never the file itself. *)
Theorem backup_of_name p :
  (backup_of p = None <-> pathlib.name p = "")
  /\ forall b, backup_of p = Some b ->
       removelast b = removelast p
       /\ pathlib.name b = pathlib.stem p +:+ "_ori" +:+ pathlib.suffix p
       /\ pathlib.stem p +:+ pathlib.suffix p = pathlib.name p
       /\ b <> p.
Proof.
  split.
  - unfold backup_of, pathlib.with_name.
    destruct (String.eqb_spec (pathlib.name p) ""); split; done.
  - intros b Hb. destruct (backup_path_ne p b Hb) as [Hne _].
    apply with_name_Some in Hb as (_ & -> & _).
    by rewrite removelast_snoc, name_snoc, stem_suffix_name.
Qed.

Lemma string_app_assoc s t u : (s +:+ t) +:+ u = s +:+ t +:+ u.
Proof.
  induction s as [|a s IH]; [done |].
  change (String a ((s +:+ t) +:+ u) = String a (s +:+ t +:+ u)).
  by rewrite IH.
Qed.

Lemma rfind_app c s t :
  pathlib.rfind c (s +:+ t)
  = match pathlib.rfind c t with
    | Some j => Some (String.length s + j)%nat
    | None => pathlib.rfind c s
    end.
Proof.
  induction s as [|a s IH].
  { change ("" +:+ t) with t. by destruct (pathlib.rfind c t). }
  change (pathlib.rfind c (String a s +:+ t))
    with (match pathlib.rfind c (s +:+ t) with
          | Some i => Some (S i)
          | None => if Ascii.eqb a c then Some 0%nat else None
          end).
  rewrite IH. by destruct (pathlib.rfind c t).
Qed.

Lemma substring_app_l s t : substring 0 (String.length s) (s +:+ t) = s.
Proof.
  induction s as [|a s IH]; [change ("" +:+ t) with t; by destruct t |].
  change (String a (substring 0 (String.length s) (s +:+ t)) = String a s).
  by rewrite IH.
Qed.

Lemma substring_app_r s t :
  substring (String.length s) (String.length t) (s +:+ t) = t.
Proof.
  induction s as [|a s IH]; [apply substring_0_all | exact IH].
Qed.

(** X4: the backup of a file that has an extension has the same extension,
    and [_ori] at the end of its stem. *)
Theorem backup_keeps_suffix p b :
  backup_of p = Some b -> pathlib.suffix p <> "" ->
  pathlib.suffix b = pathlib.suffix p
  /\ pathlib.stem b = pathlib.stem p +:+ "_ori".
Proof.
  intros Hb Hsuf. apply with_name_Some in Hb as (_ & Hb & _).
  assert (Hname : pathlib.name b
                  = (pathlib.stem p +:+ "_ori") +:+ pathlib.suffix p).
  { by rewrite Hb, name_snoc, string_app_assoc. }
  assert (Hlen : (2 <= String.length (pathlib.suffix p))%nat
                 /\ pathlib.rfind "." (pathlib.suffix p) = Some 0%nat).
  { pose proof (stem_suffix_name p) as Hsplit. revert Hsuf Hsplit.
    unfold pathlib.stem, pathlib.suffix, pathlib.suffix_index.
    destruct (pathlib.rfind "." (pathlib.name p)) as [i|] eqn:Hi; [|done].
    destruct (Nat.ltb_spec 0 i); [|done].
    destruct (Nat.ltb_spec i (String.length (pathlib.name p) - 1)); [|done].
    simpl. intros _ Hsplit.
    split; [rewrite substring_length; lia |].
    rewrite <- Hsplit, rfind_app in Hi.
    assert (String.length (substring 0 i (pathlib.name p)) = i) as Hl
      by (apply substring_length; lia).
    destruct (pathlib.rfind "." (substring _ _ _)) as [j|] eqn:Hj.
    - rewrite Hl in Hi. injection Hi as Hi. f_equal. lia.
    - apply rfind_lt in Hi. lia. }
  destruct Hlen as [Hlen Hdot].
  assert (Hpos : (0 < String.length (pathlib.stem p +:+ "_ori"))%nat)
    by (rewrite string_app_length; simpl; lia).
  unfold pathlib.suffix at 1, pathlib.stem at 1, pathlib.suffix_index.
  rewrite Hname, rfind_app, Hdot, Nat.add_0_r.
  rewrite (string_app_length (_ +:+ "_ori") (pathlib.suffix p)).
  set (n := String.length (pathlib.stem p +:+ "_ori")) in *.
  destruct (Nat.ltb_spec 0 n); [|lia].
  destruct (Nat.ltb_spec n (n + String.length (pathlib.suffix p) - 1)); [|lia].
  simpl. split; [|apply substring_app_l].
  replace (_ + _ - _)%nat with (String.length (pathlib.suffix p)) by lia.
  apply substring_app_r.
Qed.

Lemma backup_keeps_suffix_witness :
  pathlib.suffix sample_backup = ".js"
  /\ pathlib.stem sample_backup = "extension_ori".
Proof.
  apply (backup_keeps_suffix sample_file sample_backup); by vm_compute.
Defined.

(** ** [_create_backup] *)

(** X5: [_create_backup] never raises, and touches no path but the backup.
    When it answers [False] the path it returns is empty.  When it answers
    [True] the path is the backup: one that was there is left as it was;
    one that was not is now a file of the user's with the bytes and the
    permission bits of the file, which could be read. *)
Theorem create_backup_copies p w :
  exists ok bp w',
    _create_backup p w = (Ret (ok, bp), w')
    /\ (forall q, backup_of p <> Some q -> w_fs w' !! q = w_fs w !! q)
    /\ w_fs w' !! p = w_fs w !! p
    /\ (ok = false -> bp = [])
    /\ (ok = true ->
        backup_of p = Some bp
        /\ match w_fs w !! bp with
           | Some eb => w_fs w' !! bp = Some eb
           | None =>
             exists e data, w_fs w !! p = Some e /\ e_node e = Reg data
               /\ may_read e = true
               /\ w_fs w' !! bp = Some (Entry (Reg data) (st_perms e) true)
           end).
Proof.
  cut (wp (_create_backup p)
         (fun o w' => exists ok bp, o = Ret (ok, bp)
            /\ (forall q, backup_of p <> Some q -> w_fs w' !! q = w_fs w !! q)
            /\ (ok = false -> bp = [])
            /\ (ok = true ->
                backup_of p = Some bp
                /\ match w_fs w !! bp with
                   | Some eb => w_fs w' !! bp = Some eb
                   | None =>
                     exists e data, w_fs w !! p = Some e /\ e_node e = Reg data
                       /\ may_read e = true
                       /\ w_fs w' !! bp
                          = Some (Entry (Reg data) (st_perms e) true)
                   end)) w).
  { unfold wp. destruct (_create_backup p w) as [o w']. simpl.
    intros (ok & bp & -> & Hframe & Hno & Hyes). exists ok, bp, w'.
    split; [done |]. split; [done |]. split; [|done].
    apply Hframe. intros Hb. by destruct (backup_path_ne p p Hb). }
  unfold _create_backup. wp_steps. apply wp_backup_path_of.
  destruct (backup_of p) as [b|] eqn:Hb; [|wp_steps; by exists false, []].
  wp_steps. destruct (w_fs w !! b) as [eb|] eqn:Heb; wp_pure.
  { wp_steps. exists true, b. rewrite Heb. done. }
  wp_steps. wp_use copy2_spec. unfold copy2_dst. rewrite Heb.
  intros [d|ex] w1 (Hcon & Hframe & Hres).
  - destruct Hres as (-> & Hne & e & data & Hp & Hnode & Hread & Hb1).
    wp_steps. exists true, b. split; [done |].
    split; [intros q Hq; apply Hframe; congruence |]. split; [done |].
    intros _. split; [done |]. rewrite Heb. by exists e, data.
  - wp_steps. exists false, []. split; [done |].
    split; [intros q Hq; apply Hframe; congruence | done].
Qed.

(** X6: when the device has no room for the whole backup, [_create_backup]
    answers [False] and leaves the part that fitted under the name of the
    backup; at the next call that part passes for the backup. *)
Theorem create_backup_partial p b e data d w :
  backup_of p = Some b -> w_fs w !! b = None ->
  w_fs w !! p = Some e -> e_node e = Reg data -> may_read e = true ->
  w_fs w !! removelast p = Some d -> e_node d = Dir -> may_write d = true ->
  w_free w < size data ->
  exists msg w' w'',
    _create_backup p w = (Ret (false, []), w')
    /\ w_console w' = w_console w ++ [(ERROR, "创建备份失败: " +:+ msg)]
    /\ file_bytes w' b = Some (take (N.to_nat (w_free w)) data)
    /\ (length (take (N.to_nat (w_free w)) data) < length data)%nat
    /\ _create_backup p w' = (Ret (true, b), w'')
    /\ w_fs w'' = w_fs w'.
Proof.
  intros Hb Heb Hp Hnode Hread Hd Hdir Hwrite Hfree.
  destruct (backup_path_ne p b Hb) as [Hne _].
  pose proof Hb as (Hnil & Hbp & _)%with_name_Some.
  assert (Hrl : removelast b = removelast p)
    by (by rewrite Hbp, removelast_snoc).
  assert (Hbnil : b <> []) by (rewrite Hbp; by destruct (removelast p)).
  clear Hbp.
  assert (Hrun : _create_backup p w
    = (Ret (false, []),
       logged ERROR ("创建备份失败: " +:+ exn_str (NoSpaceError b))
         (World (<[b := Entry (Reg (take (N.to_nat (w_free w)) data)) 420 true]>
                   (w_fs w)) 0 (w_console w)))).
  { apply wp_eq. unfold _create_backup. wp_steps. apply wp_backup_path_of.
    rewrite Hb. wp_steps. rewrite Heb. wp_steps.
    unfold shutil.copy2, shutil.copyfile. wp_steps. rewrite Heb. wp_steps.
    rewrite Hp. wp_pure. rewrite bool_decide_eq_false_2 by done.
    wp_steps. rewrite Hp, Hnode, Hread. apply wp_write_file.
    rewrite Heb, Hrl, Hd, Hdir, Hwrite. destruct b; [done |]. wp_steps.
    destruct (N.leb_spec (size data) (w_free w)); [lia |]. by wp_steps. }
  eexists _, _, _. split; [exact Hrun |]. split; [done |].
  split; [unfold file_bytes; simpl; by rewrite lookup_insert_eq |].
  split; [rewrite length_take; unfold size in Hfree; lia |].
  split; [eapply create_backup_existing; [done |]; simpl;
          by rewrite lookup_insert_eq |].
  done.
Qed.

Lemma create_backup_partial_witness :
  exists msg w' w'',
    _create_backup sample_file tight_world = (Ret (false, []), w')
    /\ w_console w' = w_console tight_world ++ [(ERROR, "创建备份失败: " +:+ msg)]
    /\ file_bytes w' sample_backup
       = Some (take (N.to_nat (w_free tight_world)) sample_js)
    /\ (length (take (N.to_nat (w_free tight_world)) sample_js)
        < length sample_js)%nat
    /\ _create_backup sample_file w' = (Ret (true, sample_backup), w'')
    /\ w_fs w'' = w_fs w'.
Proof.
  apply (create_backup_partial sample_file sample_backup
           (Entry (Reg sample_js) 420 true) sample_js (Entry Dir 493 true));
    by vm_compute.
Defined.

(** ** Signatures *)

Lemma patched_content_is_patched c m j :
  _is_already_patched (patched_content c m j) = true.
Proof.
  apply is_already_patched_spec.
  destruct (patched_content_signatures c m j) as [H _].
  exists (js "randSessionId").
  split; [|apply H]; apply list_elem_of_In; simpl; tauto.
Qed.

(** X7: one signature, wherever it stands, makes a content patched; text
    added before or after a patched content leaves it patched; a content
    with the snippet of any mode put in at any place is patched; the empty
    content is not. *)
Theorem is_already_patched_any_signature :
  (forall sig a b, sig ∈ patch_signatures ->
     _is_already_patched (a ++ sig ++ b) = true)
  /\ (forall c a b, _is_already_patched c = true ->
        _is_already_patched (a ++ c ++ b) = true)
  /\ (forall c m j, _is_already_patched (patched_content c m j) = true)
  /\ _is_already_patched [] = false.
Proof.
  split; [|split; [|split; [|done]]].
  - intros sig a b Hsig. apply is_already_patched_spec.
    exists sig. split; [done |]. by exists a, b.
  - intros c a b (sig & Hsig & x & y & ->)%is_already_patched_spec.
    apply is_already_patched_spec. exists sig. split; [done |].
    exists (a ++ x), (y ++ b). by rewrite <- !app_assoc.
  - apply patched_content_is_patched.
Qed.

(** ** The anchor *)

Lemma in_cls_Chr a c : re.in_cls (re.Chr a) c = true -> c = a.
Proof. by intros ?%N.eqb_eq. Qed.

Lemma matches_anchor_text l :
  re.matches pattern l
  <-> exists ws1 ws2 args ws3,
        anchor_parts ws1 ws2 args ws3 /\ l = anchor_text ws1 ws2 args ws3.
Proof.
  split.
  - intros H. cbv in H.
    repeat match goal with
           | H : re.matches (_ :: _) _ |- _ => inversion H; subst; clear H
           | H : re.matches [] _ |- _ => inversion H; subst; clear H
           | H : re.in_cls (re.Chr _) _ = true |- _ =>
             apply in_cls_Chr in H; subst
           end.
    match goal with
    | |- context [?c :: ?w1 ++ 99 :: 97 :: 108 :: 108 :: 65 :: 112 :: 105
                  :: ?w2 ++ 40 :: ?a ++ 41 :: ?w3 ++ [123]] =>
      exists (c :: w1), w2, a, w3
    end.
    split; [|done]. unfold anchor_parts. split; [done |].
    split; [by constructor |]. split; [done |]. split; [|done].
    eapply Forall_impl; [eassumption |]. simpl. intros x Hx ->. done.
  - intros (ws1 & ws2 & args & ws3 & (Hne & H1 & H2 & Ha & H3) & ->).
    destruct ws1 as [|c ws1]; [done |]. apply Forall_cons in H1 as [Hc H1].
    unfold anchor_text, pattern, re.literal. simpl.
    repeat (apply re.matches_one; [done |]).
    apply re.matches_plus; [done | done |].
    repeat (apply re.matches_one; [done |]).
    apply re.matches_star; [done |]. apply (re.matches_one _ _ 40); [done |].
    apply re.matches_star.
    { eapply Forall_impl; [exact Ha |]. simpl. intros x Hx.
      by apply negb_true_iff, N.eqb_neq. }
    apply (re.matches_one _ _ 41); [done |].
    apply re.matches_star; [done |]. apply (re.matches_one _ [] 123); [done |].
    constructor.
Qed.

Lemma anchor_text_length ws1 ws2 args ws3 :
  length (anchor_text ws1 ws2 args ws3)
  = (16 + length ws1 + length ws2 + length args + length ws3 - 1)%nat.
Proof. unfold anchor_text. rewrite !length_app. simpl. lia. Qed.

(** X8: what [_find_callapi_function] returns is the span of a text made of
    [async], white space, [callApi], maybe white space, a parameter list in
    parentheses without a closing parenthesis inside, maybe white space and
    an opening brace: at least 16 characters.  It returns [None] only for a
    content that has no such text in it. *)
Theorem find_callapi_function_shape c :
  match _find_callapi_function c with
  | Some mt =>
    (re.m_start mt + 16 <= re.m_end mt <= length c)%nat
    /\ exists ws1 ws2 args ws3,
         anchor_parts ws1 ws2 args ws3
         /\ take (re.m_end mt - re.m_start mt) (drop (re.m_start mt) c)
            = anchor_text ws1 ws2 args ws3
  | None =>
    forall pre post ws1 ws2 args ws3,
      anchor_parts ws1 ws2 args ws3 ->
      c <> pre ++ anchor_text ws1 ws2 args ws3 ++ post
  end.
Proof.
  unfold _find_callapi_function.
  destruct (re.search pattern c) as [mt|] eqn:Hs.
  - apply search_Some in Hs as ([Hle Hlen] & [Hin Hm] & _).
    pose proof Hm as (ws1 & ws2 & args & ws3 & Hparts & Htxt)%matches_anchor_text.
    split; [|by exists ws1, ws2, args, ws3].
    split; [|done]. apply (f_equal length) in Htxt.
    rewrite anchor_text_length, length_take, length_drop in Htxt.
    destruct Hparts as [Hne _]. destruct ws1; [done |]. simpl in Htxt. lia.
  - intros pre post ws1 ws2 args ws3 Hparts ->.
    apply (search_None _ _ Hs (length pre)
             (length (anchor_text ws1 ws2 args ws3))).
    split; [rewrite !length_app; lia |].
    rewrite drop_app_length, take_app_length.
    apply matches_anchor_text. by exists ws1, ws2, args, ws3.
Qed.

(** ** [apply_patch], step by step *)

Lemma apply_patch_found p m w c mt :
  read_text w p = Some c -> _is_already_patched c = false ->
  _find_callapi_function c = Some mt ->
  apply_patch p m w
  = match _ensure_write_permissions p (started p m w) with
    | (Ret true, w1) =>
      match _create_backup p w1 with
      | (Ret (true, bp), w2) =>
        match open_write_text p (patched_content c m (re.m_end mt)) w2 with
        | (Ret _, w3) =>
          (Ret (mkPatchResult true "补丁应用成功"
                  (pathlib.str p) (pathlib.str bp)), announced p m w3)
        | (Raise e, w3) =>
          (Ret (failed ("写入补丁文件失败: " +:+ exn_str e)),
           (restore_after_failed_write bp p w3).2)
        end
      | (Ret (false, _), w2) => (Ret (failed "创建备份失败"), w2)
      | (Raise e, w2) => (Ret (failed ("补丁操作失败: " +:+ exn_str e)), w2)
      end
    | (Ret false, w1) => (Ret (failed "无法获取文件写权限"), w1)
    | (Raise e, w1) => (Ret (failed ("补丁操作失败: " +:+ exn_str e)), w1)
    end.
Proof.
  intros Hr Hpat Hfind.
  pose proof Hr as (e & data & raw & Hp & _)%read_text_Some.
  apply wp_eq. unfold apply_patch. wp_steps. rewrite Hp. wp_steps.
  apply wp_read_text. fold (started p m w).
  change (read_text (started p m w) p) with (read_text w p). rewrite Hr.
  wp_pure. rewrite Hpat, Hfind. wp_steps.
  unfold wp at 1.
  destruct (_ensure_write_permissions p (started p m w)) as [[[|]|ex] w1];
    simpl; [|by wp_steps ..].
  wp_steps. unfold wp at 1.
  destruct (_create_backup p w1) as [[[[|] bp]|ex] w2];
    simpl; [|by wp_steps ..].
  wp_steps. unfold wp at 1.
  destruct (open_write_text p _ w2) as [[[]|ex] w3]; simpl; [by wp_steps |].
  wp_steps. unfold wp at 1.
  rewrite restore_after_failed_write_run.
  destruct ((_ensure_write_permissions p;; shutil.copy2 bp p) w3)
    as [[d|ex'] w4]; simpl; by wp_steps.
Qed.

(** The steps of a successful [apply_patch]. *)
Lemma apply_patch_success_run p m w r w' :
  apply_patch p m w = (Ret r, w') -> success r = true ->
  exists c mt e b w1 w2 w3,
    w_fs w !! p = Some e /\ read_text w p = Some c
    /\ _is_already_patched c = false /\ _find_callapi_function c = Some mt
    /\ backup_of p = Some b
    /\ _ensure_write_permissions p (started p m w) = (Ret true, w1)
    /\ _create_backup p w1 = (Ret (true, b), w2)
    /\ open_write_text p (patched_content c m (re.m_end mt)) w2 = (Ret tt, w3)
    /\ r = mkPatchResult true "补丁应用成功" (pathlib.str p) (pathlib.str b)
    /\ w' = announced p m w3.
Proof.
  intros Hrun Hok.
  destruct (w_fs w !! p) as [e|] eqn:Hp.
  2:{ rewrite apply_patch_missing in Hrun by done.
      injection Hrun as <- <-. done. }
  destruct (read_text w p) as [c|] eqn:Hr.
  2:{ destruct (apply_patch_unreadable p m w) as [ex H]; [done | done |].
      rewrite H in Hrun. injection Hrun as <- <-. done. }
  destruct (_is_already_patched c) eqn:Hpat.
  { rewrite (apply_patch_already_patched p m w c) in Hrun by done.
    injection Hrun as <- <-. done. }
  destruct (_find_callapi_function c) as [mt|] eqn:Hfind.
  2:{ rewrite (apply_patch_no_anchor p m w c) in Hrun by done.
      injection Hrun as <- <-. done. }
  rewrite (apply_patch_found p m w c mt) in Hrun by done.
  destruct (_ensure_write_permissions p (started p m w))
    as [[[|]|ex] w1] eqn:E1; [| injection Hrun as <- <-; done ..].
  pose proof (create_backup_spec p w1) as Hspec. unfold wp in Hspec.
  destruct (_create_backup p w1) as [[[[|] bp]|ex] w2] eqn:E2;
    [| injection Hrun as <- <-; done ..].
  simpl in Hspec. destruct Hspec as (ok & bp' & [= <- <-] & Hspec).
  destruct (backup_of p) as [b|] eqn:Hb; [|by destruct Hspec].
  assert (bp = b) as ->.
  { destruct Hspec as [_ Hspec]. destruct (w_fs w1 !! b); [tauto |].
    by destruct (Hspec eq_refl). }
  destruct (open_write_text p _ w2) as [[[]|ex] w3] eqn:E3;
    [| injection Hrun as <- <-; done].
  injection Hrun as <- <-. by exists c, mt, e, b, w1, w2, w3.
Qed.

Lemma create_backup_ok p b w w' :
  backup_of p = Some b -> _create_backup p w = (Ret (true, b), w') ->
  (forall q, q <> b -> w_fs w' !! q = w_fs w !! q)
  /\ match w_fs w !! b with
     | Some eb =>
       w_fs w' !! b = Some eb
       /\ w_console w'
          = w_console w ++ [(WARNING, "备份文件已存在: " +:+ pathlib.str b)]
     | None =>
       (exists e data, w_fs w !! p = Some e /\ e_node e = Reg data
          /\ may_read e = true
          /\ w_fs w' !! b = Some (Entry (Reg data) (st_perms e) true))
       /\ w_console w'
          = w_console w ++ [(SUCCESS, "备份创建成功: " +:+ pathlib.str b)]
     end.
Proof.
  intros Hb. destruct (w_fs w !! b) as [eb|] eqn:Heb.
  { rewrite (create_backup_existing p b eb) by done. intros [= <-]. simpl.
    split; done. }
  intros Hrun.
  assert (H : wp (_create_backup p)
    (fun o w' => o = Ret (true, b) ->
       (forall q, q <> b -> w_fs w' !! q = w_fs w !! q)
       /\ (exists e data, w_fs w !! p = Some e /\ e_node e = Reg data
             /\ may_read e = true
             /\ w_fs w' !! b = Some (Entry (Reg data) (st_perms e) true))
       /\ w_console w'
          = w_console w ++ [(SUCCESS, "备份创建成功: " +:+ pathlib.str b)]) w).
  2:{ unfold wp in H. rewrite Hrun in H. by apply H. }
  clear Hrun. unfold _create_backup. wp_steps. apply wp_backup_path_of.
  rewrite Hb. wp_steps. rewrite Heb. wp_steps.
  wp_use copy2_spec. unfold copy2_dst. rewrite Heb.
  intros [d|ex] w1 (Hcon & Hframe & Hres); [|by wp_steps].
  destruct Hres as (-> & Hne & e & data & Hp & Hnode & Hread & Hb1).
  wp_steps. intros _. split; [done |]. split; [by exists e, data |].
  by rewrite Hcon.
Qed.

Lemma ensure_true p w e w1 :
  w_fs w !! p = Some e -> _ensure_write_permissions p w = (Ret true, w1) ->
  w_fs w1 = <[p := writable_entry e]> (w_fs w)
  /\ w_free w1 = w_free w
  /\ e_owned (writable_entry e) = e_owned e
  /\ w_console w1
     = w_console w
       ++ (if lacks_write_flag e
           then [(INFO, "已为文件添加写权限: " +:+ pathlib.str p)] else []).
Proof.
  intros Hp. rewrite ensure_run, Hp. unfold writable_entry.
  destruct (lacks_write_flag e).
  - destruct (e_owned e) eqn:Ho; [|done]. by intros [= <-].
  - intros [= <-]. by rewrite insert_id, app_nil_r.
Qed.

Lemma writable_entry_node e : e_node (writable_entry e) = e_node e.
Proof. unfold writable_entry. by destruct (lacks_write_flag e). Qed.

Lemma writable_entry_perms e :
  st_perms (writable_entry e) = N.lor (st_perms e) stat.S_IWUSR.
Proof.
  unfold writable_entry. destruct (lacks_write_flag e) eqn:Hl.
  - apply st_perms_add_write_flag.
  - by rewrite lor_write_flag.
Qed.

Lemma open_write_text_ok p s w e w' :
  w_fs w !! p = Some e -> open_write_text p s w = (Ret tt, w') ->
  w_fs w' !! p = Some (Entry (Reg (utf8.encode s)) (e_mode e) (e_owned e))
  /\ (forall q, q <> p -> w_fs w' !! q = w_fs w !! q)
  /\ w_console w' = w_console w.
Proof.
  intros Hp Hrun. pose proof (open_write_text_spec p s w) as H.
  unfold wp in H. rewrite Hrun in H. simpl in H.
  destruct H as (Hcon & Hframe & _ & e' & Hp' & Hn & Hsame).
  destruct (Hsame e Hp) as [Hm Ho]. split; [|done].
  rewrite Hp'. destruct e'. simpl in *. by subst.
Qed.

(** What a successful [apply_patch] leaves. *)
Lemma apply_patch_success_state p m w r w' :
  apply_patch p m w = (Ret r, w') -> success r = true ->
  exists c mt e b,
    w_fs w !! p = Some e /\ read_text w p = Some c
    /\ _is_already_patched c = false /\ _find_callapi_function c = Some mt
    /\ backup_of p = Some b
    /\ r = mkPatchResult true "补丁应用成功" (pathlib.str p) (pathlib.str b)
    /\ w_fs w' !! p
       = Some (Entry (Reg (utf8.encode (patched_content c m (re.m_end mt))))
                 (e_mode (writable_entry e)) (e_owned e))
    /\ w_fs w' !! b
       = Some match w_fs w !! b with
              | Some eb => eb
              | None => Entry (e_node e) (st_perms (writable_entry e)) true
              end
    /\ (forall q, q <> p -> q <> b -> w_fs w' !! q = w_fs w !! q)
    /\ w_console w'
       = w_console w ++ start_lines p m
         ++ backup_lines p b e (bool_decide (w_fs w !! b = None))
         ++ report_lines p m.
Proof.
  intros Hrun Hok.
  destruct (apply_patch_success_run p m w r w' Hrun Hok)
    as (c & mt & e & b & w1 & w2 & w3 & Hp & Hr & Hpat & Hfind & Hb
        & E1 & E2 & E3 & -> & ->).
  destruct (backup_path_ne p b Hb) as [Hne _].
  apply ensure_true with (e := e) in E1 as (Hfs1 & _ & Ho1 & Hc1); [|done].
  apply create_backup_ok in E2 as [Hf2 Hb2]; [|done].
  assert (Hp2 : w_fs w2 !! p = Some (writable_entry e)).
  { rewrite Hf2, Hfs1 by done. apply lookup_insert_eq. }
  apply open_write_text_ok with (e := writable_entry e) in E3
    as (Hp3 & Hf3 & Hc3); [|done].
  exists c, mt, e, b. do 6 (split; [done |]).
  split; [simpl; by rewrite Hp3, Ho1 |].
  assert (Hb1 : w_fs w1 !! b = w_fs w !! b).
  { rewrite Hfs1. by apply lookup_insert_ne. }
  rewrite Hb1 in Hb2. unfold backup_lines.
  split; [|split].
  - simpl. rewrite Hf3 by done. destruct (w_fs w !! b) as [eb|]; [tauto |].
    destruct Hb2 as [(e1 & data & Hp1 & Hn1 & _ & ->) _].
    rewrite Hfs1, lookup_insert_eq in Hp1. injection Hp1 as <-.
    by rewrite <- Hn1, writable_entry_node.
  - intros q Hq Hqb. simpl. rewrite Hf3, Hf2, Hfs1 by done.
    by apply lookup_insert_ne.
  - simpl. rewrite Hc3.
    destruct (w_fs w !! b) as [eb|]; destruct Hb2 as [_ ->]; rewrite Hc1;
      simpl; by rewrite <- !app_assoc.
Qed.

(** ** A successful [apply_patch] *)

(** X9: a successful [apply_patch] returns the names of the file and of its
    backup, and both are there afterwards.  The file keeps its owner; its
    permission bits are the ones it had with 0o200 set.  A backup that was
    there is the entry it was; a new one is the user's, holds what the file
    held, and has the permission bits of the file with 0o200 set.  No other
    path has changed. *)
Theorem apply_patch_success_entries p m w r w' :
  apply_patch p m w = (Ret r, w') -> success r = true ->
  exists b e e' eb',
    backup_of p = Some b
    /\ r = mkPatchResult true "补丁应用成功" (pathlib.str p) (pathlib.str b)
    /\ w_fs w !! p = Some e /\ w_fs w' !! p = Some e'
    /\ w_fs w' !! b = Some eb'
    /\ is_Some (file_bytes w' p)
    /\ st_perms e' = N.lor (st_perms e) stat.S_IWUSR
    /\ e_owned e' = e_owned e
    /\ eb' = match w_fs w !! b with
             | Some eb => eb
             | None =>
               Entry (e_node e) (N.lor (st_perms e) stat.S_IWUSR) true
             end
    /\ (forall q, q <> p -> q <> b -> w_fs w' !! q = w_fs w !! q).
Proof.
  intros Hrun Hok.
  destruct (apply_patch_success_state p m w r w' Hrun Hok)
    as (c & mt & e & b & Hp & _ & _ & _ & Hb & -> & Hp' & Hb' & Hframe & _).
  eexists b, e, _, _. do 4 (split; [done |]). split; [exact Hb' |].
  split; [unfold file_bytes; by rewrite Hp' |].
  split; [apply writable_entry_perms |]. split; [done |].
  split; [|done]. by rewrite writable_entry_perms.
Qed.

Lemma apply_patch_success_entries_witness :
  exists b e e' eb',
    backup_of sample_file = Some b
    /\ mkPatchResult true "补丁应用成功" "ext/extension.js" "ext/extension_ori.js"
       = mkPatchResult true "补丁应用成功" (pathlib.str sample_file)
           (pathlib.str b)
    /\ w_fs own_readonly_world !! sample_file = Some e
    /\ w_fs (apply_patch sample_file BLOCK own_readonly_world).2 !! sample_file
       = Some e'
    /\ w_fs (apply_patch sample_file BLOCK own_readonly_world).2 !! b
       = Some eb'
    /\ is_Some (file_bytes (apply_patch sample_file BLOCK own_readonly_world).2
                  sample_file)
    /\ st_perms e' = N.lor (st_perms e) stat.S_IWUSR
    /\ e_owned e' = e_owned e
    /\ eb' = match w_fs own_readonly_world !! b with
             | Some eb => eb
             | None =>
               Entry (e_node e) (N.lor (st_perms e) stat.S_IWUSR) true
             end
    /\ (forall q, q <> sample_file -> q <> b ->
          w_fs (apply_patch sample_file BLOCK own_readonly_world).2 !! q
          = w_fs own_readonly_world !! q).
Proof.
  apply (apply_patch_success_entries sample_file BLOCK own_readonly_world).
  - vm_compute. reflexivity.
  - reflexivity.
Defined.

(** X10: what a successful [apply_patch] writes on the console: the two
    opening lines with the mode and its description, the line of the mode
    change if the owner's write bit had to be set, the line of the backup
    (a warning for one that was there, a success for a new one), and the
    three closing lines; nothing at the level of an error. *)
Theorem apply_patch_success_console p m w r w' :
  apply_patch p m w = (Ret r, w') -> success r = true ->
  exists b e,
    backup_of p = Some b /\ w_fs w !! p = Some e
    /\ w_console w'
       = w_console w ++ start_lines p m
         ++ backup_lines p b e (bool_decide (w_fs w !! b = None))
         ++ report_lines p m
    /\ forall msg, (ERROR, msg) ∉ drop (length (w_console w)) (w_console w').
Proof.
  intros Hrun Hok.
  destruct (apply_patch_success_state p m w r w' Hrun Hok)
    as (c & mt & e & b & Hp & _ & _ & _ & Hb & _ & _ & _ & _ & Hcon).
  exists b, e. do 3 (split; [done |]). intros msg.
  rewrite Hcon, drop_app_length. unfold start_lines, backup_lines, report_lines.
  rewrite list_elem_of_In.
  destruct (lacks_write_flag e), (bool_decide _); simpl; intuition congruence.
Qed.

Lemma apply_patch_success_console_witness :
  exists b e,
    backup_of sample_file = Some b
    /\ w_fs own_readonly_world !! sample_file = Some e
    /\ w_console (apply_patch sample_file RANDOM own_readonly_world).2
       = w_console own_readonly_world ++ start_lines sample_file RANDOM
         ++ backup_lines sample_file b e
              (bool_decide (w_fs own_readonly_world !! b = None))
         ++ report_lines sample_file RANDOM
    /\ forall msg,
         (ERROR, msg)
         ∉ drop (length (w_console own_readonly_world))
             (w_console (apply_patch sample_file RANDOM own_readonly_world).2).
Proof.
  apply (apply_patch_success_console sample_file RANDOM own_readonly_world
           (mkPatchResult true "补丁应用成功"
              "ext/extension.js" "ext/extension_ori.js")).
  - vm_compute. reflexivity.
  - reflexivity.
Defined.

(** The lines of a patch of the user's read-only file. *)
Example own_readonly_console :
  w_console (apply_patch sample_file RANDOM own_readonly_world).2
  = [ (INFO, "开始补丁文件: ext/extension.js");
      (INFO, "补丁模式: random - 随机假数据 - 服务器收到无意义数据");
      (INFO, "已为文件添加写权限: ext/extension.js");
      (SUCCESS, "备份创建成功: ext/extension_ori.js");
      (SUCCESS, "补丁应用成功: ext/extension.js");
      (INFO, "效果: 随机假数据 - 服务器收到无意义数据");
      (INFO, "隐私保护已启用!") ].
Proof. by vm_compute. Qed.

(** X11: before a successful [apply_patch] the status of the file is
    not-patched, after it the status is patched. *)
Theorem status_after_apply_patch ls gt p m w r w' :
  apply_patch p m w = (Ret r, w') -> success r = true ->
  get_patch_status ls gt p w
  = (Ret (status_text ls gt "patch.status.not_patched" "not patched"), w)
  /\ get_patch_status ls gt p w'
     = (Ret (status_text ls gt "patch.status.patched" "patched"), w').
Proof.
  intros Hrun Hok.
  destruct (apply_patch_success_state p m w r w' Hrun Hok)
    as (c & mt & e & b & Hp & Hr & Hpat & _ & _ & _ & Hp' & _).
  destruct (apply_patch_success_text p m w r w' Hrun Hok)
    as (c' & mt' & Hr' & _ & _ & _ & Hread).
  rewrite !get_patch_status_run, Hp, Hr, Hpat, Hp', Hread.
  split; [done |].
  by rewrite patched_content_is_patched.
Qed.

Lemma status_after_apply_patch_witness :
  get_patch_status false id sample_file sample_world
  = (Ret (status_text false id "patch.status.not_patched" "not patched"),
     sample_world)
  /\ get_patch_status false id sample_file
       (apply_patch sample_file DEBUG sample_world).2
     = (Ret (status_text false id "patch.status.patched" "patched"),
        (apply_patch sample_file DEBUG sample_world).2).
Proof.
  apply (status_after_apply_patch false id sample_file DEBUG sample_world
           (mkPatchResult true "补丁应用成功"
              "ext/extension.js" "ext/extension_ori.js")).
  - vm_compute. reflexivity.
  - reflexivity.
Defined.

(** ** Bytes and text *)

Lemma div_mod_64 q r :
  r < 64 -> (64 * q + r) / 64 = q /\ (64 * q + r) mod 64 = r.
Proof.
  intros Hr. split; symmetry;
    [apply N.div_unique with r | apply N.mod_unique with q]; lia.
Qed.

Lemma is_cont_range b : utf8.is_cont b = true -> exists x, b = 128 + x /\ x < 64.
Proof.
  unfold utf8.is_cont. intros [?%N.leb_le ?%N.ltb_lt]%andb_true_iff.
  exists (b - 128). lia.
Qed.

Lemma lead_range lo hi b :
  (lo <=? b) && (b <? hi) = true -> exists x, b = lo + x /\ x < hi - lo.
Proof.
  intros [?%N.leb_le ?%N.ltb_lt]%andb_true_iff. exists (b - lo). lia.
Qed.

Lemma encode_one_cp2 b0 b1 :
  (192 <=? b0) && (b0 <? 224) = true -> utf8.is_cont b1 = true ->
  (128 <=? utf8.cp2 b0 b1) = true ->
  utf8.encode_one (utf8.cp2 b0 b1) = [b0; b1].
Proof.
  intros (x0 & -> & H0)%lead_range (x1 & -> & H1)%is_cont_range Hc%N.leb_le.
  revert Hc. unfold utf8.cp2.
  replace ((192 + x0 - 192) * 64 + (128 + x1 - 128)) with (64 * x0 + x1) by lia.
  intros Hc. unfold utf8.encode_one.
  destruct (div_mod_64 x0 x1 H1) as [-> ->].
  destruct (N.ltb_spec (64 * x0 + x1) 128); [lia |].
  destruct (N.ltb_spec (64 * x0 + x1) 2048); [done | lia].
Qed.

Lemma encode_one_cp3 b0 b1 b2 :
  (224 <=? b0) && (b0 <? 240) = true ->
  utf8.is_cont b1 = true -> utf8.is_cont b2 = true ->
  (2048 <=? utf8.cp3 b0 b1 b2) = true ->
  utf8.encode_one (utf8.cp3 b0 b1 b2) = [b0; b1; b2].
Proof.
  intros (x0 & -> & H0)%lead_range (x1 & -> & H1)%is_cont_range
    (x2 & -> & H2)%is_cont_range Hc%N.leb_le.
  revert Hc. unfold utf8.cp3.
  replace ((224 + x0 - 224) * 4096 + (128 + x1 - 128) * 64 + (128 + x2 - 128))
    with (64 * (64 * x0 + x1) + x2) by lia.
  intros Hc. unfold utf8.encode_one.
  change 4096 with (64 * 64). rewrite <- N.Div0.div_div.
  destruct (div_mod_64 (64 * x0 + x1) x2 H2) as [-> ->].
  destruct (div_mod_64 x0 x1 H1) as [-> ->].
  destruct (N.ltb_spec (64 * (64 * x0 + x1) + x2) 128); [lia |].
  destruct (N.ltb_spec (64 * (64 * x0 + x1) + x2) 2048); [lia |].
  destruct (N.ltb_spec (64 * (64 * x0 + x1) + x2) 65536); [done | lia].
Qed.

Lemma encode_one_cp4 b0 b1 b2 b3 :
  (240 <=? b0) && (b0 <? 248) = true ->
  utf8.is_cont b1 = true -> utf8.is_cont b2 = true -> utf8.is_cont b3 = true ->
  (65536 <=? utf8.cp4 b0 b1 b2 b3) = true ->
  utf8.encode_one (utf8.cp4 b0 b1 b2 b3) = [b0; b1; b2; b3].
Proof.
  intros (x0 & -> & H0)%lead_range (x1 & -> & H1)%is_cont_range
    (x2 & -> & H2)%is_cont_range (x3 & -> & H3)%is_cont_range Hc%N.leb_le.
  revert Hc. unfold utf8.cp4.
  replace ((240 + x0 - 240) * 262144 + (128 + x1 - 128) * 4096
           + (128 + x2 - 128) * 64 + (128 + x3 - 128))
    with (64 * (64 * (64 * x0 + x1) + x2) + x3) by lia.
  intros Hc. unfold utf8.encode_one.
  change 262144 with (64 * 64 * 64). change 4096 with (64 * 64).
  rewrite <- !N.Div0.div_div.
  destruct (div_mod_64 (64 * (64 * x0 + x1) + x2) x3 H3) as [-> ->].
  destruct (div_mod_64 (64 * x0 + x1) x2 H2) as [-> ->].
  destruct (div_mod_64 x0 x1 H1) as [-> ->].
  destruct (N.ltb_spec (64 * (64 * (64 * x0 + x1) + x2) + x3) 128); [lia |].
  destruct (N.ltb_spec (64 * (64 * (64 * x0 + x1) + x2) + x3) 2048); [lia |].
  destruct (N.ltb_spec (64 * (64 * (64 * x0 + x1) + x2) + x3) 65536);
    [lia | done].
Qed.

Lemma encode_decode_aux n : forall bs s,
  (length bs <= n)%nat -> utf8.decode bs = Some s -> utf8.encode s = bs.
Proof.
  induction n as [|n IH]; intros bs s Hn.
  { destruct bs; [|simpl in Hn; lia]. simpl. by intros [= <-]. }
  destruct bs as [|b0 r]; [simpl; by intros [= <-] |].
  simpl in Hn. cbn [utf8.decode].
  destruct (N.ltb_spec b0 128).
  { destruct (utf8.decode r) as [s'|] eqn:E; [|done]. intros [= <-].
    cbn [utf8.encode flat_map]. fold (utf8.encode s').
    rewrite (IH r s') by (done || lia). unfold utf8.encode_one.
    destruct (N.ltb_spec b0 128); [done | lia]. }
  destruct ((192 <=? b0) && (b0 <? 224)) eqn:E2.
  { destruct r as [|b1 r1]; [done |].
    destruct (utf8.is_cont b1 && (128 <=? utf8.cp2 b0 b1)) eqn:Eok; [|done].
    apply andb_true_iff in Eok as [? ?].
    destruct (utf8.decode r1) as [s'|] eqn:E; [|done]. intros [= <-].
    cbn [utf8.encode flat_map]. fold (utf8.encode s').
    rewrite (IH r1 s') by (done || simpl in Hn; lia).
    by rewrite encode_one_cp2. }
  destruct ((224 <=? b0) && (b0 <? 240)) eqn:E3.
  { destruct r as [|b1 [|b2 r2]]; [done | done |].
    destruct (utf8.is_cont b1 && utf8.is_cont b2
              && (2048 <=? utf8.cp3 b0 b1 b2) && utf8.scalar (utf8.cp3 b0 b1 b2))
      eqn:Eok; [|done].
    apply andb_true_iff in Eok as [[[? ?]%andb_true_iff ?]%andb_true_iff ?].
    destruct (utf8.decode r2) as [s'|] eqn:E; [|done]. intros [= <-].
    cbn [utf8.encode flat_map]. fold (utf8.encode s').
    rewrite (IH r2 s') by (done || simpl in Hn; lia).
    by rewrite encode_one_cp3. }
  destruct ((240 <=? b0) && (b0 <? 248)) eqn:E4; [|done].
  destruct r as [|b1 [|b2 [|b3 r3]]]; [done | done | done |].
  destruct (utf8.is_cont b1 && utf8.is_cont b2 && utf8.is_cont b3
            && (65536 <=? utf8.cp4 b0 b1 b2 b3)
            && utf8.scalar (utf8.cp4 b0 b1 b2 b3)) eqn:Eok; [|done].
  apply andb_true_iff in Eok
    as [[[[? ?]%andb_true_iff ?]%andb_true_iff ?]%andb_true_iff ?].
  destruct (utf8.decode r3) as [s'|] eqn:E; [|done]. intros [= <-].
  cbn [utf8.encode flat_map]. fold (utf8.encode s').
  rewrite (IH r3 s') by (done || simpl in Hn; lia).
  by rewrite encode_one_cp4.
Qed.

(** Strict decoding has one preimage: what was decoded encodes to the
    bytes it came from. *)
Lemma encode_decode bs s : utf8.decode bs = Some s -> utf8.encode s = bs.
Proof. by apply (encode_decode_aux (length bs)). Qed.

Lemma no_cr_encode_one c : no_cr (utf8.encode_one c) = negb (c =? 13).
Proof.
  unfold utf8.encode_one.
  destruct (N.ltb_spec c 128); [simpl; apply andb_true_r |].
  assert (Hc : (c =? 13) = false) by (apply N.eqb_neq; lia). rewrite Hc.
  assert (Hb : forall a x, 128 <= a -> (a + x =? 13) = false)
    by (intros; apply N.eqb_neq; lia).
  destruct (c <? 2048); [|destruct (c <? 65536)]; simpl;
    by rewrite !Hb by lia.
Qed.

(** A CR is in the bytes when it is in the text, and only then. *)
Lemma no_cr_encode s : no_cr (utf8.encode s) = no_cr s.
Proof.
  induction s as [|c s IH]; [done |].
  change (utf8.encode (c :: s)) with (utf8.encode_one c ++ utf8.encode s).
  rewrite no_cr_app, no_cr_encode_one, IH. done.
Qed.

(** X12: the file a successful [apply_patch] leaves has no CR in it.  When
    the file had none before, its bytes are the bytes it had with the
    snippet between two of them, nothing else added, dropped or moved. *)
Theorem apply_patch_inserts_bytes p m w r w' :
  apply_patch p m w = (Ret r, w') -> success r = true ->
  exists data data',
    file_bytes w p = Some data /\ file_bytes w' p = Some data'
    /\ no_cr data' = true
    /\ (no_cr data = true ->
        exists k, (k <= length data)%nat
          /\ data' = take k data ++ patch_code m ++ drop k data).
Proof.
  intros Hrun Hok.
  destruct (apply_patch_success_text p m w r w' Hrun Hok)
    as (c & mt & Hr & _ & _ & Hbytes & _).
  destruct (read_text_wf w p c Hr) as [Hsc Hcr].
  destruct (read_text_bytes w p c Hr) as (data & raw & Hdata & Hdec & ->).
  exists data. eexists. split; [done |]. split; [exact Hbytes |].
  split.
  { rewrite no_cr_encode. by apply patched_content_wf. }
  intros Hno. apply encode_decode in Hdec as <-.
  rewrite no_cr_encode in Hno. rewrite universal_newlines_id by done.
  unfold patched_content. rewrite !encode_app.
  rewrite (encode_ascii (patch_code m)) by apply patch_code_ascii.
  set (j := re.m_end mt).
  assert (Henc : utf8.encode raw
                 = utf8.encode (take j raw) ++ utf8.encode (drop j raw))
    by (by rewrite <- encode_app, take_drop).
  exists (length (utf8.encode (take j raw))).
  rewrite Henc, take_app_length, drop_app_length, length_app.
  split; [lia | done].
Qed.

Lemma apply_patch_inserts_bytes_witness :
  exists data data',
    file_bytes sample_world sample_file = Some data
    /\ file_bytes (apply_patch sample_file EMPTY sample_world).2 sample_file
       = Some data'
    /\ no_cr data' = true
    /\ (no_cr data = true ->
        exists k, (k <= length data)%nat
          /\ data' = take k data ++ patch_code EMPTY ++ drop k data).
Proof.
  apply (apply_patch_inserts_bytes sample_file EMPTY sample_world
           (mkPatchResult true "补丁应用成功"
              "ext/extension.js" "ext/extension_ori.js")).
  - vm_compute. reflexivity.
  - reflexivity.
Defined.

(** ** What the operations touch *)

Lemma touches_refl S w : touches S w w.
Proof. split; [done |]. intros q e ?. by exists e. Qed.

Lemma touches_same_fs S w w' : w_fs w' = w_fs w -> touches S w w'.
Proof. intros H. unfold touches. rewrite H. apply touches_refl. Qed.

Lemma touches_trans S w1 w2 w3 :
  touches S w1 w2 -> touches S w2 w3 -> touches S w1 w3.
Proof.
  intros [Hf1 Hk1] [Hf2 Hk2]. split.
  - intros q Hq. by rewrite Hf2, Hf1.
  - intros q e He. destruct (Hk1 q e He) as (e1 & He1 & Hs1).
    destruct (Hk2 q e1 He1) as (e2 & He2 & Hs2). exists e2.
    split; [done |]. unfold same_kind in *. tauto.
Qed.

Lemma touches_mono S S' w w' :
  (forall q, q ∈ S -> q ∈ S') -> touches S w w' -> touches S' w w'.
Proof. intros Hsub [Hf Hk]. split; [|done]. intros q Hq. apply Hf. auto. Qed.

Lemma touches_insert p e' w w' :
  w_fs w' = <[p := e']> (w_fs w) ->
  (forall e, w_fs w !! p = Some e -> same_kind e e') ->
  touches [p] w w'.
Proof.
  intros Hfs Hkind. unfold touches. rewrite Hfs. split.
  - intros q Hq. apply lookup_insert_ne. intros ->. apply Hq. by left.
  - intros q e He. destruct (decide (q = p)) as [->|Hne].
    + exists e'. rewrite lookup_insert_eq. auto.
    + exists e. by rewrite lookup_insert_ne.
Qed.

Lemma write_file_touches p bs w :
  wp (write_file p bs) (fun _ w' => touches [p] w w') w.
Proof.
  apply wp_write_file.
  assert (Hstore : forall mode owned avail,
    (forall e, w_fs w !! p = Some e -> e_node e <> Dir) ->
    wp (store p mode owned bs avail) (fun _ w' => touches [p] w w') w).
  { intros mode owned avail Hreg. apply wp_store.
    destruct (size bs <=? avail); cbv beta;
      (eapply touches_insert; [reflexivity |]);
      intros e He; (split; [by intros ?%(Hreg e He) | done]). }
  destruct (w_fs w !! p) as [e|] eqn:Hp.
  - destruct (e_node e) eqn:Hn; [apply touches_refl |].
    destruct (may_write e); [|apply touches_refl].
    apply Hstore. intros ? [= <-]. by rewrite Hn.
  - destruct p; [apply touches_refl |].
    destruct (w_fs w !! removelast _) as [d|]; [|apply touches_refl].
    destruct (e_node d); [|apply touches_refl].
    destruct (may_write d); [|apply touches_refl].
    by apply Hstore.
Qed.

Lemma open_write_text_touches p s w :
  wp (open_write_text p s) (fun _ w' => touches [p] w w') w.
Proof.
  unfold open_write_text. destruct (forallb utf8.scalar s).
  - apply write_file_touches.
  - wp_steps. wp_use write_file_touches. intros [[]|e] w' H; by wp_steps.
Qed.

Lemma copy2_touches src dst w :
  wp (shutil.copy2 src dst)
     (fun _ w' => touches [copy2_dst w src dst] w w') w.
Proof.
  unfold shutil.copy2, shutil.copyfile, shutil.copystat. cbv zeta. wp_steps.
  fold (copy2_dst w src dst). set (d := copy2_dst w src dst).
  assert (Hd : (if match w_fs w !! dst with
                   | Some (Entry Dir _ _) => true
                   | _ => false
                   end then dst ++ [pathlib.name src] else dst) = d).
  { unfold d, copy2_dst. destruct (w_fs w !! dst) as [[[|?] ? ?]|]; done. }
  rewrite !Hd. clearbody d. clear Hd.
  destruct (bool_decide (is_Some (w_fs w !! src)) && bool_decide (src = d));
    [wp_steps; apply touches_refl |].
  wp_steps. destruct (w_fs w !! src) as [e|] eqn:Hsrc; [|apply touches_refl].
  destruct (e_node e) as [|data] eqn:Hnode; [apply touches_refl |].
  destruct (may_read e) eqn:Hread; [|apply touches_refl].
  wp_use write_file_touches. intros [[]|ex] w1 Ht1; [|done].
  wp_steps. destruct (w_fs w1 !! src) as [e1|]; [|done].
  wp_steps. destruct (w_fs w1 !! d) as [ed|] eqn:Hd1; [|done].
  destruct (e_owned ed) eqn:Ho; [|by wp_pure].
  wp_steps. rewrite Hd1, Ho. wp_steps.
  eapply touches_trans; [exact Ht1 |].
  eapply touches_insert; [done |].
  intros e0 He0. rewrite Hd1 in He0. by injection He0 as <-.
Qed.

Lemma ensure_touches p w :
  wp (_ensure_write_permissions p) (fun _ w' => touches [p] w w') w.
Proof.
  unfold wp. rewrite ensure_run.
  destruct (w_fs w !! p) as [e|] eqn:Hp; [|by apply touches_same_fs].
  destruct (lacks_write_flag e); [|by apply touches_same_fs].
  destruct (e_owned e); [|by apply touches_same_fs]. simpl.
  eapply touches_insert; [done |].
  intros e0 He0. rewrite Hp in He0. by injection He0 as <-.
Qed.

Lemma create_backup_touches p w :
  wp (_create_backup p)
     (fun _ w' => touches (option_list (backup_of p)) w w') w.
Proof.
  unfold _create_backup. wp_steps. apply wp_backup_path_of.
  destruct (backup_of p) as [b|] eqn:Hb; [|wp_steps; by apply touches_same_fs].
  wp_steps. destruct (w_fs w !! b) as [eb|] eqn:Heb; wp_pure.
  { wp_steps. by apply touches_same_fs. }
  wp_steps. wp_use copy2_touches. unfold copy2_dst. rewrite Heb.
  intros [d|ex] w1 Ht; by wp_steps.
Qed.

Lemma copy2_dst_file w src p e :
  w_fs w !! p = Some e -> e_node e <> Dir -> copy2_dst w src p = p.
Proof. unfold copy2_dst. intros -> ?. by destruct e as [[|?] ? ?]. Qed.

Lemma touches_file S w w' p e :
  touches S w w' -> w_fs w !! p = Some e -> e_node e <> Dir ->
  exists e', w_fs w' !! p = Some e' /\ e_node e' <> Dir.
Proof.
  intros [_ Hk] He Hn. destruct (Hk p e He) as (e' & He' & Hs).
  exists e'. split; [done |]. unfold same_kind in Hs. tauto.
Qed.

Lemma rollback_touches bp p w e :
  w_fs w !! p = Some e -> e_node e <> Dir ->
  touches [p] w (restore_after_failed_write bp p w).2.
Proof.
  intros He Hn.
  assert (H : wp (_ensure_write_permissions p;; shutil.copy2 bp p)
                (fun _ w' => touches [p] w w') w).
  { wp_steps. wp_use ensure_touches. intros o w1 T1.
    assert (touches [p] w w1 ->
            wp (shutil.copy2 bp p) (fun _ w' => touches [p] w w') w1) as Hc.
    { intros T. destruct (touches_file _ _ _ _ _ T He Hn) as (e1 & He1 & Hn1).
      wp_use copy2_touches. rewrite (copy2_dst_file _ _ _ _ He1 Hn1).
      intros _ w2 T2. by eapply touches_trans. }
    destruct o; [by apply Hc | done]. }
  rewrite restore_after_failed_write_run. unfold wp in H.
  destruct ((_ensure_write_permissions p;; shutil.copy2 bp p) w)
    as [[d|ex] w']; exact H.
Qed.

Lemma apply_patch_touches p m w :
  touches (p :: option_list (backup_of p)) w (apply_patch p m w).2.
Proof.
  destruct (w_fs w !! p) as [e|] eqn:Hp.
  2:{ rewrite apply_patch_missing by done. apply touches_refl. }
  destruct (read_text w p) as [c|] eqn:Hr.
  2:{ destruct (apply_patch_unreadable p m w) as [ex ->]; [done | done |].
      by apply touches_same_fs. }
  destruct (_is_already_patched c) eqn:Hpat.
  { rewrite (apply_patch_already_patched p m w c) by done.
    by apply touches_same_fs. }
  destruct (_find_callapi_function c) as [mt|] eqn:Hfind.
  2:{ rewrite (apply_patch_no_anchor p m w c) by done.
      by apply touches_same_fs. }
  rewrite (apply_patch_found p m w c mt) by done.
  pose proof Hr as (e0 & data & raw & Hp0 & Hnode & _)%read_text_Some.
  rewrite Hp in Hp0. injection Hp0 as <-.
  assert (Hn : e_node e <> Dir) by (by rewrite Hnode).
  set (S := p :: option_list (backup_of p)).
  assert (HpS : forall q, q ∈ [p] -> q ∈ S).
  { intros q ->%list_elem_of_singleton. by left. }
  assert (HbS : forall q, q ∈ option_list (backup_of p) -> q ∈ S)
    by (intros q Hq; by right).
  assert (T0 : touches S w (started p m w)) by (by apply touches_same_fs).
  destruct (_ensure_write_permissions p (started p m w)) as [o1 w1] eqn:E1.
  pose proof (wp_run _ _ _ _ _ E1 (ensure_touches p _)) as T1. simpl in T1.
  apply (touches_mono _ S) in T1; [|done].
  pose proof (touches_trans _ _ _ _ T0 T1) as T01.
  destruct o1 as [[|]|ex]; [|done ..].
  destruct (_create_backup p w1) as [o2 w2] eqn:E2.
  pose proof (wp_run _ _ _ _ _ E2 (create_backup_touches p _)) as T2.
  simpl in T2. apply (touches_mono _ S) in T2; [|done].
  pose proof (touches_trans _ _ _ _ T01 T2) as T02.
  destruct o2 as [[[|] bp]|ex]; [|done ..].
  destruct (open_write_text p _ w2) as [o3 w3] eqn:E3.
  pose proof (wp_run _ _ _ _ _ E3 (open_write_text_touches p _ _)) as T3.
  simpl in T3. pose proof T3 as T3'.
  apply (touches_mono _ S) in T3; [|done].
  pose proof (touches_trans _ _ _ _ T02 T3) as T03.
  destruct o3 as [[]|ex]; [exact T03 |]. simpl.
  eapply touches_trans; [exact T03 |].
  destruct (touches_file _ _ _ _ _ T03 Hp Hn) as (e3 & He3 & Hn3).
  eapply touches_mono; [exact HpS |]. by eapply rollback_touches.
Qed.

Lemma restore_touches p w :
  touches (p :: match backup_of p with
                | Some b => [p ++ [pathlib.name b]]
                | None => []
                end) w (restore_from_backup p w).2.
Proof.
  change (wp (restore_from_backup p)
            (fun _ w' => touches (p :: match backup_of p with
                                       | Some b => [p ++ [pathlib.name b]]
                                       | None => []
                                       end) w w') w).
  unfold restore_from_backup. wp_steps. apply wp_backup_path_of.
  destruct (backup_of p) as [b|] eqn:Hb; [|wp_steps; apply touches_refl].
  wp_steps. destruct (w_fs w !! b) as [eb|] eqn:Heb; wp_pure;
    [|wp_steps; apply touches_refl].
  wp_steps. wp_use ensure_touches. intros o w1 T1.
  set (S := [p; p ++ [pathlib.name b]]).
  apply (touches_mono _ S) in T1;
    [|intros q ->%list_elem_of_singleton; by left].
  destruct o as [[|]|ex]; wp_steps; [|done ..].
  wp_use copy2_touches. intros o w2 T2.
  assert (touches S w w2) as T.
  { eapply touches_trans; [exact T1 |]. eapply touches_mono; [|exact T2].
    intros q ->%list_elem_of_singleton. unfold copy2_dst, S.
    destruct (w_fs w1 !! p) as [[[|?] ? ?]|];
      apply list_elem_of_In; simpl; tauto. }
  destruct o; by wp_steps.
Qed.

(** X13: whatever sequence of [apply_patch], [restore_from_backup] and
    [get_patch_status] runs on a target, only the target, its backup and,
    for a target that is a directory, the copy of the backup inside it can
    change or appear.  No path is removed, and no file becomes a directory
    or a directory a file. *)
Theorem operations_footprint ls gt p ops w :
  touches (p :: match backup_of p with
                | Some b => [b; p ++ [pathlib.name b]]
                | None => []
                end) w (perform_all ls gt p ops w).
Proof.
  set (S := p :: _).
  assert (Hop : forall w0 op, touches S w0 (perform ls gt p w0 op)).
  { intros w0 [m| |]; simpl.
    - eapply touches_mono; [|apply apply_patch_touches].
      intros q Hq%list_elem_of_In. apply list_elem_of_In. unfold S.
      destruct (backup_of p); simpl in *; tauto.
    - eapply touches_mono; [|apply restore_touches].
      intros q Hq%list_elem_of_In. apply list_elem_of_In. unfold S.
      destruct (backup_of p); simpl in *; tauto.
    - rewrite get_patch_status_run. apply touches_refl. }
  unfold perform_all. revert w.
  induction ops as [|op ops IH]; intros w; simpl; [apply touches_refl |].
  eapply touches_trans; [apply Hop | apply IH].
Qed.

Lemma ensure_keeps_bytes p w o w' :
  _ensure_write_permissions p w = (o, w') -> file_bytes w' p = file_bytes w p.
Proof.
  intros E. pose proof (wp_run _ _ _ _ _ E (ensure_spec p w)) as H.
  simpl in H. destruct H as (ok & _ & _ & H). unfold file_bytes.
  destruct (w_fs w !! p) as [e|]; [|by rewrite H].
  destruct H as (e' & -> & -> & _). done.
Qed.

Lemma create_backup_keeps_file p w o w' :
  _create_backup p w = (o, w') -> w_fs w' !! p = w_fs w !! p.
Proof.
  intros E. pose proof (wp_run _ _ _ _ _ E (create_backup_spec p w)) as H.
  simpl in H. destruct H as (ok & bp & _ & H).
  destruct (backup_of p) as [b|] eqn:Hb; [|destruct H as [_ ->]; done].
  destruct (backup_path_ne p b Hb) as [Hne _]. destruct H as [H _].
  apply H. congruence.
Qed.

(** X14: a failed [apply_patch] names no file and no backup in its result.
    Unless the failure is that of the write, the file holds the bytes it
    held. *)
Theorem apply_patch_failure_keeps_content p m w r w' :
  apply_patch p m w = (Ret r, w') -> success r = false ->
  file_path r = "" /\ backup_path r = ""
  /\ ((forall e, message r <> "写入补丁文件失败: " +:+ exn_str e) ->
      file_bytes w' p = file_bytes w p).
Proof.
  intros Hrun Hfail.
  destruct (w_fs w !! p) as [e|] eqn:Hp.
  2:{ rewrite apply_patch_missing in Hrun by done.
      by injection Hrun as <- <-. }
  destruct (read_text w p) as [c|] eqn:Hr.
  2:{ destruct (apply_patch_unreadable p m w) as [ex H]; [done | done |].
      rewrite H in Hrun. by injection Hrun as <- <-. }
  destruct (_is_already_patched c) eqn:Hpat.
  { rewrite (apply_patch_already_patched p m w c) in Hrun by done.
    by injection Hrun as <- <-. }
  destruct (_find_callapi_function c) as [mt|] eqn:Hfind.
  2:{ rewrite (apply_patch_no_anchor p m w c) in Hrun by done.
      by injection Hrun as <- <-. }
  rewrite (apply_patch_found p m w c mt) in Hrun by done.
  destruct (_ensure_write_permissions p (started p m w)) as [o1 w1] eqn:E1.
  apply ensure_keeps_bytes in E1.
  change (file_bytes (started p m w) p) with (file_bytes w p) in E1.
  destruct o1 as [[|]|ex]; [| by injection Hrun as <- <- ..].
  destruct (_create_backup p w1) as [o2 w2] eqn:E2.
  apply create_backup_keeps_file in E2.
  assert (E2' : file_bytes w2 p = file_bytes w p)
    by (rewrite <- E1; unfold file_bytes; by rewrite E2).
  destruct o2 as [[[|] bp]|ex]; [| by injection Hrun as <- <- ..].
  destruct (open_write_text p _ w2) as [[[]|ex] w3] eqn:E3;
    injection Hrun as <- <-; [done |].
  split; [done |]. split; [done |]. intros Hnw. by destruct (Hnw ex).
Qed.

Lemma apply_patch_failure_keeps_content_witness :
  file_path (failed "无法获取文件写权限") = ""
  /\ backup_path (failed "无法获取文件写权限") = ""
  /\ ((forall e, message (failed "无法获取文件写权限")
                 <> "写入补丁文件失败: " +:+ exn_str e) ->
      file_bytes (apply_patch sample_file BLOCK readonly_world).2 sample_file
      = file_bytes readonly_world sample_file).
Proof.
  apply (apply_patch_failure_keeps_content sample_file BLOCK readonly_world).
  - vm_compute. reflexivity.
  - reflexivity.
Defined.

(** ** [restore_from_backup], step by step *)

Lemma st_perms_masked n mode o :
  st_perms (Entry n (stat.S_IMODE mode) o) = stat.S_IMODE mode.
Proof. unfold st_perms. simpl. unfold stat.S_IMODE. by rewrite <- N.land_assoc. Qed.

(** [copy2] onto a file of the user's that may be written, with room. *)
Lemma copy2_onto_file src dst w es data ed old :
  w_fs w !! src = Some es -> e_node es = Reg data -> may_read es = true ->
  src <> dst ->
  w_fs w !! dst = Some ed -> e_node ed = Reg old -> e_owned ed = true ->
  may_write ed = true -> size data <= w_free w + size old ->
  shutil.copy2 src dst w
  = (Ret dst,
     World (<[dst := Entry (Reg data) (st_perms es) true]> (w_fs w))
           (w_free w + size old - size data) (w_console w)).
Proof.
  intros Hs Hsn Hsr Hne Hd Hdn Hdo Hdw Hroom. apply wp_eq.
  unfold shutil.copy2, shutil.copyfile, shutil.copystat. wp_steps.
  rewrite Hd. destruct ed as [nd md od]. simpl in *. subst nd od. wp_steps.
  rewrite Hs. wp_pure. rewrite bool_decide_eq_false_2 by done. wp_steps.
  rewrite Hs, Hsn, Hsr.
  eapply wp_of_run; [by eapply write_file_existing |]. wp_steps.
  rewrite lookup_insert_ne, Hs by done. wp_steps.
  rewrite lookup_insert_eq. wp_steps. rewrite lookup_insert_eq. wp_steps.
  by rewrite insert_insert_eq, S_IMODE_st_mode, st_perms_idemp.
Qed.

(** [copy2] to a path that is not there, in a directory that may be
    written, with room. *)
Lemma copy2_new_file src dst w es data d :
  w_fs w !! src = Some es -> e_node es = Reg data -> may_read es = true ->
  w_fs w !! dst = None -> dst <> [] ->
  w_fs w !! removelast dst = Some d -> e_node d = Dir -> may_write d = true ->
  size data <= w_free w ->
  shutil.copy2 src dst w
  = (Ret dst,
     World (<[dst := Entry (Reg data) (st_perms es) true]> (w_fs w))
           (w_free w - size data) (w_console w)).
Proof.
  intros Hs Hsn Hsr Hd Hnil Hdir Hdn Hdw Hroom. apply wp_eq.
  assert (Hne : src <> dst) by congruence.
  unfold shutil.copy2, shutil.copyfile, shutil.copystat. wp_steps.
  rewrite Hd. wp_steps.
  rewrite Hs. wp_pure. rewrite bool_decide_eq_false_2 by done. wp_steps.
  rewrite Hs, Hsn, Hsr.
  eapply wp_of_run; [by eapply write_file_new |]. wp_steps.
  rewrite lookup_insert_ne, Hs by done. wp_steps.
  rewrite lookup_insert_eq. wp_steps. rewrite lookup_insert_eq. wp_steps.
  by rewrite insert_insert_eq, S_IMODE_st_mode, st_perms_idemp.
Qed.

Lemma restore_found p b eb w :
  backup_of p = Some b -> w_fs w !! b = Some eb ->
  restore_from_backup p w
  = match _ensure_write_permissions p w with
    | (Ret true, w1) =>
      match shutil.copy2 b p w1 with
      | (Ret _, w2) =>
        (Ret (mkPatchResult true "恢复成功" (pathlib.str p) (pathlib.str b)),
         logged SUCCESS ("已从备份恢复: " +:+ pathlib.str p) w2)
      | (Raise e, w2) => (Ret (failed ("恢复失败: " +:+ exn_str e)), w2)
      end
    | (Ret false, w1) => (Ret (failed "无法获取文件写权限"), w1)
    | (Raise e, w1) => (Ret (failed ("恢复失败: " +:+ exn_str e)), w1)
    end.
Proof.
  intros Hb Heb. apply wp_eq. unfold restore_from_backup. wp_steps.
  apply wp_backup_path_of. rewrite Hb. wp_steps. rewrite Heb. wp_steps.
  unfold wp at 1.
  destruct (_ensure_write_permissions p w) as [[[|]|ex] w1];
    simpl; [|by wp_steps ..].
  wp_steps. unfold wp at 1.
  destruct (shutil.copy2 b p w1) as [[d|ex] w2]; simpl; by wp_steps.
Qed.

(** What a successful [restore_from_backup] leaves, for a target that is
    not a directory. *)
Lemma restore_success_state p w r w' :
  restore_from_backup p w = (Ret r, w') -> success r = true ->
  (forall e, w_fs w !! p = Some e -> e_node e <> Dir) ->
  exists b eb data,
    backup_of p = Some b /\ w_fs w !! b = Some eb /\ e_node eb = Reg data
    /\ may_read eb = true
    /\ r = mkPatchResult true "恢复成功" (pathlib.str p) (pathlib.str b)
    /\ w_fs w' !! p = Some (Entry (Reg data) (st_perms eb) true)
    /\ (forall q, q <> p -> w_fs w' !! q = w_fs w !! q).
Proof.
  intros Hrun Hok Hfile.
  destruct (backup_of p) as [b|] eqn:Hb.
  2:{ revert Hrun. unfold restore_from_backup, try_except, bind, backup_path_of.
      rewrite Hb. simpl. intros [= <- <-]. done. }
  destruct (backup_path_ne p b Hb) as [Hne _].
  destruct (w_fs w !! b) as [eb|] eqn:Heb.
  2:{ assert (H : restore_from_backup p w
                  = (Ret (failed ("备份文件不存在: " +:+ pathlib.str b)), w)).
      { apply wp_eq. unfold restore_from_backup. wp_steps.
        apply wp_backup_path_of. rewrite Hb. wp_steps. rewrite Heb.
        by wp_steps. }
      rewrite H in Hrun. by injection Hrun as <- <-. }
  rewrite (restore_found p b eb) in Hrun by done.
  destruct (_ensure_write_permissions p w) as [o1 w1] eqn:E1.
  pose proof (wp_run _ _ _ _ _ E1 (ensure_spec p w)) as H1. simpl in H1.
  destruct H1 as (ok & -> & Hf1 & Hp1).
  destruct ok; [|by injection Hrun as <- <-].
  destruct (shutil.copy2 b p w1) as [o2 w2] eqn:E2.
  pose proof (wp_run _ _ _ _ _ E2 (copy2_spec b p w1)) as H2. simpl in H2.
  assert (Hdst : copy2_dst w1 b p = p).
  { unfold copy2_dst. destruct (w_fs w !! p) as [e|] eqn:Hp.
    - destruct Hp1 as (e' & -> & Hn & _). specialize (Hfile e eq_refl).
      destruct e' as [[|?] ? ?]; [|done]. simpl in Hn. congruence.
    - by rewrite Hp1. }
  rewrite Hdst in H2. destruct H2 as (_ & Hf2 & H2).
  destruct o2 as [d|ex]; [|by injection Hrun as <- <-].
  injection Hrun as <- <-.
  destruct H2 as (-> & _ & eb' & data & Hb1 & Hn & Hread & Hp2).
  rewrite Hf1, Heb in Hb1 by done. injection Hb1 as <-.
  exists b, eb, data. do 5 (split; [done |]). split; [done |].
  intros q Hq. simpl. by rewrite Hf2, Hf1.
Qed.

(** [restore_from_backup] on a file of the user's, with a backup that can
    be read and room on the device. *)
Lemma restore_own_file p b eb data e old w :
  backup_of p = Some b -> w_fs w !! b = Some eb -> e_node eb = Reg data ->
  may_read eb = true ->
  w_fs w !! p = Some e -> e_node e = Reg old -> e_owned e = true ->
  size data <= w_free w + size old ->
  restore_from_backup p w
  = (Ret (mkPatchResult true "恢复成功" (pathlib.str p) (pathlib.str b)),
     World (<[p := Entry (Reg data) (st_perms eb) true]> (w_fs w))
           (w_free w + size old - size data)
           (w_console w
            ++ (if lacks_write_flag e
                then [(INFO, "已为文件添加写权限: " +:+ pathlib.str p)] else [])
            ++ [(SUCCESS, "已从备份恢复: " +:+ pathlib.str p)])).
Proof.
  intros Hb Heb Hbn Hbr Hp Hn Ho Hroom.
  destruct (backup_path_ne p b Hb) as [Hne _].
  rewrite (restore_found p b eb) by done. rewrite ensure_run, Hp, Ho.
  destruct (lacks_write_flag e) eqn:Hl.
  - erewrite (copy2_onto_file b p _ eb data (add_write_flag e) old);
      try done; simpl.
    + unfold logged. simpl. by rewrite insert_insert_eq, <- app_assoc.
    + by rewrite lookup_insert_ne.
    + apply lookup_insert_eq.
    + apply may_write_flag; [done | apply lacks_write_flag_add].
  - erewrite (copy2_onto_file b p _ eb data e old); try done.
    by apply may_write_flag.
Qed.

(** ** [restore_from_backup] *)

(** X15: without a backup [restore_from_backup] fails and changes nothing:
    no file, no line on the console.  Its message names the backup that is
    missing. *)
Theorem restore_from_backup_without_backup p b w :
  backup_of p = Some b -> w_fs w !! b = None ->
  restore_from_backup p w
  = (Ret (failed ("备份文件不存在: " +:+ pathlib.str b)), w).
Proof.
  intros Hb Heb. apply wp_eq. unfold restore_from_backup. wp_steps.
  apply wp_backup_path_of. rewrite Hb. wp_steps. rewrite Heb. by wp_steps.
Qed.

Lemma restore_from_backup_without_backup_witness :
  restore_from_backup sample_file sample_world
  = (Ret (failed ("备份文件不存在: " +:+ pathlib.str sample_backup)),
     sample_world).
Proof.
  apply (restore_from_backup_without_backup sample_file sample_backup);
    by vm_compute.
Defined.

(** X16: [restore_from_backup] brings back a file that is gone: with a
    backup that can be read, a directory that may be written and room on
    the device, it succeeds, and the file is there again as the user's,
    with the bytes and the permission bits of the backup. *)
Theorem restore_from_backup_recreates p b eb data d w :
  backup_of p = Some b -> w_fs w !! b = Some eb -> e_node eb = Reg data ->
  may_read eb = true -> w_fs w !! p = None ->
  w_fs w !! removelast p = Some d -> e_node d = Dir -> may_write d = true ->
  size data <= w_free w ->
  exists w',
    restore_from_backup p w
    = (Ret (mkPatchResult true "恢复成功" (pathlib.str p) (pathlib.str b)), w')
    /\ w_fs w' !! p = Some (Entry (Reg data) (st_perms eb) true)
    /\ forall q, q <> p -> w_fs w' !! q = w_fs w !! q.
Proof.
  intros Hb Heb Hbn Hbr Hp Hd Hdn Hdw Hroom.
  pose proof Hb as (Hnil & _)%with_name_Some.
  rewrite (restore_found p b eb) by done. rewrite ensure_run, Hp.
  erewrite (copy2_new_file b p w eb data d) by done.
  eexists. split; [done |]. simpl.
  split; [apply lookup_insert_eq |]. intros q Hq. by apply lookup_insert_ne.
Qed.

Lemma restore_from_backup_recreates_witness :
  exists w',
    restore_from_backup sample_file lost_target_world
    = (Ret (mkPatchResult true "恢复成功" (pathlib.str sample_file)
              (pathlib.str sample_backup)), w')
    /\ w_fs w' !! sample_file
       = Some (Entry (Reg sample_js)
                 (st_perms (Entry (Reg sample_js) 292 true)) true)
    /\ forall q, q <> sample_file ->
         w_fs w' !! q = w_fs lost_target_world !! q.
Proof.
  apply (restore_from_backup_recreates sample_file sample_backup
           (Entry (Reg sample_js) 292 true) sample_js (Entry Dir 493 true));
    by vm_compute.
Defined.

(** X17: on a file of the user's, with a backup that can be read and room
    on the device, [restore_from_backup] succeeds whatever the mode of the
    file: the file gets the bytes and the permission bits of the backup,
    and no other path changes. *)
Theorem restore_from_backup_succeeds p b eb data e old w :
  backup_of p = Some b -> w_fs w !! b = Some eb -> e_node eb = Reg data ->
  may_read eb = true ->
  w_fs w !! p = Some e -> e_node e = Reg old -> e_owned e = true ->
  size data <= w_free w + size old ->
  exists w',
    restore_from_backup p w
    = (Ret (mkPatchResult true "恢复成功" (pathlib.str p) (pathlib.str b)), w')
    /\ w_fs w' !! p = Some (Entry (Reg data) (st_perms eb) true)
    /\ (forall q, q <> p -> w_fs w' !! q = w_fs w !! q)
    /\ w_free w' = w_free w + size old - size data.
Proof.
  intros Hb Heb Hbn Hbr Hp Hn Ho Hroom.
  rewrite (restore_own_file p b eb data e old) by done.
  eexists. split; [done |]. simpl.
  split; [apply lookup_insert_eq |]. split; [|done].
  intros q Hq. by apply lookup_insert_ne.
Qed.

Lemma restore_from_backup_succeeds_witness :
  exists w',
    restore_from_backup sample_file stale_backup_world
    = (Ret (mkPatchResult true "恢复成功" (pathlib.str sample_file)
              (pathlib.str sample_backup)), w')
    /\ w_fs w' !! sample_file
       = Some (Entry (Reg (ascii_text "class Old { }"))
                 (st_perms (Entry (Reg (ascii_text "class Old { }")) 420 true))
                 true)
    /\ (forall q, q <> sample_file ->
          w_fs w' !! q = w_fs stale_backup_world !! q)
    /\ w_free w'
       = w_free stale_backup_world + size sample_js
         - size (ascii_text "class Old { }").
Proof.
  apply (restore_from_backup_succeeds sample_file sample_backup
           (Entry (Reg (ascii_text "class Old { }")) 420 true)
           (ascii_text "class Old { }")
           (Entry (Reg sample_js) 420 true) sample_js);
    by vm_compute.
Defined.

(** X18: restoring twice is restoring once: after a successful
    [restore_from_backup] of a target that is not a directory, a second
    one succeeds with the same result and leaves every file and the free
    space as the first left them. *)
Theorem restore_from_backup_twice p w r w1 :
  (forall e, w_fs w !! p = Some e -> e_node e <> Dir) ->
  restore_from_backup p w = (Ret r, w1) -> success r = true ->
  exists w2,
    restore_from_backup p w1 = (Ret r, w2)
    /\ w_fs w2 = w_fs w1 /\ w_free w2 = w_free w1.
Proof.
  intros Hfile Hrun Hok.
  destruct (restore_success_state p w r w1 Hrun Hok Hfile)
    as (b & eb & data & Hb & Heb & Hbn & Hbr & -> & Hp1 & Hf1).
  destruct (backup_path_ne p b Hb) as [Hne _].
  erewrite (restore_own_file p b eb data _ data w1);
    [| done | by rewrite Hf1 | done | done | exact Hp1 | done | done | lia].
  eexists. split; [done |]. simpl. split; [by apply insert_id | lia].
Qed.

Lemma restore_from_backup_twice_witness :
  exists w2,
    restore_from_backup sample_file
      (restore_from_backup sample_file stale_backup_world).2
    = (Ret (mkPatchResult true "恢复成功"
              "ext/extension.js" "ext/extension_ori.js"), w2)
    /\ w_fs w2 = w_fs (restore_from_backup sample_file stale_backup_world).2
    /\ w_free w2
       = w_free (restore_from_backup sample_file stale_backup_world).2.
Proof.
  apply (restore_from_backup_twice sample_file stale_backup_world).
  - intros e He. vm_compute in He. injection He as <-. done.
  - vm_compute. reflexivity.
  - reflexivity.
Defined.

(** X19: patching and restoring gives the file its content back, not its
    write protection: when no backup was there before [apply_patch], and
    [apply_patch] and then [restore_from_backup] succeed, the file is the
    user's, with what it held before and with the permission bits it had
    and 0o200. *)
Theorem restore_after_apply_entry p m w r1 w1 r2 w2 b e :
  backup_of p = Some b -> w_fs w !! b = None -> w_fs w !! p = Some e ->
  apply_patch p m w = (Ret r1, w1) -> success r1 = true ->
  restore_from_backup p w1 = (Ret r2, w2) -> success r2 = true ->
  w_fs w2 !! p
  = Some (Entry (e_node e) (N.lor (st_perms e) stat.S_IWUSR) true).
Proof.
  intros Hb Hnone Hp Hrun1 Hok1 Hrun2 Hok2.
  destruct (apply_patch_success_state p m w r1 w1 Hrun1 Hok1)
    as (c & mt & e0 & b0 & Hp0 & _ & _ & _ & Hb0 & _ & Hp1 & Hb1 & _).
  rewrite Hb in Hb0. injection Hb0 as <-.
  rewrite Hp in Hp0. injection Hp0 as <-. rewrite Hnone in Hb1.
  destruct (restore_success_state p w1 r2 w2 Hrun2 Hok2)
    as (b' & eb & data & Hb' & Heb & Hbn & _ & _ & Hp2 & _).
  { rewrite Hp1. by intros ? [= <-]. }
  rewrite Hb in Hb'. injection Hb' as <-.
  rewrite Hb1 in Heb. injection Heb as <-. simpl in Hbn.
  rewrite Hp2, Hbn. f_equal. f_equal.
  rewrite writable_entry_perms. unfold st_perms at 1. simpl.
  unfold stat.S_IMODE. rewrite N.land_lor_distr_l. f_equal.
  unfold st_perms, stat.S_IMODE. by rewrite <- N.land_assoc.
Qed.

Lemma restore_after_apply_entry_witness :
  w_fs (restore_from_backup sample_file
          (apply_patch sample_file BLOCK own_readonly_world).2).2 !! sample_file
  = Some (Entry (e_node (Entry (Reg sample_js) 292 true))
            (N.lor (st_perms (Entry (Reg sample_js) 292 true)) stat.S_IWUSR)
            true).
Proof.
  apply (restore_after_apply_entry sample_file BLOCK own_readonly_world
           (mkPatchResult true "补丁应用成功"
              "ext/extension.js" "ext/extension_ori.js")
           (apply_patch sample_file BLOCK own_readonly_world).2
           (mkPatchResult true "恢复成功"
              "ext/extension.js" "ext/extension_ori.js")
           (restore_from_backup sample_file
              (apply_patch sample_file BLOCK own_readonly_world).2).2
           sample_backup).
  - vm_compute. reflexivity.
  - vm_compute. reflexivity.
  - vm_compute. reflexivity.
  - vm_compute. reflexivity.
  - reflexivity.
  - vm_compute. reflexivity.
  - reflexivity.
Defined.

(** The user's read-only file, mode 0o444, is left with mode 0o644 by a
    patch and a restore. *)
Example own_readonly_round_trip :
  w_fs (restore_from_backup sample_file
          (apply_patch sample_file BLOCK own_readonly_world).2).2 !! sample_file
  = Some (Entry (Reg sample_js) 420 true).
Proof. by vm_compute. Qed.

(** ** The anchor in the patched content *)

Lemma slice_prefix {A} (c X : list A) a n j :
  (a + n <= j)%nat -> (j <= length c)%nat ->
  take n (drop a (take j c ++ X)) = take n (drop a c).
Proof.
  intros Han Hj. rewrite !take_drop_commute. f_equal.
  rewrite take_app_le by (rewrite length_take; lia).
  rewrite take_take. f_equal. lia.
Qed.

Lemma take_split {A} (l : list A) k n :
  (k <= n)%nat -> take n l = take k l ++ take (n - k) (drop k l).
Proof.
  intros Hk. rewrite take_take_drop. f_equal. lia.
Qed.

Lemma unique_split (x : N) l1 : forall l2 r1 r2,
  Forall (fun c => c <> x) l1 -> Forall (fun c => c <> x) r1 ->
  l1 ++ x :: r1 = l2 ++ x :: r2 -> l1 = l2 /\ r1 = r2.
Proof.
  induction l1 as [|a l1 IH]; intros [|b l2] r1 r2 H1 Hr; simpl.
  - by intros [= ->].
  - intros [= <- ->]. apply Forall_app in Hr as [_ Hr].
    by apply Forall_cons in Hr as [? _].
  - intros [= -> _]. by apply Forall_cons in H1 as [? _].
  - intros [= -> H]. apply Forall_cons in H1 as [_ H1].
    destruct (IH l2 r1 r2 H1 Hr H) as [-> ->]. done.
Qed.

Lemma isspace_not_paren c : re.isspace c = true -> c <> 41.
Proof. by intros H ->. Qed.

(** A text of the anchor's form has no text of that form in it that ends
    before it does. *)
Lemma anchor_text_ends ws1 ws2 args ws3 ws1' ws2' args' ws3' A B :
  anchor_parts ws1 ws2 args ws3 -> anchor_parts ws1' ws2' args' ws3' ->
  anchor_text ws1 ws2 args ws3 = A ++ anchor_text ws1' ws2' args' ws3' ++ B ->
  B = [].
Proof.
  intros (_ & H1 & H2 & Ha & H3) (_ & _ & _ & _ & H3') Heq.
  unfold anchor_text in Heq.
  assert (Hsp : forall l, Forall (fun c => re.isspace c = true) l ->
                  Forall (fun c => c <> 41) l).
  { intros l Hl. eapply Forall_impl; [exact Hl |].
    intros x. apply isspace_not_paren. }
  destruct (unique_split 41
    (ascii_text "async" ++ ws1 ++ ascii_text "callApi" ++ ws2 ++ [40] ++ args)
    (A ++ ascii_text "async" ++ ws1' ++ ascii_text "callApi" ++ ws2'
       ++ [40] ++ args')
    (ws3 ++ [123]) (ws3' ++ [123] ++ B)) as [_ Hv].
  - rewrite !Forall_app. repeat split; auto; by repeat constructor.
  - rewrite Forall_app. split; [auto | by repeat constructor].
  - rewrite <- !app_assoc in *. simpl in *. exact Heq.
  - simpl in Hv.
    pose proof (span_unique re.isspace ws3 ws3' 123 123 [] B H3 H3'
                  eq_refl eq_refl Hv) as ->.
    apply app_inv_head in Hv. by injection Hv as <-.
Qed.

(** X20: the snippet leaves the anchor where it was:
    [_find_callapi_function] finds in the patched content the match it
    found in the content, so that it is the test of the signatures alone
    that keeps a second [apply_patch] from patching again. *)
Theorem find_callapi_function_after_patch c m mt :
  _find_callapi_function c = Some mt ->
  _find_callapi_function (patched_content c m (re.m_end mt)) = Some mt.
Proof.
  unfold _find_callapi_function, patched_content. intros Hs.
  destruct (search_Some _ _ _ Hs) as ([Hij Hjc] & [Hin Hm] & Hleft).
  destruct mt as [i j]. simpl in *.
  set (c' := take j c ++ patch_code m ++ drop j c).
  assert (Hocc : re.occurs pattern c' i (j - i)).
  { split; [unfold c'; rewrite !length_app, length_take, length_drop; lia |].
    unfold c'. rewrite slice_prefix by lia. done. }
  destruct (search_occurs _ _ _ _ Hocc) as [[i' j'] Hs'].
  rewrite Hs'. f_equal.
  destruct (search_Some _ _ _ Hs') as ([Hij' Hjc'] & [Hin' Hm'] & Hleft').
  simpl in *. pose proof (Hleft' _ _ Hocc) as Hi'.
  assert (Hend : (j' <= j)%nat).
  { destruct (Nat.le_gt_cases j' j) as [|Hgt]; [done | exfalso].
    apply matches_anchor_text in Hm as (ws1 & ws2 & args & ws3 & Hp & Ht).
    apply matches_anchor_text in Hm' as (ws1' & ws2' & args' & ws3' & Hp' & Ht').
    rewrite (take_split _ (i - i')) in Ht' by lia.
    rewrite drop_drop in Ht'.
    rewrite (take_split (drop (i' + (i - i')) c') (j - i)) in Ht' by lia.
    rewrite drop_drop in Ht'.
    replace (i' + (i - i'))%nat with i in Ht' by lia.
    unfold c' in Ht' at 2. rewrite slice_prefix in Ht' by lia.
    rewrite Ht in Ht'. symmetry in Ht'.
    apply anchor_text_ends in Ht'; [|done ..].
    apply (f_equal length) in Ht'. rewrite length_take, length_drop in Ht'.
    simpl in Ht'. lia. }
  assert (Hocc' : re.occurs pattern c i' (j' - i')).
  { split; [lia |]. unfold c' in Hm'. rewrite slice_prefix in Hm' by lia.
    done. }
  pose proof (Hleft _ _ Hocc') as Hi.
  assert (i' = i) as -> by lia.
  pose proof (occurs_unique _ _ _ _ _ pattern_unambiguous Hocc'
                (conj Hin Hm)) as Hn.
  f_equal. lia.
Qed.

Lemma find_callapi_function_after_patch_witness :
  _find_callapi_function
    (patched_content two_anchors_js BLOCK (re.m_end (re.mkMatch 0 18)))
  = Some (re.mkMatch 0 18).
Proof.
  apply (find_callapi_function_after_patch two_anchors_js BLOCK).
  by vm_compute.
Defined.

(** ** The guards of [apply_patch] *)

(** X21: on a readable file that has no signature and has the anchor,
    [apply_patch] answers that it cannot get write permission when the
    file lacks the owner's write bit and is not the user's, and only then;
    it has then changed no file. *)
Theorem apply_patch_permission_refusal p m w c e :
  open_read_text p w = (Ret c, w) -> ~ has_signature c -> has_anchor c ->
  w_fs w !! p = Some e ->
  ((apply_patch p m w).1 = Ret (failed "无法获取文件写权限")
   <-> lacks_write_flag e = true /\ e_owned e = false)
  /\ ((apply_patch p m w).1 = Ret (failed "无法获取文件写权限") ->
      w_fs (apply_patch p m w).2 = w_fs w).
Proof.
  intros [_ Hr]%open_read_text_Ret Hpat%not_patched_spec
    [mt Hfind]%find_callapi_spec Hp.
  rewrite (apply_patch_found p m w c mt) by done.
  rewrite ensure_run. change (w_fs (started p m w)) with (w_fs w). rewrite Hp.
  assert (Hother : forall w1,
    (match _create_backup p w1 with
     | (Ret (true, bp), w2) =>
       match open_write_text p (patched_content c m (re.m_end mt)) w2 with
       | (Ret _, w3) =>
         (Ret (mkPatchResult true "补丁应用成功"
                 (pathlib.str p) (pathlib.str bp)), announced p m w3)
       | (Raise e, w3) =>
         (Ret (failed ("写入补丁文件失败: " +:+ exn_str e)),
          (restore_after_failed_write bp p w3).2)
       end
     | (Ret (false, _), w2) => (Ret (failed "创建备份失败"), w2)
     | (Raise e, w2) => (Ret (failed ("补丁操作失败: " +:+ exn_str e)), w2)
     end).1 <> Ret (failed "无法获取文件写权限")).
  { intros w1. destruct (_create_backup p w1) as [[[[|] bp]|ex] w2]; simpl;
      [| done | by intros [=]].
    destruct (open_write_text p _ w2) as [[[]|ex] w3]; simpl; [done |].
    by intros [=]. }
  destruct (lacks_write_flag e) eqn:Hl; [destruct (e_owned e) eqn:Ho |].
  - split; [split; [by intros ?%Hother | by intros [_ ?]] |].
    by intros ?%Hother.
  - simpl. done.
  - split; [split; [by intros ?%Hother | by intros [? _]] |].
    by intros ?%Hother.
Qed.

Lemma apply_patch_permission_refusal_witness :
  ((apply_patch sample_file BLOCK readonly_world).1
   = Ret (failed "无法获取文件写权限")
   <-> lacks_write_flag (Entry (Reg sample_js) 292 false) = true
       /\ e_owned (Entry (Reg sample_js) 292 false) = false)
  /\ ((apply_patch sample_file BLOCK readonly_world).1
      = Ret (failed "无法获取文件写权限") ->
      w_fs (apply_patch sample_file BLOCK readonly_world).2
      = w_fs readonly_world).
Proof.
  apply (apply_patch_permission_refusal sample_file BLOCK readonly_world
           sample_js).
  - by vm_compute.
  - apply not_patched_spec. by vm_compute.
  - apply find_callapi_spec. vm_compute. by eexists.
  - by vm_compute.
Defined.

(** X22: a failed [apply_patch] that found no backup in place leaves the
    file with the bytes it had, unless it reports on the console that the
    recovery failed. *)
Theorem apply_patch_failure_atomic p m w r w' b :
  backup_of p = Some b -> w_fs w !! b = None ->
  apply_patch p m w = (Ret r, w') -> success r = false ->
  file_bytes w' p = file_bytes w p
  \/ last (w_console w') = Some (ERROR, "恢复原始文件失败!").
Proof.
  intros Hb Hnone Hrun Hfail.
  destruct (backup_path_ne p b Hb) as [Hne _].
  destruct (w_fs w !! p) as [e|] eqn:Hp.
  2:{ rewrite apply_patch_missing in Hrun by done.
      injection Hrun as <- <-. by left. }
  destruct (read_text w p) as [c|] eqn:Hr.
  2:{ destruct (apply_patch_unreadable p m w) as [ex H]; [done | done |].
      rewrite H in Hrun. injection Hrun as <- <-. by left. }
  destruct (_is_already_patched c) eqn:Hpat.
  { rewrite (apply_patch_already_patched p m w c) in Hrun by done.
    injection Hrun as <- <-. by left. }
  destruct (_find_callapi_function c) as [mt|] eqn:Hfind.
  2:{ rewrite (apply_patch_no_anchor p m w c) in Hrun by done.
      injection Hrun as <- <-. by left. }
  rewrite (apply_patch_found p m w c mt) in Hrun by done.
  pose proof Hr as (e0 & data & raw & Hp0 & Hnode & _)%read_text_Some.
  rewrite Hp in Hp0. injection Hp0 as <-.
  destruct (_ensure_write_permissions p (started p m w)) as [o1 w1] eqn:E1.
  pose proof (ensure_keeps_bytes _ _ _ _ E1) as B1.
  change (file_bytes (started p m w) p) with (file_bytes w p) in B1.
  destruct o1 as [[|]|ex]; [| injection Hrun as <- <-; by left ..].
  apply ensure_true with (e := e) in E1 as (Hfs1 & _); [|done].
  destruct (_create_backup p w1) as [o2 w2] eqn:E2.
  pose proof (create_backup_keeps_file _ _ _ _ E2) as K2.
  assert (B2 : file_bytes w2 p = file_bytes w p)
    by (rewrite <- B1; unfold file_bytes; by rewrite K2).
  destruct o2 as [[[|] bp]|ex]; [| injection Hrun as <- <-; by left ..].
  assert (bp = b) as ->.
  { pose proof (wp_run _ _ _ _ _ E2 (create_backup_spec p w1)) as H.
    simpl in H. destruct H as (ok & bp' & [= <- <-] & H). rewrite Hb in H.
    destruct H as [_ H]. destruct (w_fs w1 !! b); [tauto |].
    by destruct (H eq_refl). }
  apply create_backup_ok in E2 as [_ Hb2]; [|done].
  assert (Hb1 : w_fs w1 !! b = None)
    by (rewrite Hfs1; by rewrite lookup_insert_ne).
  rewrite Hb1 in Hb2. destruct Hb2 as [(e1 & data1 & Hp1 & Hn1 & _ & Hb2) _].
  rewrite Hfs1, lookup_insert_eq in Hp1. injection Hp1 as <-.
  rewrite writable_entry_node, Hnode in Hn1. injection Hn1 as <-.
  destruct (open_write_text p _ w2) as [o3 w3] eqn:E3.
  pose proof (wp_run _ _ _ _ _ E3 (open_write_text_spec p _ w2)) as H3.
  simpl in H3. destruct H3 as (_ & Hf3 & Hk3 & _).
  destruct o3 as [[]|ex]; [by injection Hrun as <- <- |].
  injection Hrun as <- <-. rewrite restore_after_failed_write_run.
  destruct ((_ensure_write_permissions p;; shutil.copy2 b p) w3)
    as [[d|ex'] w4] eqn:E4; cbn [snd]; [left | right; apply last_snoc].
  change (file_bytes w4 p = file_bytes w p).
  apply rollback_restores in E4 as (_ & _ & ->); [|done |].
  - unfold file_bytes at 1. rewrite Hf3, Hb2 by done. simpl.
    unfold file_bytes. by rewrite Hp, Hnode.
  - apply (Hk3 (writable_entry e)).
    + rewrite K2, Hfs1. apply lookup_insert_eq.
    + by rewrite writable_entry_node, Hnode.
Qed.

Lemma apply_patch_failure_atomic_witness :
  file_bytes (apply_patch sample_file BLOCK full_world).2 sample_file
  = file_bytes full_world sample_file
  \/ last (w_console (apply_patch sample_file BLOCK full_world).2)
     = Some (ERROR, "恢复原始文件失败!").
Proof.
  apply (apply_patch_failure_atomic sample_file BLOCK full_world
           (failed "写入补丁文件失败: [Errno 28] No space left on device")
           _ sample_backup).
  - by vm_compute.
  - by vm_compute.
  - vm_compute. reflexivity.
  - reflexivity.
Defined.
